(** * RedAlert bot: wallet monitor, threat scorer and alert path

    Shallow embedding of
      - [src/services/transactionMonitor.js]  (class TransactionMonitor),
      - [src/services/threatAnalyzer.js]      (class ThreatAnalyzer),
      - [handleThreatDetected] of the bot front-end,
    followed by the properties of the monitoring engine.

    Conventions of the embedding.
      - JS numbers that hold scores, lamports, counters and millisecond
        clocks are integers in [Z].
      - A JS string is the [string] of its UTF-8 bytes. A test for an
        ASCII text inside a string gives the same answer on the bytes as on
        the UTF-16 code units, because no byte of a code point outside
        ASCII is an ASCII byte.
      - A JS [Map] is a [gmap]. Where the order of a map's entries and the
        position of a running [for ... of] loop matter, the registry is
        read through [Live], which keeps the entry slots next to the map.
      - [Date.now()] is an input [now] of every handler, read once per
        handler run.
      - Calls that leave the process (RPC node, AI service, JSON.parse) are
        inputs of the handler that makes them: the caller supplies what the
        collaborator answered, or that it threw.
      - An async handler runs from its call to its end, except for the
        health check of a sweep tick: [Live.performHealthCheck] lets a
        [stopMonitoring] of the wallet under check end while
        [await getAccountInfo] is pending. *)

From Stdlib Require Import ZArith Ascii String List Bool Lia.
From stdpp Require Import base option list gmap strings pretty fin_maps.
Import ListNotations.

Local Open Scope string_scope.
Local Open Scope Z_scope.

(** ** JS string primitives *)

Module JsString.

Definition lowerChar (c : ascii) : ascii :=
  let n := nat_of_ascii c in
  if (Nat.leb 65 n && Nat.leb n 90)%bool then ascii_of_nat (n + 32) else c.

(** [s.toLowerCase()]. Next to A-Z, two code points have a lower-case form
    that holds an ASCII letter: KELVIN SIGN (U+212A, bytes E2 84 AA) becomes
    [k], and LATIN CAPITAL LETTER I WITH DOT ABOVE (U+0130, bytes C4 B0)
    becomes [i] followed by COMBINING DOT ABOVE (U+0307, bytes CC 87). The
    lower-case form of any other code point outside ASCII lies outside
    ASCII, as the code point does; its bytes are kept as they are, since
    every reader of a lowered string looks for an ASCII text in it. *)
Fixpoint toLowerCase (s : string) : string :=
  match s with
  | EmptyString => EmptyString
  | String "226" (String "132" (String "170" s')) => String "k" (toLowerCase s')
  | String "196" (String "176" s') =>
      String "i" (String "204" (String "135" (toLowerCase s')))
  | String c s' => String (lowerChar c) (toLowerCase s')
  end.

(** The [/i] flag of a regular expression without the [u] flag: a
    character is compared by its upper-case form, unless that form is ASCII
    and the character is not, so only the ASCII letters fold. *)
Fixpoint foldCase (s : string) : string :=
  match s with
  | EmptyString => EmptyString
  | String c s' => String (lowerChar c) (foldCase s')
  end.

(** [startsWith s p]: [p] is a prefix of [s]. *)
Fixpoint startsWith (s p : string) : bool :=
  match p, s with
  | EmptyString, _ => true
  | String _ _, EmptyString => false
  | String a p', String b s' => if Ascii.eqb a b then startsWith s' p' else false
  end.

(** [includes s p] is JS [s.includes(p)]. *)
Fixpoint includes (s p : string) : bool :=
  match s with
  | EmptyString => startsWith EmptyString p
  | String _ s' => startsWith s p || includes s' p
  end.

Fixpoint drop (n : nat) (s : string) : string :=
  match n, s with
  | O, _ => s
  | S n', String _ s' => drop n' s'
  | S _, EmptyString => EmptyString
  end.

Definition isDigit (c : ascii) : bool :=
  let n := nat_of_ascii c in (Nat.leb 48 n && Nat.leb n 57)%bool.

(** The regex [.] refuses the four line terminators: LF, CR, LINE
    SEPARATOR (U+2028, bytes E2 80 A8) and PARAGRAPH SEPARATOR (U+2029,
    bytes E2 80 A9). *)
Definition isLineTerminator (s : string) : bool :=
  match s with
  | String "010" _ | String "013" _ => true
  | String "226" (String "128" (String c _)) =>
      (Ascii.eqb c "168" || Ascii.eqb c "169")%bool
  | _ => false
  end.

(** The greedy run [\d+] at the head of [s]. *)
Fixpoint takeDigits (s : string) : string :=
  match s with
  | String c s' => if isDigit c then String c (takeDigits s') else EmptyString
  | EmptyString => EmptyString
  end.

(** [.*?(\d+)] from the head of [s]: skip as few characters as possible,
    none of them a line terminator, then capture the digit run. *)
Fixpoint lazyThenDigits (s : string) : option string :=
  match s with
  | EmptyString => None
  | String c s' =>
      if isDigit c then Some (takeDigits s)
      else if isLineTerminator s then None
      else lazyThenDigits s'
  end.

(** Capture group 1 of [s.match(/transfer.*?(\d+)/i)], leftmost match. *)
Fixpoint matchTransferAmount (s : string) : option string :=
  match s with
  | EmptyString => None
  | String _ s' =>
      if startsWith (foldCase s) "transfer" then
        match lazyThenDigits (drop 8 s) with
        | Some d => Some d
        | None => matchTransferAmount s'
        end
      else matchTransferAmount s'
  end.

(** [parseInt] on a string of decimal digits. *)
Fixpoint parseDigits (acc : Z) (s : string) : Z :=
  match s with
  | EmptyString => acc
  | String c s' => parseDigits (10 * acc + (Z.of_nat (nat_of_ascii c) - 48)) s'
  end.

Definition parseInt (s : string) : Z := parseDigits 0 s.

(** The span of [s.match(/\{[\s\S]*\}/)]: from the first opening brace to
    the last closing brace after it. *)
Fixpoint uptoLastClose (s : string) : option string :=
  match s with
  | EmptyString => None
  | String c s' =>
      match uptoLastClose s' with
      | Some r => Some (String c r)
      | None => if Ascii.eqb c "}" then Some (String c EmptyString) else None
      end
  end.

Fixpoint matchBraces (s : string) : option string :=
  match s with
  | EmptyString => None
  | String c s' =>
      if Ascii.eqb c "{" then
        match uptoLastClose s' with
        | Some r => Some (String c r)
        | None => None
        end
      else matchBraces s'
  end.

End JsString.

Import JsString.

(** ** Data of the monitoring engine *)

Inductive Severity := CRITICAL | WARNING.

Inductive ThreatSource := AccountChange | TransactionAnalysis | HealthCheck.

(** An entry of [logs.logs]: a string, or a value without [toLowerCase]. *)
Inductive LogEntry := LogStr (s : string) | LogOther.

Record Logs := {
  signature : option string;
  logs : option (list LogEntry)
}.

Record TransactionMeta := {
  err : bool;
  postBalances : list Z;
  preBalances : list Z
}.

(** [accountKeys] is [transaction.transaction?.message?.accountKeys || []]. *)
Record Transaction := {
  meta : option TransactionMeta;
  accountKeys : list string
}.

Record AccountInfo := { lamports : Z }.

Record WalletInfo := {
  userId : Z;
  lastCheck : Z;
  transactionCount : Z;
  subscriptionId : option Z;
  logsSubscriptionId : option Z;
  lastActivity : option Z;
  hadAccount : option bool
}.

(** The parsed answer of the AI service; a field the JSON lacks is [None]. *)
Record AIAnalysis := {
  threatLevel : option string;
  confidence : option Z;
  aiThreats : option (list string);
  aiRecommendation : option string;
  explanation : option string
}.

Record ProfileSummary := {
  psTotalTransactions : Z;
  psAccountAge : Z;
  psPatterns : list string
}.

Record KnownThreat := {
  ktType : string;
  ktDescription : string;
  ktRiskLevel : string;
  matchedPatterns : list string
}.

(** The threat object, with the fields [combineAnalysis] may add. *)
Record Threat := {
  type : Severity;
  source : ThreatSource;
  riskScore : Z;
  threats : list string;
  timestamp : Z;
  threatSignature : option string;
  transaction : option Transaction;
  walletProfile : option ProfileSummary;
  aiAnalysis : option AIAnalysis;
  recommendation : option string;
  aiExplanation : option string;
  knownThreats : list KnownThreat
}.

Definition severityOf (score : Z) : Severity :=
  if 70 <=? score then CRITICAL else WARNING.

(** ** Heuristic risk scorer *)

(** The two locals of a scorer: [threats] and [riskScore]. *)
Record Acc := { accThreats : list string; accScore : Z }.

Definition acc0 : Acc := {| accThreats := []; accScore := 0 |}.

(** [threats.push(label); riskScore += w]. *)
Definition hit (label : string) (w : Z) (a : Acc) : Acc :=
  {| accThreats := accThreats a ++ [label]; accScore := accScore a + w |}.

Definition hitIf (c : bool) (label : string) (w : Z) (a : Acc) : Acc :=
  if c then hit label w a else a.

Definition knownPrograms : list string :=
  [ "system program"; "token program"; "associated token"; "spl-token";
    "jupiter"; "raydium"; "serum"; "orca" ].

Definition isKnownProgram (log : string) : bool :=
  let lowerLog := toLowerCase log in
  existsb (fun program => includes lowerLog program) knownPrograms.

Definition detectLargeTransfer (log : string) : bool :=
  match matchTransferAmount log with
  | Some digits => 1000000 <? parseInt digits
  | None => false
  end.

Definition suspiciousPatterns : list string :=
  [ "drainer"; "stealer"; "malicious"; "phishing"; "unknown_program" ].

Definition detectSuspiciousProgram (log : string) : bool :=
  let lowerLog := toLowerCase log in
  existsb (fun pattern => includes lowerLog pattern) suspiciousPatterns.

(** Body of the [forEach] callback of [analyzeTransaction], for a string. *)
Definition scanLine (log : string) (a : Acc) : Acc :=
  let lowerLog := toLowerCase log in
  let a := hitIf (includes lowerLog "transfer" && includes lowerLog "authority")
                 "Token authority transfer detected" 60 a in
  let a := hitIf (includes lowerLog "invoke" && negb (isKnownProgram log))
                 "Interaction with unknown program" 30 a in
  let a := hitIf (includes lowerLog "transfer" && detectLargeTransfer log)
                 "Large token transfer detected" 40 a in
  let a := hitIf (detectSuspiciousProgram log)
                 "Interaction with flagged program" 80 a in
  hitIf (includes lowerLog "approve" || includes lowerLog "allowance")
        "Token approval detected - potential drainer" 50 a.

(** A [try] block that mutates the two locals: it ends normally or by a
    throw, and either way the locals keep what was done to them. *)
Inductive Run := Done (a : Acc) | Raised (a : Acc).

(** [logMessages.forEach(...)]: [log.toLowerCase()] throws on an entry that
    is not a string, leaving the findings of the earlier entries. *)
Fixpoint scanLogs (ls : list LogEntry) (a : Acc) : Run :=
  match ls with
  | [] => Done a
  | LogStr s :: ls' => scanLogs ls' (scanLine s a)
  | LogOther :: _ => Raised a
  end.

(** The loop over [postBalances]; [pre] is [preBalances] from index [i] on. *)
Fixpoint scanBalances (post pre : list Z) (a : Acc) : Acc :=
  match post with
  | [] => a
  | p :: post' =>
      let change := p - hd 0 pre in
      scanBalances post' (tl pre)
        (hitIf (change <? -1000000) "Significant SOL balance decrease" 30 a)
  end.

Definition scanStructure (tx : Transaction) (a : Acc) : Acc :=
  match meta tx with
  | None => a
  | Some m =>
      let a := hitIf (err m) "Transaction failed - possible attack attempt" 20 a in
      let a := hitIf (10 <? Z.of_nat (length (accountKeys tx)))
                     "High number of account interactions" 25 a in
      scanBalances (postBalances m) (preBalances m) a
  end.

(** [walletInfo.transactionCount / ((now - lastCheck) / 1000 / 60) > 2] for
    a count above 5, in exact arithmetic: a zero period gives [Infinity], a
    negative one a negative rate. *)
Definition txPerMinuteAbove2 (count elapsed : Z) : bool :=
  if elapsed =? 0 then true
  else if elapsed <? 0 then false
  else 2 * elapsed <? count * 60000.

Definition scanFrequency (wi : option WalletInfo) (now : Z) (a : Acc) : Acc :=
  match wi with
  | Some w =>
      if 5 <? transactionCount w then
        hitIf (txPerMinuteAbove2 (transactionCount w) (now - lastCheck w))
              "High transaction frequency detected" 35 a
      else a
  | None => a
  end.

(** The [try { ... } catch] of [analyzeTransaction]: the evaluation. *)
Definition tryAnalysis (wi : option WalletInfo) (now : Z)
    (tx : Transaction) (lg : Logs) : Run :=
  match scanLogs (default [] (logs lg)) acc0 with
  | Raised a => Raised a
  | Done a => Done (scanFrequency wi now (scanStructure tx a))
  end.

Definition evaluateTransaction (wi : option WalletInfo) (now : Z)
    (tx : Transaction) (lg : Logs) : Acc :=
  match tryAnalysis wi now tx lg with
  | Done a => a
  | Raised a => hit "Analysis error occurred" 10 a
  end.

Definition mkThreat (src : ThreatSource) (a : Acc) (now : Z)
    (sig : option string) (tx : option Transaction) : Threat :=
  {| type := severityOf (accScore a); source := src;
     riskScore := accScore a; threats := accThreats a; timestamp := now;
     threatSignature := sig; transaction := tx;
     walletProfile := None; aiAnalysis := None; recommendation := None;
     aiExplanation := None; knownThreats := [] |}.

(** [analyzeTransaction(walletAddress, transaction, logs)]; [wi] is
    [this.monitoredWallets.get(walletAddress)]. *)
Definition analyzeTransaction (wi : option WalletInfo) (now : Z)
    (transaction : option Transaction) (lg : Logs) : option Threat :=
  match transaction with
  | None => None
  | Some tx =>
      let a := evaluateTransaction wi now tx lg in
      if 40 <? accScore a
      then Some (mkThreat TransactionAnalysis a now (signature lg) (Some tx))
      else None
  end.

Definition evaluateAccountSnapshot (accountInfo : option AccountInfo) : Acc :=
  match accountInfo with
  | None => hit "Account closed or emptied" 70 acc0
  | Some ai => hitIf (lamports ai =? 0) "Account drained of SOL" 80 acc0
  end.

Definition analyzeAccountChange (now : Z) (accountInfo : option AccountInfo)
    : option Threat :=
  let a := evaluateAccountSnapshot accountInfo in
  if 50 <? accScore a
  then Some (mkThreat AccountChange a now None None)
  else None.

(** ** Threat analyzer *)

Record Profile := {
  firstSeen : Z;
  totalTransactions : Z;
  patterns : list string;
  profileRiskScore : Z;
  profileLastActivity : Z
}.

(** [set.add(x)] on an insertion-ordered JS [Set]. *)
Definition setAdd (x : string) (s : list string) : list string :=
  if bool_decide (x ∈ s) then s else s ++ [x].

Definition setAddIf (c : bool) (x : string) (s : list string) : list string :=
  if c then setAdd x s else s.

(** [[...new Set(l)]]. *)
Definition newSet (l : list string) : list string :=
  foldl (fun s x => setAdd x s) [] l.

Definition profilePatterns (log : string) (s : list string) : list string :=
  let lowerLog := toLowerCase log in
  let s := setAddIf (includes lowerLog "transfer") "transfer" s in
  let s := setAddIf (includes lowerLog "approve") "approve" s in
  let s := setAddIf (includes lowerLog "authority") "authority_change" s in
  setAddIf (includes lowerLog "invoke") "program_invoke" s.

(** [updateWalletProfile]; [lines] is [logs && logs.logs], which the one
    caller fills with the labels of the basic threat. *)
Definition updateWalletProfile (profiles : gmap string Profile)
    (walletAddress : string) (lines : option (list string)) (now : Z)
    : gmap string Profile :=
  let profile := default {| firstSeen := now; totalTransactions := 0;
                            patterns := []; profileRiskScore := 0;
                            profileLastActivity := now |}
                         (profiles !! walletAddress) in
  <[ walletAddress :=
       {| firstSeen := firstSeen profile;
          totalTransactions := totalTransactions profile + 1;
          patterns := foldl (fun s log => profilePatterns log s)
                            (patterns profile) (default [] lines);
          profileRiskScore := profileRiskScore profile;
          profileLastActivity := now |} ]> profiles.

Definition fallbackAnalysis : AIAnalysis :=
  {| threatLevel := Some "MEDIUM"; confidence := Some 50;
     aiThreats := Some ["AI analysis incomplete"];
     aiRecommendation := Some "Monitor closely";
     explanation := Some "AI response could not be parsed" |}.

(** What a call that may throw did. *)
Inductive Outcome (A : Type) := Threw | Returned (a : A).
Arguments Threw {A}.
Arguments Returned {A} a.

(** [try { body } catch { handler }]. *)
Definition tryCatch {A : Type} (body : Outcome A) (handler : A) : A :=
  match body with
  | Returned a => a
  | Threw => handler
  end.

Section Analyzer.

(** [JSON.parse] on the brace span of the answer; [None] is a thrown
    SyntaxError. *)
Variable JSON_parse : string -> option AIAnalysis.

Definition parseAIResponse (aiResponse : string) : option AIAnalysis :=
  match matchBraces aiResponse with
  | Some jsonMatch =>
      tryCatch (match JSON_parse jsonMatch with
                | Some a => Returned (Some a)
                | None => Threw
                end) None
  | None => Some fallbackAnalysis
  end.

(** [getAIAnalysis]; [post] is what [axios.post] did: it threw (timeout,
    network error, error status), or it returned the message content. *)
Definition getAIAnalysis (post : Outcome string) : option AIAnalysis :=
  tryCatch (match post with
            | Threw => Threw
            | Returned aiResponse => Returned (parseAIResponse aiResponse)
            end) None.

End Analyzer.

Definition threatDatabase : list (string * (list string * string * string)) :=
  [ ("token_drainer", (["approve"; "transfer_all"; "authority_change"],
                       "CRITICAL", "Token drainer contract detected"));
    ("phishing_site", (["multiple_approvals"; "unknown_program"; "urgent_transfer"],
                       "HIGH", "Phishing attack pattern"));
    ("rug_pull", (["liquidity_removal"; "massive_sell"; "dev_dump"],
                  "CRITICAL", "Rug pull activity detected")) ].

Definition patternMatches (ths pats : list string) : list string :=
  List.filter
    (fun pattern =>
       existsb (fun t => includes (toLowerCase t) (toLowerCase pattern)) ths)
    pats.

Definition matchKnownThreats (ths : list string) : list KnownThreat :=
  flat_map
    (fun entry =>
       let '(threatType, (pats, level, descr)) := entry in
       let pm := patternMatches ths pats in
       if (2 <=? length pm)%nat
       then [ {| ktType := threatType; ktDescription := descr;
                 ktRiskLevel := level; matchedPatterns := pm |} ]
       else [])
    threatDatabase.

(** The score after the [aiAnalysis.confidence > 80] block. *)
Definition aiAdjust (ai : AIAnalysis) (score : Z) : Z :=
  match confidence ai with
  | Some c =>
      if 80 <? c then
        if bool_decide (threatLevel ai = Some "CRITICAL") then Z.max score 90
        else if bool_decide (threatLevel ai = Some "HIGH") then Z.max score 75
        else score
      else score
  | None => score
  end.

Definition summarize (p : Profile) (now : Z) : ProfileSummary :=
  {| psTotalTransactions := totalTransactions p;
     psAccountAge := (now - firstSeen p) / (1000 * 60 * 60 * 24);
     psPatterns := patterns p |}.

(** [combineAnalysis] for a basic threat that is not null. *)
Definition combineThreat (profiles : gmap string Profile) (basicThreat : Threat)
    (ai : option AIAnalysis) (walletAddress : string) (now : Z) : Threat :=
  let wp := match profiles !! walletAddress with
            | Some p => Some (summarize p now)
            | None => walletProfile basicThreat
            end in
  let score1 := match ai with
                | Some a => aiAdjust a (riskScore basicThreat)
                | None => riskScore basicThreat
                end in
  let threats1 := match ai with
                  | Some a =>
                      match aiThreats a with
                      | Some l => newSet (threats basicThreat ++ l)
                      | None => threats basicThreat
                      end
                  | None => threats basicThreat
                  end in
  let known := matchKnownThreats threats1 in
  {| type := type basicThreat;
     source := source basicThreat;
     riskScore := match known with [] => score1 | _ :: _ => Z.max score1 80 end;
     threats := threats1;
     timestamp := timestamp basicThreat;
     threatSignature := threatSignature basicThreat;
     transaction := transaction basicThreat;
     walletProfile := wp;
     aiAnalysis := match ai with Some a => Some a | None => aiAnalysis basicThreat end;
     recommendation := match ai with
                       | Some a => aiRecommendation a
                       | None => recommendation basicThreat
                       end;
     aiExplanation := match ai with
                      | Some a => explanation a
                      | None => aiExplanation basicThreat
                      end;
     knownThreats := match known with [] => knownThreats basicThreat | _ :: _ => known end |}.

Definition combineAnalysis (profiles : gmap string Profile)
    (basicThreat : option Threat) (ai : option AIAnalysis)
    (walletAddress : string) (now : Z) : option Threat :=
  match basicThreat with
  | None => None
  | Some b => Some (combineThreat profiles b ai walletAddress now)
  end.

(** ** The engine: registry, callbacks, profiles, stored alerts, sink *)

Record StoredAlert := {
  saThreat : Threat;
  saUserId : Z;
  saWalletAddress : string;
  alertId : string
}.

(** What [handleThreatDetected] hands to the chat: the alert message of a
    threat, and the follow-up message of a critical one. *)
Inductive Delivery :=
| AlertMessage (chatId : Z) (walletAddress : string) (t : Threat)
| CriticalMessage (chatId : Z).

(** [threatCallbacks] holds, per wallet, the closure
    [(address, threat) => this.handleThreatDetected(address, threat, userId, ctx)]
    of the bot, that is, its [userId]. *)
Record State := {
  monitoredWallets : gmap string WalletInfo;
  threatCallbacks : gmap string Z;
  isMonitoring : bool;
  openaiApiKey : option string;
  walletProfiles : gmap string Profile;
  threatAlerts : gmap string StoredAlert;
  outbox : list Delivery
}.

Definition initialState (key : option string) : State :=
  {| monitoredWallets := ∅; threatCallbacks := ∅; isMonitoring := false;
     openaiApiKey := key; walletProfiles := ∅; threatAlerts := ∅;
     outbox := [] |}.

Definition setWallets (f : gmap string WalletInfo -> gmap string WalletInfo)
    (st : State) : State :=
  {| monitoredWallets := f (monitoredWallets st);
     threatCallbacks := threatCallbacks st; isMonitoring := isMonitoring st;
     openaiApiKey := openaiApiKey st; walletProfiles := walletProfiles st;
     threatAlerts := threatAlerts st; outbox := outbox st |}.

Definition setCallbacks (f : gmap string Z -> gmap string Z) (st : State) : State :=
  {| monitoredWallets := monitoredWallets st;
     threatCallbacks := f (threatCallbacks st); isMonitoring := isMonitoring st;
     openaiApiKey := openaiApiKey st; walletProfiles := walletProfiles st;
     threatAlerts := threatAlerts st; outbox := outbox st |}.

Definition setIsMonitoring (b : bool) (st : State) : State :=
  {| monitoredWallets := monitoredWallets st;
     threatCallbacks := threatCallbacks st; isMonitoring := b;
     openaiApiKey := openaiApiKey st; walletProfiles := walletProfiles st;
     threatAlerts := threatAlerts st; outbox := outbox st |}.

Definition keyConfigured (key : option string) : bool :=
  match key with
  | Some k => negb (String.eqb k EmptyString) && negb (String.eqb k "your_openai_key_here")
  | None => false
  end.

Section Engine.

Variable JSON_parse : string -> option AIAnalysis.

(** [analyzeTransactionWithAI]: the new profile table and the enhanced
    threat. [post] is consulted only when a key is configured. *)
Definition analyzeTransactionWithAI (key : option string)
    (profiles : gmap string Profile) (walletAddress : string)
    (lines : option (list string)) (basicThreat : Threat) (now : Z)
    (post : Outcome string) : gmap string Profile * Threat :=
  let profiles' := updateWalletProfile profiles walletAddress lines now in
  let aiAnalysis :=
    if keyConfigured key then getAIAnalysis JSON_parse post else None in
  (profiles', combineThreat profiles' basicThreat aiAnalysis walletAddress now).

(** [handleThreatDetected(walletAddress, basicThreat, userId, ctx)]. *)
Definition handleThreatDetected (st : State) (walletAddress : string)
    (basicThreat : Threat) (uid : Z) (now : Z) (post : Outcome string)
    : State :=
  let '(profiles', enhancedThreat) :=
    analyzeTransactionWithAI (openaiApiKey st) (walletProfiles st)
      walletAddress (Some (threats basicThreat)) basicThreat now post in
  let id := walletAddress +:+ "-" +:+ pretty now in
  {| monitoredWallets := monitoredWallets st;
     threatCallbacks := threatCallbacks st;
     isMonitoring := isMonitoring st;
     openaiApiKey := openaiApiKey st;
     walletProfiles := profiles';
     threatAlerts :=
       <[ id := {| saThreat := enhancedThreat; saUserId := uid;
                   saWalletAddress := walletAddress; alertId := id |} ]>
         (threatAlerts st);
     outbox :=
       outbox st ++ [AlertMessage uid walletAddress enhancedThreat]
         ++ (if 80 <=? riskScore enhancedThreat
             then [CriticalMessage uid] else []) |}.

Definition sendThreatAlert (st : State) (walletAddress : string)
    (threat : Threat) (now : Z) (post : Outcome string) : State :=
  match threatCallbacks st !! walletAddress with
  | Some uid => handleThreatDetected st walletAddress threat uid now post
  | None => st
  end.

Definition handleAccountChange (st : State) (walletAddress : string)
    (accountInfo : option AccountInfo) (now : Z) (post : Outcome string)
    : State :=
  match monitoredWallets st !! walletAddress with
  | None => st
  | Some _ =>
      match analyzeAccountChange now accountInfo with
      | Some threat => sendThreatAlert st walletAddress threat now post
      | None => st
      end
  end.

(** [walletInfo.transactionCount++; walletInfo.lastActivity = Date.now()]. *)
Definition touch (walletInfo : WalletInfo) (now : Z) : WalletInfo :=
  {| userId := userId walletInfo;
     lastCheck := lastCheck walletInfo;
     transactionCount := transactionCount walletInfo + 1;
     subscriptionId := subscriptionId walletInfo;
     logsSubscriptionId := logsSubscriptionId walletInfo;
     lastActivity := Some now;
     hadAccount := hadAccount walletInfo |}.

(** [handleTransactionLogs]; [fetch] is what [getTransaction] did. *)
Definition handleTransactionLogs (st : State) (walletAddress : string)
    (lg : Logs) (now : Z) (fetch : Outcome (option Transaction))
    (post : Outcome string) : State :=
  match monitoredWallets st !! walletAddress with
  | None => st
  | Some walletInfo =>
      let st1 := setWallets (insert walletAddress (touch walletInfo now)) st in
      tryCatch
        (match fetch with
         | Threw => Threw
         | Returned transaction =>
             Returned
               match analyzeTransaction (monitoredWallets st1 !! walletAddress)
                       now transaction lg with
               | Some threat => sendThreatAlert st1 walletAddress threat now post
               | None => st1
               end
         end)
        st1
  end.

(** ** Lifecycle *)

(** What the collaborators of [startMonitoring] did: whether
    [new PublicKey(walletAddress)] accepted the address, and the two
    subscription calls. *)
Record StartEnv := {
  keyValid : bool;
  onAccountChange : Outcome Z;
  onLogs : Outcome Z
}.

Definition startPeriodicChecks (st : State) : State :=
  if isMonitoring st then st else setIsMonitoring true st.

Definition startMonitoring (st : State) (walletAddress : string) (uid : Z)
    (threatCallback : Z) (now : Z) (env : StartEnv) : State * bool :=
  if negb (keyValid env) then (st, false)
  else
    let st1 :=
      setCallbacks (insert walletAddress threatCallback)
        (setWallets
           (insert walletAddress
              {| userId := uid; lastCheck := now; transactionCount := 0;
                 subscriptionId := None; logsSubscriptionId := None;
                 lastActivity := None; hadAccount := None |}) st) in
    match onAccountChange env with
    | Threw => (st1, false)
    | Returned sub =>
        match onLogs env with
        | Threw => (st1, false)
        | Returned logsSub =>
            let st2 :=
              setWallets
                (insert walletAddress
                   {| userId := uid; lastCheck := now; transactionCount := 0;
                      subscriptionId := Some sub;
                      logsSubscriptionId := Some logsSub;
                      lastActivity := None; hadAccount := None |}) st1 in
            (startPeriodicChecks st2, true)
        end
    end.

Record StopEnv := {
  removeAccountChangeListener : Outcome unit;
  removeOnLogsListener : Outcome unit
}.

(** [if (id) await remove(id)]: a subscription id that is missing or 0 is
    falsy and skips the call. *)
Definition truthyId (id : option Z) : bool :=
  match id with
  | Some n => negb (n =? 0)
  | None => false
  end.

Definition whenId (id : option Z) (call : Outcome unit) : Outcome unit :=
  if truthyId id then call else Returned tt.

Definition stopMonitoring (st : State) (walletAddress : string)
    (env : StopEnv) : State :=
  match monitoredWallets st !! walletAddress with
  | None => st
  | Some walletInfo =>
      tryCatch
        (match whenId (subscriptionId walletInfo)
                 (removeAccountChangeListener env) with
         | Threw => Threw
         | Returned _ =>
             match whenId (logsSubscriptionId walletInfo)
                     (removeOnLogsListener env) with
             | Threw => Threw
             | Returned _ =>
                 Returned
                   (setCallbacks (delete walletAddress)
                      (setWallets (delete walletAddress) st))
             end
         end)
        st
  end.

(** ** Reconciliation sweep *)

Definition healthThreat (now : Z) : Threat :=
  {| type := CRITICAL; source := HealthCheck; riskScore := 90;
     threats := ["Account no longer exists - possible drain"];
     timestamp := now; threatSignature := None; transaction := None;
     walletProfile := None; aiAnalysis := None; recommendation := None;
     aiExplanation := None; knownThreats := [] |}.

(** [walletInfo.hadAccount = !!accountInfo]. *)
Definition setHadAccount (walletInfo : WalletInfo) (b : bool) : WalletInfo :=
  {| userId := userId walletInfo;
     lastCheck := lastCheck walletInfo;
     transactionCount := transactionCount walletInfo;
     subscriptionId := subscriptionId walletInfo;
     logsSubscriptionId := logsSubscriptionId walletInfo;
     lastActivity := lastActivity walletInfo;
     hadAccount := Some b |}.

(** [walletInfo.transactionCount = 0; walletInfo.lastCheck = Date.now()]. *)
Definition resetWindow (walletInfo : WalletInfo) (now : Z) : WalletInfo :=
  {| userId := userId walletInfo;
     lastCheck := now;
     transactionCount := 0;
     subscriptionId := subscriptionId walletInfo;
     logsSubscriptionId := logsSubscriptionId walletInfo;
     lastActivity := lastActivity walletInfo;
     hadAccount := hadAccount walletInfo |}.

(** [performHealthCheck] from the return of [await getAccountInfo] on;
    [walletInfo] is the entry read before the [await]. *)
Definition healthCheckResume (st : State) (walletAddress : string)
    (walletInfo : WalletInfo) (accountInfo : option AccountInfo)
    (now : Z) (post : Outcome string) : State :=
  let st1 :=
    if negb (bool_decide (is_Some accountInfo))
       && default false (hadAccount walletInfo)
    then sendThreatAlert st walletAddress (healthThreat now) now post
    else st in
  setWallets
    (insert walletAddress
       (setHadAccount walletInfo (bool_decide (is_Some accountInfo))))
    st1.

(** [performHealthCheck]; [rpc] is what [getAccountInfo] did. *)
Definition performHealthCheck (st : State) (walletAddress : string)
    (now : Z) (rpc : Outcome (option AccountInfo)) (post : Outcome string)
    : State :=
  match monitoredWallets st !! walletAddress with
  | None => st
  | Some walletInfo =>
      tryCatch
        (match rpc with
         | Threw => Threw
         | Returned accountInfo =>
             Returned
               (healthCheckResume st walletAddress walletInfo accountInfo now post)
         end)
        st
  end.

(** One turn of the [for ... of this.monitoredWallets] loop. *)
Definition sweepWallet (now : Z)
    (rpc : string -> Outcome (option AccountInfo))
    (post : string -> Outcome string)
    (st : State) (walletAddress : string) : State :=
  match monitoredWallets st !! walletAddress with
  | None => st
  | Some walletInfo =>
      let st1 :=
        if 300000 <? now - lastCheck walletInfo then
          setWallets (insert walletAddress (resetWindow walletInfo now)) st
        else st in
      performHealthCheck st1 walletAddress now (rpc walletAddress)
        (post walletAddress)
  end.

(** The wallets of the registry. *)
Definition registered (st : State) : list string :=
  (map_to_list (monitoredWallets st)).*1.

(** A sweep tick that runs to its end with no other handler in between:
    every turn of the loop then finds the registry keys as they were at the
    start, and the registry after the tick does not depend on the order
    of the turns. [Live.performPeriodicChecks] is the loop over the live
    map, in insertion order. *)
Definition performPeriodicChecks (st : State) (now : Z)
    (rpc : string -> Outcome (option AccountInfo))
    (post : string -> Outcome string) : State :=
  foldl (sweepWallet now rpc post) st (registered st).

End Engine.

(** ** Findings and their weights *)

(** The label of every finding the engine can push, with the weight added
    to [riskScore] next to the push. *)
Definition findingWeights : list (string * Z) :=
  [ ("Token authority transfer detected", 60);
    ("Interaction with unknown program", 30);
    ("Large token transfer detected", 40);
    ("Interaction with flagged program", 80);
    ("Token approval detected - potential drainer", 50);
    ("Transaction failed - possible attack attempt", 20);
    ("High number of account interactions", 25);
    ("Significant SOL balance decrease", 30);
    ("High transaction frequency detected", 35);
    ("Analysis error occurred", 10);
    ("Account closed or emptied", 70);
    ("Account drained of SOL", 80);
    ("Account no longer exists - possible drain", 90) ].

Definition findingWeight (label : string) : Z :=
  match List.find (fun p => String.eqb (fst p) label) findingWeights with
  | Some p => snd p
  | None => 0
  end.

Definition sumWeights (labels : list string) : Z :=
  foldr (fun label s => findingWeight label + s) 0 labels.

Definition isFindingLabel (label : string) : bool :=
  existsb (fun p => String.eqb (fst p) label) findingWeights.

(** The invariant of the two locals of a scorer. *)
Record scored (a : Acc) : Prop := {
  scored_sum : accScore a = sumWeights (accThreats a);
  scored_labels : Forall (fun l => isFindingLabel l = true) (accThreats a);
  scored_nonneg : 0 <= accScore a
}.

(** ** Observations the properties are stated with *)

(** The label of the finding pushed by the [catch] of [analyzeTransaction],
    and the evaluations that do not hold it. *)
Definition errorLabel : string := "Analysis error occurred".

Definition clean (a : Acc) : Prop := errorLabel ∉ accThreats a.

(** The alert messages of the sink for one deduplication key: wallet
    address and triggering signature. *)
Definition isAlertFor (w : string) (sig : option string) (d : Delivery) : bool :=
  match d with
  | AlertMessage _ w' t =>
      bool_decide (w' = w) && bool_decide (threatSignature t = sig)
  | CriticalMessage _ => false
  end.

Definition alertCount (w : string) (sig : option string) (out : list Delivery) : nat :=
  length (List.filter (isAlertFor w sig) out).

(** The threat a log event hands to the wallet's callback, with the user
    the callback was registered for. *)
Definition forwarded (st : State) (w : string) (lg : Logs) (now : Z)
    (fetch : Outcome (option Transaction)) : option (Z * Threat) :=
  match monitoredWallets st !! w, fetch with
  | Some walletInfo, Returned transaction =>
      match analyzeTransaction (Some (touch walletInfo now)) now transaction lg,
            threatCallbacks st !! w with
      | Some t, Some uid => Some (uid, t)
      | _, _ => None
      end
  | _, _ => None
  end.

(** The registry entry of a wallet after one sweep tick. *)
Definition sweptInfo (now : Z) (rpc : Outcome (option AccountInfo))
    (walletInfo : WalletInfo) : WalletInfo :=
  let w1 := if 300000 <? now - lastCheck walletInfo
            then resetWindow walletInfo now else walletInfo in
  match rpc with
  | Threw => w1
  | Returned accountInfo => setHadAccount w1 (bool_decide (is_Some accountInfo))
  end.

(** The handlers of the engine; [applyOp] runs one from its call to its
    end. [Live.Call] adds the sweep tick that is interrupted. *)
Inductive Op :=
| OpStart (w : string) (uid cb now : Z) (env : StartEnv)
| OpStop (w : string) (env : StopEnv)
| OpAccountChange (w : string) (accountInfo : option AccountInfo) (now : Z)
    (post : Outcome string)
| OpLogs (w : string) (lg : Logs) (now : Z)
    (fetch : Outcome (option Transaction)) (post : Outcome string)
| OpSweep (now : Z) (rpc : string -> Outcome (option AccountInfo))
    (post : string -> Outcome string).

Definition applyOp (JSON_parse : string -> option AIAnalysis)
    (st : State) (op : Op) : State :=
  match op with
  | OpStart w uid cb now env => fst (startMonitoring st w uid cb now env)
  | OpStop w env => stopMonitoring st w env
  | OpAccountChange w accountInfo now post =>
      handleAccountChange JSON_parse st w accountInfo now post
  | OpLogs w lg now fetch post =>
      handleTransactionLogs JSON_parse st w lg now fetch post
  | OpSweep now rpc post => performPeriodicChecks JSON_parse st now rpc post
  end.

Definition run (JSON_parse : string -> option AIAnalysis)
    (st : State) (ops : list Op) : State :=
  foldl (applyOp JSON_parse) st ops.

(** The registry and the callback table hold the same addresses. *)
Definition tablesAgree (st : State) : Prop :=
  dom (monitoredWallets st) = dom (threatCallbacks st).

(** ** The registry as a live JS Map *)

Module Live.

(** A JS [Map] keeps its entries in a list of slots, in insertion order.
    [delete] empties the slot of its key; [set] writes in place when the
    key has a slot and appends a slot when it has none; a [for ... of] loop
    holds a position in the list and reads each slot as it is when the loop
    reaches it. [slots] is that list for [monitoredWallets], [None] being
    an emptied slot; the values are those of the registry of [state]. *)
Record Engine := { state : State; slots : list (option string) }.

Definition initial (key : option string) : Engine :=
  {| state := initialState key; slots := [] |}.

Definition mapSet (w : string) (l : list (option string)) : list (option string) :=
  if bool_decide (Some w ∈ l) then l else l ++ [Some w].

Definition mapDelete (w : string) (l : list (option string)) : list (option string) :=
  (fun slot => if bool_decide (slot = Some w) then None else slot) <$> l.

(** The slots after a step that has set or deleted the entry of [w] and of
    no other wallet, and has left the registry [st']. *)
Definition follow (l : list (option string)) (st' : State) (w : string)
    : list (option string) :=
  if bool_decide (is_Some (monitoredWallets st' !! w)) then mapSet w l
  else mapDelete w l.

(** The wallet whose registry entry a handler sets or deletes. *)
Definition touched (op : Op) : option string :=
  match op with
  | OpStart w _ _ _ _ | OpStop w _ | OpAccountChange w _ _ _
  | OpLogs w _ _ _ _ => Some w
  | OpSweep _ _ _ => None
  end.

Section Sweep.

Variable JSON_parse : string -> option AIAnalysis.

Definition stopMonitoring (l : Engine) (w : string) (env : StopEnv) : Engine :=
  let st' := stopMonitoring (state l) w env in
  {| state := st'; slots := follow (slots l) st' w |}.

(** [performHealthCheck] with its [await]: [during] is the
    [stopMonitoring] call for the same wallet, if any, that ends while
    [getAccountInfo] is pending. The entry read before the [await] is the
    one written back after it. *)
Definition performHealthCheck (l : Engine) (w : string) (now : Z)
    (rpc : Outcome (option AccountInfo)) (post : Outcome string)
    (during : option StopEnv) : Engine :=
  match monitoredWallets (state l) !! w with
  | None => l
  | Some walletInfo =>
      let l1 := match during with
                | Some env => stopMonitoring l w env
                | None => l
                end in
      tryCatch
        (match rpc with
         | Threw => Threw
         | Returned accountInfo =>
             let st' := healthCheckResume JSON_parse (state l1) w walletInfo
                          accountInfo now post in
             Returned {| state := st'; slots := follow (slots l1) st' w |}
         end)
        l1
  end.

(** One turn of the loop, for the key [w] of the slot under the loop's
    position. *)
Definition visit (now : Z) (rpc : string -> Outcome (option AccountInfo))
    (post : string -> Outcome string) (l : Engine) (w : string)
    (during : option StopEnv) : Engine :=
  match monitoredWallets (state l) !! w with
  | None => l
  | Some walletInfo =>
      let l1 :=
        if 300000 <? now - lastCheck walletInfo then
          let st' := setWallets (insert w (resetWindow walletInfo now)) (state l) in
          {| state := st'; slots := follow (slots l) st' w |}
        else l in
      performHealthCheck l1 w now (rpc w) (post w) during
  end.

(** The loop from position [cursor] on. [sched] holds, visit by visit,
    what ends during the visit's [await]; visits past its end are not
    interrupted. [visited] collects the keys the loop body ran for. The
    result is [None] when [fuel] turns do not reach the end of the slots. *)
Fixpoint sweepFrom (fuel : nat) (now : Z)
    (rpc : string -> Outcome (option AccountInfo))
    (post : string -> Outcome string) (sched : list (option StopEnv))
    (l : Engine) (cursor : nat) (visited : list string)
    : option (Engine * list string) :=
  match fuel with
  | O => None
  | S fuel' =>
      match slots l !! cursor with
      | None => Some (l, visited)
      | Some None => sweepFrom fuel' now rpc post sched l (S cursor) visited
      | Some (Some w) =>
          sweepFrom fuel' now rpc post (tl sched)
            (visit now rpc post l w (default None (head sched)))
            (S cursor) (visited ++ [w])
      end
  end.

(** [performPeriodicChecks]: the engine after the tick and the wallets the
    tick visited, in order. Every turn moves one slot on and only an
    interrupted visit can add a slot, so the turns given suffice. *)
Definition performPeriodicChecks (now : Z)
    (rpc : string -> Outcome (option AccountInfo))
    (post : string -> Outcome string) (sched : list (option StopEnv))
    (l : Engine) : option (Engine * list string) :=
  sweepFrom (S (length (slots l) + length sched)) now rpc post sched l 0 [].

(** What the engine receives: a handler that runs to its end (a sweep tick
    among them, then without interruption), or a sweep tick with what ends
    during its visits. *)
Inductive Call :=
| Handler (op : Op)
| Tick (now : Z) (rpc : string -> Outcome (option AccountInfo))
    (post : string -> Outcome string) (sched : list (option StopEnv)).

Definition tick (now : Z) (rpc : string -> Outcome (option AccountInfo))
    (post : string -> Outcome string) (sched : list (option StopEnv))
    (l : Engine) : Engine :=
  match performPeriodicChecks now rpc post sched l with
  | Some (l', _) => l'
  | None => l
  end.

Definition apply (l : Engine) (c : Call) : Engine :=
  match c with
  | Handler (OpSweep now rpc post) => tick now rpc post [] l
  | Handler op =>
      let st' := applyOp JSON_parse (state l) op in
      {| state := st';
         slots := match touched op with
                  | Some w => follow (slots l) st' w
                  | None => slots l
                  end |}
  | Tick now rpc post sched => tick now rpc post sched l
  end.

Definition run (l : Engine) (calls : list Call) : Engine :=
  foldl apply l calls.

End Sweep.

(** The keys of the slots that are not emptied. *)
Definition keys (l : list (option string)) : list string := omap id l.

(** The slots hold the wallets of the registry, each once. *)
Definition tracks (l : Engine) : Prop :=
  NoDup (keys (slots l)) /\
  forall w, Some w ∈ slots l <-> is_Some (monitoredWallets (state l) !! w).


End Live.


(** ** Concrete inputs *)

(** A [JSON.parse] for the answers used below: the empty object parses,
    every other text used below is not JSON. *)
Definition parseEmptyObject (s : string) : option AIAnalysis :=
  if String.eqb s "{}"
  then Some {| threatLevel := None; confidence := None; aiThreats := None;
               aiRecommendation := None; explanation := None |}
  else None.

Definition wallet1 : string := "4Nd1mBQtrMJVYVfKf2PJy9NZUZdTAsp7D4xWLs4gDB4T".

(** KELVIN SIGN (U+212A) and LINE SEPARATOR (U+2028), in UTF-8. *)
Definition kelvinSign : string :=
  String "226" (String "132" (String "170" EmptyString)).

Definition lineSeparator : string :=
  String "226" (String "128" (String "168" EmptyString)).

Definition startOk : StartEnv :=
  {| keyValid := true; onAccountChange := Returned 1; onLogs := Returned 2 |}.

Definition stopOk : StopEnv :=
  {| removeAccountChangeListener := Returned tt;
     removeOnLogsListener := Returned tt |}.

(** [wallet1] watched for user 7, no AI key configured. *)
Definition watching1 : State :=
  fst (startMonitoring (initialState None) wallet1 7 7 0 startOk).

Definition plainTx : Transaction := {| meta := None; accountKeys := [] |}.

Definition drainerLogs : Logs :=
  {| signature := Some "sig1";
     logs := Some [LogStr "Program invoke: SomeDrainerProgram";
                   LogStr "Instruction: approve allowance 500000"] |}.

(** A log line that spells 'invoke' with the Kelvin sign. *)
Definition kelvinLogs : Logs :=
  {| signature := Some "sig6";
     logs := Some [LogStr ("Program Invo" +:+ kelvinSign
                             +:+ "e: transfer 2000000")] |}.

Definition quietLogs : Logs :=
  {| signature := Some "sig2"; logs := Some [LogStr "Program log: ok"] |}.

Definition approveLogs : Logs :=
  {| signature := Some "sig3"; logs := Some [LogStr "Instruction: approve"] |}.

(** An AI answer with low confidence whose labels name two patterns of the
    token-drainer entry of the threat database. *)
Definition lowConfidenceAnswer : AIAnalysis :=
  {| threatLevel := Some "LOW"; confidence := Some 50;
     aiThreats := Some ["approve"; "transfer_all"];
     aiRecommendation := None; explanation := None |}.

(** ** Labels and the threat database *)

Definition databasePatterns : list string :=
  flat_map (fun entry => fst (fst (snd entry))) threatDatabase.

(** A label in which no pattern of the threat database occurs. *)
Definition quiet (t : string) : bool :=
  forallb (fun pattern => negb (includes (toLowerCase t) (toLowerCase pattern)))
          databasePatterns.

(** * The rest of the engine *)

(** ** The rules of the log scan, by name *)

Definition authorityRule (log : string) : bool :=
  includes (toLowerCase log) "transfer" && includes (toLowerCase log) "authority".

Definition unknownProgramRule (log : string) : bool :=
  includes (toLowerCase log) "invoke" && negb (isKnownProgram log).

Definition largeTransferRule (log : string) : bool :=
  includes (toLowerCase log) "transfer" && detectLargeTransfer log.

Definition approvalRule (log : string) : bool :=
  includes (toLowerCase log) "approve" || includes (toLowerCase log) "allowance".

(** [forEach] over log entries that are all strings. *)
Definition scanLines (ls : list string) (a : Acc) : Acc :=
  foldl (fun a s => scanLine s a) a ls.

(** The indices of [postBalances] at which the balance fell by more than
    1000000 lamports, a missing [preBalances] entry counting as 0. *)
Fixpoint bigDrops (post pre : list Z) : nat :=
  match post with
  | [] => 0%nat
  | p :: post' =>
      let fell := if p - hd 0 pre <? -1000000 then 1%nat else 0%nat in
      (fell + bigDrops post' (tl pre))%nat
  end.

(** [b] holds every finding of [a] and a score that is not lower. *)
Definition grows (a b : Acc) : Prop :=
  accScore a <= accScore b /\ forall l, l ∈ accThreats a -> l ∈ accThreats b.

(** ** Log events in a row *)

(** A log event of a wallet, with what the collaborators of its handler
    did. *)
Record LogEvent := {
  evLogs : Logs;
  evNow : Z;
  evFetch : Outcome (option Transaction);
  evPost : Outcome string
}.

(** [handleTransactionLogs] for the events of one wallet, in order. *)
Definition handleLogEvents (JSON_parse : string -> option AIAnalysis)
    (st : State) (walletAddress : string) (events : list LogEvent) : State :=
  foldl (fun st e =>
           handleTransactionLogs JSON_parse st walletAddress
             (evLogs e) (evNow e) (evFetch e) (evPost e))
        st events.

(** ** Monitoring statistics *)

(** [s.slice(0, n)]. *)
Fixpoint sliceTo (n : nat) (s : string) : string :=
  match n, s with
  | S n', String c s' => String c (sliceTo n' s')
  | _, _ => EmptyString
  end.

(** An entry of [getMonitoringStats().wallets]; [wsLastActivity] is the
    instant that is printed, or [None] where the code prints 'None'. *)
Record WalletStat := {
  wsAddress : string;
  wsUserId : Z;
  wsTransactionCount : Z;
  wsLastActivity : option Z
}.

Definition walletStat (address : string) (info : WalletInfo) : WalletStat :=
  {| wsAddress := sliceTo 8 address +:+ "...";
     wsUserId := userId info;
     wsTransactionCount := transactionCount info;
     wsLastActivity := match lastActivity info with
                       | Some t => if t =? 0 then None else Some t
                       | None => None
                       end |}.

Record MonitoringStats := {
  totalWallets : nat;
  wallets : list WalletStat
}.

(** [wallets] is listed in key order here; the [Map] lists its entries in
    insertion order, which [Live.slots] keeps. *)
Definition getMonitoringStats (st : State) : MonitoringStats :=
  {| totalWallets := size (monitoredWallets st);
     wallets := (fun entry => walletStat (fst entry) (snd entry))
                  <$> map_to_list (monitoredWallets st) |}.

(** A registry entry as [startMonitoring] leaves it at time 0. *)
Definition entry1 : WalletInfo :=
  {| userId := 7; lastCheck := 0; transactionCount := 0;
     subscriptionId := Some 1; logsSubscriptionId := Some 2;
     lastActivity := None; hadAccount := None |}.

(** ** The rest of the threat analyzer *)

(** The result of [getWalletRiskProfile]; [rpLastActivity] is the instant
    that is printed. *)
Record RiskProfile := {
  rpTotalTransactions : Z;
  rpAccountAge : Z;
  rpPatterns : list string;
  rpRiskScore : Z;
  rpLastActivity : Z
}.

Definition getWalletRiskProfile (profiles : gmap string Profile)
    (walletAddress : string) (now : Z) : option RiskProfile :=
  match profiles !! walletAddress with
  | None => None
  | Some profile =>
      Some {| rpTotalTransactions := totalTransactions profile;
              rpAccountAge := (now - firstSeen profile) / (1000 * 60 * 60 * 24);
              rpPatterns := patterns profile;
              rpRiskScore := profileRiskScore profile;
              rpLastActivity := profileLastActivity profile |}
  end.

(** The tags a profile can hold in a run of the engine: the analyzer reads
    the labels of the basic threat, in which neither 'approve' nor
    'invoke' occurs. *)
Definition profileTags : list string := ["transfer"; "authority_change"].

Definition wellFormedProfile (p : Profile) : Prop :=
  profileRiskScore p = 0 /\ 1 <= totalTransactions p /\
  NoDup (patterns p) /\ forall x, x ∈ patterns p -> x ∈ profileTags.

Definition profilesWellFormed (m : gmap string Profile) : Prop :=
  forall w p, m !! w = Some p -> wellFormedProfile p.

(** Every profile of [m] is still in [m'], first seen at the same instant,
    with a transaction count that is not lower and every tag it had. *)
Definition profilesExtend (m m' : gmap string Profile) : Prop :=
  forall w p, m !! w = Some p ->
    exists p', m' !! w = Some p' /\ firstSeen p' = firstSeen p /\
               totalTransactions p <= totalTransactions p' /\
               forall x, x ∈ patterns p -> x ∈ patterns p'.

(** What one call of the engine does to the profile table. *)
Definition profileStep (m m' : gmap string Profile) : Prop :=
  profilesWellFormed m -> profilesWellFormed m' /\ profilesExtend m m'.

Module ThreatActions.

Record EmergencyAction := {
  priority : string;
  action : string;
  description : string;
  command : string
}.

Definition revokeApprovals : EmergencyAction :=
  {| priority := "IMMEDIATE"; action := "REVOKE_APPROVALS";
     description := "Revoke all token approvals immediately";
     command := "/emergency revoke" |}.

Definition moveFunds : EmergencyAction :=
  {| priority := "IMMEDIATE"; action := "MOVE_FUNDS";
     description := "Move funds to a secure wallet";
     command := "/emergency move" |}.

Definition pauseActivity : EmergencyAction :=
  {| priority := "HIGH"; action := "PAUSE_ACTIVITY";
     description := "Stop all DeFi interactions";
     command := "/emergency pause" |}.

Definition monitorClosely : EmergencyAction :=
  {| priority := "MEDIUM"; action := "MONITOR_CLOSELY";
     description := "Increase monitoring sensitivity";
     command := "/settings monitor-high" |}.

Definition generateEmergencyActions (threat : Threat) : list EmergencyAction :=
  (if 80 <=? riskScore threat then [revokeApprovals; moveFunds] else [])
  ++ (if 60 <=? riskScore threat then [pauseActivity] else [])
  ++ [monitorClosely].

End ThreatActions.

(** The character [c] occurs in [s]. *)
Fixpoint occurs (c : ascii) (s : string) : bool :=
  match s with
  | EmptyString => false
  | String d s' => Ascii.eqb d c || occurs c s'
  end.

(** An answer of the AI service that holds one JSON object, and a
    [JSON.parse] that knows that object. *)
Definition quote : string := String "034" EmptyString.

Definition criticalObject : string :=
  "{" +:+ quote +:+ "threatLevel" +:+ quote +:+ ":" +:+ quote +:+ "CRITICAL"
      +:+ quote +:+ "," +:+ quote +:+ "confidence" +:+ quote +:+ ":95}".

Definition criticalAnswer : AIAnalysis :=
  {| threatLevel := Some "CRITICAL"; confidence := Some 95; aiThreats := None;
     aiRecommendation := None; explanation := None |}.

Definition parseCriticalObject (s : string) : option AIAnalysis :=
  if String.eqb s criticalObject then Some criticalAnswer else None.

(** [wallet1] watched for user 7, with an AI key configured. *)
Definition watching1WithKey : State :=
  fst (startMonitoring (initialState (Some "sk-live")) wallet1 7 7 0 startOk).

Definition authorityLogs : Logs :=
  {| signature := Some "sig5";
     logs := Some [LogStr "Instruction: Transfer authority to new owner"] |}.

(** ** Emergency actions (src/services/emergencyActions.js) *)

Module Emergency.

(** What a call that may throw did, with the message of the error. *)
Inductive Try (A : Type) := Fails (message : string) | Gives (a : A).
Arguments Fails {A} message.
Arguments Gives {A} a.

(** A token amount of the RPC's [jsonParsed] answers: the object
    [{amount, decimals, uiAmount, uiAmountString}]. [amount] is a decimal
    string, here the integer it spells. *)
Record TokenAmount := { tokenAmountAmount : Z; decimals : Z }.

Record Finding := {
  severity : string;
  issue : string;
  description : string;
  mint : option string;
  delegate : option string;
  amount : option TokenAmount
}.

(** [err] is [sig.err !== null]. *)
Record SignatureInfo := { err : bool }.

(** [account.data.parsed.info] of a token account. The RPC sends
    [delegate] and [delegatedAmount] for an account that has a delegate,
    and [delegatedAmount] is then a token amount, as [tokenAmount] is. *)
Record TokenInfo := {
  tokenMint : string;
  tokenDelegate : option string;
  delegatedAmount : option TokenAmount;
  tokenAmount : TokenAmount
}.

Record TokenAccount := { pubkey : string; info : TokenInfo }.

Module Plan.

Record Action := {
  priority : Z;
  action : string;
  title : string;
  description : string;
  command : string;
  estimated_time : string;
  risk : string
}.

Definition immediateRevoke : Action :=
  {| priority := 1; action := "IMMEDIATE_REVOKE";
     title := "Revoke All Token Approvals";
     description :=
       "Immediately revoke all token approvals to stop potential draining";
     command := "/emergency revoke"; estimated_time := "2-5 minutes";
     risk := "Prevents further token theft" |}.

Definition moveCriticalAssets : Action :=
  {| priority := 2; action := "MOVE_CRITICAL_ASSETS";
     title := "Move High-Value Assets";
     description := "Transfer valuable tokens and SOL to a secure wallet";
     command := "/emergency move"; estimated_time := "5-10 minutes";
     risk := "Saves remaining funds" |}.

Definition pauseAllActivity : Action :=
  {| priority := 3; action := "PAUSE_ALL_ACTIVITY";
     title := "Stop All DeFi Interactions";
     description := "Avoid any new transactions until threats are resolved";
     command := "/emergency pause"; estimated_time := "Immediate";
     risk := "Prevents additional exposure" |}.

Definition contactSupport : Action :=
  {| priority := 4; action := "CONTACT_SUPPORT";
     title := "Contact Security Support";
     description := "Get expert help to assess and resolve the situation";
     command := "/emergency contact"; estimated_time := "1-2 minutes";
     risk := "Expert guidance available" |}.

End Plan.

Definition hasSeverity (s : string) (f : Finding) : bool := String.eqb (severity f) s.

Definition generateEmergencyActionPlan (findings : list Finding) : list Plan.Action :=
  let critical := List.filter (hasSeverity "CRITICAL") findings in
  let high := List.filter (hasSeverity "HIGH") findings in
  (if (0 <? length critical)%nat
   then [Plan.immediateRevoke; Plan.moveCriticalAssets] else [])
  ++ (if (0 <? length high)%nat || (0 <? length critical)%nat
      then [Plan.pauseAllActivity] else [])
  ++ [Plan.contactSupport].

Record Analysis := {
  timestamp : Z;
  walletAddress : string;
  status : string;
  error : option string;
  findings : list Finding;
  recommendations : list string;
  emergencyActions : option (list Plan.Action)
}.

(** The [analysis] object of [performEmergencyAnalysis] while it is built:
    its two lists. *)
Record Notes := { noteFindings : list Finding; noteRecommendations : list string }.

Definition addFinding (f : Finding) (n : Notes) : Notes :=
  {| noteFindings := noteFindings n ++ [f];
     noteRecommendations := noteRecommendations n |}.

Definition addRecommendation (r : string) (n : Notes) : Notes :=
  {| noteFindings := noteFindings n;
     noteRecommendations := noteRecommendations n ++ [r] |}.

Definition plainFinding (sev iss descr : string) : Finding :=
  {| severity := sev; issue := iss; description := descr;
     mint := None; delegate := None; amount := None |}.

Definition checkAccount (accountInfo : option AccountInfo) (n : Notes) : Notes :=
  match accountInfo with
  | None =>
      addFinding (plainFinding "CRITICAL" "Account not found or empty"
                    "Wallet may have been drained") n
  | Some a =>
      addFinding (plainFinding "INFO" "Account active"
                    ("Account has " +:+ pretty (lamports a) +:+ " lamports")) n
  end.

Definition checkSignatures (signatures : list SignatureInfo) (n : Notes) : Notes :=
  let n :=
    if (10 <? length signatures)%nat then
      addRecommendation "Monitor all recent transactions carefully"
        (addFinding (plainFinding "HIGH" "High transaction volume"
                       (pretty (length signatures)
                          +:+ " transactions in recent history")) n)
    else n in
  let failedTxs := List.filter err signatures in
  if (0 <? length failedTxs)%nat then
    addRecommendation "Review failed transactions for attack attempts"
      (addFinding (plainFinding "WARNING" "Failed transactions detected"
                     (pretty (length failedTxs)
                        +:+ " failed transactions found")) n)
  else n.

(** A JS number that is an integer, or NaN. *)
Inductive JsNumber := NaN | Num (n : Z).

(** [x > n] and [x === n]: both are false for NaN. *)
Definition above (x : JsNumber) (n : Z) : bool :=
  match x with
  | Num z => n <? z
  | NaN => false
  end.

Definition equals (x : JsNumber) (n : Z) : bool :=
  match x with
  | Num z => z =? n
  | NaN => false
  end.

(** The text of a plain object, which is what a template and [parseFloat]
    make of it. *)
Definition objectText : string := "[object Object]".

(** [parseFloat(v)] for a token-amount object [v]: the text of [v] starts
    with no numeral, so the result is NaN. *)
Definition parseFloatObject (v : TokenAmount) : JsNumber := NaN.

(** [parseFloat(s)] for the decimal string [s] of an amount. *)
Definition parseFloatAmount (v : TokenAmount) : JsNumber := Num (tokenAmountAmount v).

(** [tokenInfo.delegatedAmount && parseFloat(tokenInfo.delegatedAmount) > 0]:
    an object is truthy, a missing field is not. *)
Definition isDelegated (t : TokenInfo) : bool :=
  match delegatedAmount t with
  | Some v => above (parseFloatObject v) 0
  | None => false
  end.

Definition isEmptied (t : TokenInfo) : bool :=
  equals (parseFloatAmount (tokenAmount t)) 0 && (0 <? decimals (tokenAmount t)).

(** A template prints a missing value as 'undefined'. *)
Definition shown (s : option string) : string := default "undefined" s.

Definition shownAmount (v : option TokenAmount) : string :=
  match v with
  | Some _ => objectText
  | None => "undefined"
  end.

(** One turn of the loop over [tokenAccounts.value]. *)
Definition checkToken (n : Notes) (account : TokenAccount) : Notes :=
  let tokenInfo := info account in
  let n :=
    if isDelegated tokenInfo then
      addRecommendation
        ("URGENT: Revoke approval for token "
           +:+ sliceTo 8 (tokenMint tokenInfo) +:+ "...")
        (addFinding
           {| severity := "CRITICAL"; issue := "Active token delegation found";
              description :=
                "Token " +:+ tokenMint tokenInfo +:+ " has "
                  +:+ shownAmount (delegatedAmount tokenInfo)
                  +:+ " tokens approved to " +:+ shown (tokenDelegate tokenInfo);
              mint := Some (tokenMint tokenInfo);
              delegate := tokenDelegate tokenInfo;
              amount := delegatedAmount tokenInfo |} n)
    else n in
  if isEmptied tokenInfo then
    addFinding
      {| severity := "WARNING"; issue := "Empty token account";
         description := "Token account for " +:+ tokenMint tokenInfo +:+ " is empty";
         mint := Some (tokenMint tokenInfo); delegate := None; amount := None |} n
  else n.

(** What the collaborators of an emergency call did, in the order of the
    calls: [new PublicKey], [getAccountInfo], [getSignaturesForAddress],
    [getParsedTokenAccountsByOwner]. *)
Record Env := {
  publicKey : Try unit;
  getAccountInfo : Try (option AccountInfo);
  getSignaturesForAddress : Try (list SignatureInfo);
  getParsedTokenAccountsByOwner : Try (list TokenAccount)
}.

Definition bind {A B : Type} (x : Try A) (k : A -> Try B) : Try B :=
  match x with
  | Fails m => Fails m
  | Gives a => k a
  end.

(** The [try] block of [performEmergencyAnalysis]. *)
Definition analyse (address : string) (now : Z) (env : Env) : Try Analysis :=
  bind (publicKey env) (fun _ =>
  bind (getAccountInfo env) (fun accountInfo =>
  bind (getSignaturesForAddress env) (fun signatures =>
  bind (getParsedTokenAccountsByOwner env) (fun tokenAccounts =>
    let n := {| noteFindings := []; noteRecommendations := [] |} in
    let n := checkAccount accountInfo n in
    let n := checkSignatures signatures n in
    let n := foldl checkToken n tokenAccounts in
    Gives {| timestamp := now; walletAddress := address; status := "COMPLETE";
             error := None; findings := noteFindings n;
             recommendations := noteRecommendations n;
             emergencyActions :=
               Some (generateEmergencyActionPlan (noteFindings n)) |})))).

(** [performEmergencyAnalysis]: the new [emergencyHistory] and the result. *)
Definition performEmergencyAnalysis (history : gmap string Analysis)
    (address : string) (now : Z) (env : Env) : gmap string Analysis * Analysis :=
  match analyse address now env with
  | Gives analysis => (<[ address := analysis ]> history, analysis)
  | Fails message =>
      (history,
       {| timestamp := now; walletAddress := address; status := "ERROR";
          error := Some message; findings := [];
          recommendations := ["Contact support immediately"];
          emergencyActions := None |})
  end.

Definition getEmergencyHistory (history : gmap string Analysis)
    (address : string) : option Analysis :=
  history !! address.

Record RevokeInstruction := {
  type : string;
  riTokenMint : string;
  riTokenAccount : string;
  riDelegate : option string;
  riAmount : option TokenAmount;
  instructions : string
}.

Definition revokeInstruction (account : TokenAccount) : RevokeInstruction :=
  let tokenInfo := info account in
  {| type := "REVOKE_APPROVAL";
     riTokenMint := tokenMint tokenInfo;
     riTokenAccount := pubkey account;
     riDelegate := tokenDelegate tokenInfo;
     riAmount := delegatedAmount tokenInfo;
     instructions :=
       "Revoke approval for " +:+ sliceTo 8 (tokenMint tokenInfo) +:+ "... ("
         +:+ shownAmount (delegatedAmount tokenInfo) +:+ " tokens)" |}.

(** The numbered lines of [generateManualRevokeSteps], from [index] on. *)
Fixpoint numberedSteps (index : nat) (l : list RevokeInstruction) : list string :=
  match l with
  | [] => []
  | inst :: l' =>
      ("   " +:+ pretty (index + 1)%nat +:+ ". " +:+ sliceTo 8 (riTokenMint inst)
         +:+ "... (" +:+ shownAmount (riAmount inst) +:+ " tokens)")
        :: numberedSteps (S index) l'
  end.

Definition generateManualRevokeSteps (l : list RevokeInstruction) : list string :=
  [ "🔗 Go to revoke.cash or similar revoke tool";
    "🔌 Connect your wallet";
    "🔍 Review all active approvals";
    "❌ Revoke ALL approvals (especially these critical ones):" ]
  ++ numberedSteps 0 l
  ++ [ "✅ Confirm all revoke transactions";
       "🔄 Refresh and verify no approvals remain" ].

Record RevokeTransaction := {
  method : string;
  reason : string;
  recommendedTools : list string;
  warning : string
}.

Definition generateRevokeTransaction : RevokeTransaction :=
  {| method := "MANUAL_RECOMMENDED";
     reason := "Manual revocation via trusted tools is safer";
     recommendedTools := [ "https://revoke.cash"; "https://app.phantom.app/revoke";
                           "Wallet built-in revoke features" ];
     warning := "Never sign transactions from untrusted sources" |}.

(** The guide of [generateRevokeInstructions], or its error object.
    [automatedOption] is the promise of [generateRevokeTransaction], here
    its value. *)
Inductive RevokeGuide :=
| Guide (address : string) (time : Z) (totalApprovals : nat)
    (guideInstructions : list RevokeInstruction) (manualSteps : list string)
    (automatedOption : option RevokeTransaction)
| GuideError (error message : string).

Definition generateRevokeInstructions (address : string) (now : Z) (env : Env)
    : RevokeGuide :=
  match bind (publicKey env) (fun _ => getParsedTokenAccountsByOwner env) with
  | Fails _ =>
      GuideError "Failed to generate revoke instructions"
        "Please use a manual revoke tool like revoke.cash"
  | Gives tokenAccounts =>
      let l := revokeInstruction
                 <$> List.filter (fun a => isDelegated (info a)) tokenAccounts in
      Guide address now (length l) l (generateManualRevokeSteps l)
        (if (0 <? length l)%nat then Some generateRevokeTransaction else None)
  end.

End Emergency.

(** The findings of an analysis that report a token delegation. *)
Definition delegationFindings (l : list Emergency.Finding) : nat :=
  length (List.filter
            (fun f => String.eqb (Emergency.issue f) "Active token delegation found")
            l).

(** Collaborators of an emergency call that all answer: no account, no
    signatures, one token account with 500 of its 900 tokens delegated. *)
Definition delegatedAccount : Emergency.TokenAccount :=
  {| Emergency.pubkey := "TokenAccount1111111111111111111111111111111";
     Emergency.info :=
       {| Emergency.tokenMint := "So11111111111111111111111111111111111111112";
          Emergency.tokenDelegate := Some "DrainerDelegate11111111111111111111111111111";
          Emergency.delegatedAmount :=
            Some {| Emergency.tokenAmountAmount := 500; Emergency.decimals := 6 |};
          Emergency.tokenAmount :=
            {| Emergency.tokenAmountAmount := 900; Emergency.decimals := 6 |} |} |}.

Definition emergencyEnv1 : Emergency.Env :=
  {| Emergency.publicKey := Emergency.Gives tt;
     Emergency.getAccountInfo := Emergency.Gives None;
     Emergency.getSignaturesForAddress := Emergency.Gives [];
     Emergency.getParsedTokenAccountsByOwner := Emergency.Gives [delegatedAccount] |}.

(** ** The stored alerts *)

Definition alertIdOf (walletAddress : string) (now : Z) : string :=
  walletAddress +:+ "-" +:+ pretty now.

(** [getRecentAlerts]: the stored alerts of the wallet that are less than
    a day old, counted. *)
Definition recentAlerts (st : State) (walletAddress : string) (now : Z) : nat :=
  length
    (List.filter
       (fun alert =>
          String.eqb (saWalletAddress alert) walletAddress
          && (now - timestamp (saThreat alert) <? 24 * 60 * 60 * 1000))
       (snd <$> map_to_list (threatAlerts st))).

Definition getRecentAlerts (st : State) (walletAddress : string) (now : Z) : string :=
  let n := recentAlerts st walletAddress now in
  if (0 <? n)%nat then "🔴 " +:+ pretty n else "🟢 0".

(** ** The wallet commands of the bot *)

Module Bot.

Record UserWallet := {
  address : string;
  isActive : bool;
  addedAt : Z;
  healthScore : Z;
  realTimeMonitoring : bool
}.

(** The messages the wallet commands answer with, by their headline. *)
Inductive Reply :=
| InvalidWalletAddress
| WalletAlreadyMonitored (walletAddress : string)
| AddingWallet
| WalletSuccessfullyAdded (walletAddress : string)
| WalletAddedLimitedMode (walletAddress : string)
| InvalidSelection (count : nat)
| WalletRemovedSuccessfully (walletAddress : string)
| MonitoringStarted (started : nat)
| MonitoringStopped (stopped : nat).

(** The engine, the [userWallets] table and the answers sent, each with the
    user it went to. A user is the number the code carries as
    [ctx.from.id.toString()]. *)
Record BotState := {
  engine : State;
  userWallets : gmap Z (list UserWallet);
  replies : list (Z * Reply)
}.

Definition initialBot (key : option string) : BotState :=
  {| engine := initialState key; userWallets := ∅; replies := [] |}.

Definition reply (user : Z) (r : Reply) (b : BotState) : BotState :=
  {| engine := engine b; userWallets := userWallets b;
     replies := (replies b ++ [(user, r)])%list |}.

Definition listed (wallets : list UserWallet) (walletAddress : string) : bool :=
  existsb (fun w => String.eqb (address w) walletAddress) wallets.

(** [handleAddWallet]; [env] is what [new PublicKey] and the subscription
    calls do for this address. The initial analysis the handler schedules
    for three seconds later is not part of the call. *)
Definition handleAddWallet (b : BotState) (user : Z) (walletAddress : string)
    (now : Z) (env : StartEnv) : BotState :=
  if negb (keyValid env) then reply user InvalidWalletAddress b
  else
    let table := match userWallets b !! user with
                 | Some _ => userWallets b
                 | None => <[ user := [] ]> (userWallets b)
                 end in
    let wallets := default [] (table !! user) in
    if listed wallets walletAddress then
      reply user (WalletAlreadyMonitored walletAddress)
        {| engine := engine b; userWallets := table; replies := replies b |}
    else
      let newWallet := {| address := walletAddress; isActive := true;
                          addedAt := now; healthScore := 100;
                          realTimeMonitoring := true |} in
      let started := startMonitoring (engine b) walletAddress user user now env in
      reply user (if snd started then WalletSuccessfullyAdded walletAddress
                  else WalletAddedLimitedMode walletAddress)
        {| engine := fst started;
           userWallets := <[ user := (wallets ++ [newWallet])%list ]> table;
           replies := (replies b ++ [(user, AddingWallet)])%list |}.

(** [handleWalletRemovalNumber]; past the range check the index is that of
    a wallet of the list. *)
Definition handleWalletRemovalNumber (b : BotState) (user : Z) (number : Z)
    (senv : StopEnv) : BotState :=
  let wallets := default [] (userWallets b !! user) in
  if (number <? 1) || (Z.of_nat (length wallets) <? number)
  then reply user (InvalidSelection (length wallets)) b
  else
    match wallets !! Z.to_nat (number - 1) with
    | None => b
    | Some walletToRemove =>
        reply user (WalletRemovedSuccessfully (address walletToRemove))
          {| engine := stopMonitoring (engine b) (address walletToRemove) senv;
             userWallets :=
               <[ user := delete (Z.to_nat (number - 1)) wallets ]> (userWallets b);
             replies := replies b |}
    end.

Definition isMonitored (st : State) (walletAddress : string) : bool :=
  bool_decide (is_Some (monitoredWallets st !! walletAddress)).

(** The loop of the 'start' action: the engine and the [started] counter. *)
Definition startLoop (user now : Z) (env : string -> StartEnv)
    (acc : State * nat) (wallet : UserWallet) : State * nat :=
  if isMonitored (fst acc) (address wallet) then acc
  else
    let r := startMonitoring (fst acc) (address wallet) user user now
               (env (address wallet)) in
    (fst r, if snd r then S (snd acc) else snd acc).

(** The loop of the 'stop' action: the engine and the [stopped] counter. *)
Definition stopLoop (senv : string -> StopEnv)
    (acc : State * nat) (wallet : UserWallet) : State * nat :=
  if isMonitored (fst acc) (address wallet)
  then (stopMonitoring (fst acc) (address wallet) (senv (address wallet)),
        S (snd acc))
  else acc.

Inductive ControlAction := ActionStart | ActionStop | ActionOther.

(** [handleMonitorControl]; an action other than 'start' and 'stop' does
    nothing. *)
Definition handleMonitorControl (b : BotState) (user : Z) (action : ControlAction)
    (now : Z) (env : string -> StartEnv) (senv : string -> StopEnv) : BotState :=
  let wallets := default [] (userWallets b !! user) in
  match action with
  | ActionStart =>
      let r := foldl (startLoop user now env) (engine b, 0%nat) wallets in
      reply user (MonitoringStarted (snd r))
        {| engine := fst r; userWallets := userWallets b; replies := replies b |}
  | ActionStop =>
      let r := foldl (stopLoop senv) (engine b, 0%nat) wallets in
      reply user (MonitoringStopped (snd r))
        {| engine := fst r; userWallets := userWallets b; replies := replies b |}
  | ActionOther => b
  end.

(** The wallet commands a bot receives. *)
Inductive Command :=
| AddWallet (user : Z) (walletAddress : string) (now : Z) (env : StartEnv)
| RemoveWallet (user : Z) (number : Z) (senv : StopEnv)
| MonitorControl (user : Z) (action : ControlAction) (now : Z)
    (env : string -> StartEnv) (senv : string -> StopEnv).

Definition applyCommand (b : BotState) (c : Command) : BotState :=
  match c with
  | AddWallet user w now env => handleAddWallet b user w now env
  | RemoveWallet user number senv => handleWalletRemovalNumber b user number senv
  | MonitorControl user action now env senv =>
      handleMonitorControl b user action now env senv
  end.

Definition addresses (b : BotState) (user : Z) : list string :=
  address <$> default [] (userWallets b !! user).

End Bot.

(** Every user's wallet list names each address once. *)
Definition listsDistinct (b : Bot.BotState) : Prop :=
  forall u ws, Bot.userWallets b !! u = Some ws -> NoDup (Bot.address <$> ws).

(** A user who has added two wallets. *)
Definition wallet2 : string := "9xQeWvG816bUx9EPjHmaT23yvVM2ZWbrrpZb9PusVFin".

Definition botWithTwo : Bot.BotState :=
  foldl Bot.applyCommand (Bot.initialBot None)
    [Bot.AddWallet 7 wallet1 0 startOk; Bot.AddWallet 7 wallet2 1 startOk].

(** * Properties *)

(** ** Evaluation on concrete inputs *)

Example toLowerCase_ex : toLowerCase "Program Invoke [1]" = "program invoke [1]".
Proof. reflexivity. Qed.

Example toLowerCase_kelvin_ex :
  toLowerCase ("Invo" +:+ kelvinSign +:+ "e") = "invoke".
Proof. reflexivity. Qed.

Example matchTransferAmount_separator_ex :
  matchTransferAmount ("transfer " +:+ lineSeparator +:+ " 5000000") = None /\
  matchTransferAmount ("TRANSFER " +:+ kelvinSign +:+ " 5000000") = Some "5000000".
Proof. split; reflexivity. Qed.

(** The unknown-program rule and the large-transfer rule both fire on the
    line with the Kelvin sign: 30 + 40. *)
Example kelvin_line_is_scored :
  ((fun t => (riskScore t, type t))
     <$> analyzeTransaction None 0 (Some plainTx) kelvinLogs)
  = Some (70, CRITICAL).
Proof. reflexivity. Qed.

Example includes_ex :
  includes "token approval detected" "approve" = false /\
  includes "instruction: approve" "approve" = true.
Proof. split; reflexivity. Qed.

Example matchTransferAmount_ex :
  matchTransferAmount "Transfer of 2500000 lamports" = Some "2500000" /\
  matchTransferAmount "transfer pending" = None.
Proof. split; reflexivity. Qed.

Example matchBraces_ex :
  matchBraces "answer: {a: {1}} done" = Some "{a: {1}}" /\
  matchBraces "} no object {" = None.
Proof. split; reflexivity. Qed.

Example analyzeTransaction_ex :
  let lg := {| signature := Some "sig1";
               logs := Some [LogStr "Program invoke: SomeDrainerProgram";
                             LogStr "Instruction: approve allowance 500000"] |} in
  let tx := {| meta := None; accountKeys := [] |} in
  (riskScore <$> analyzeTransaction None 0 (Some tx) lg) = Some 160.
Proof. reflexivity. Qed.

(** ** The scoring invariant *)

Lemma sumWeights_app l1 l2 : sumWeights (l1 ++ l2) = sumWeights l1 + sumWeights l2.
Proof.
  induction l1 as [|x l1 IH]; simpl; [lia|].
  fold (sumWeights (l1 ++ l2)) (sumWeights l1). lia.
Qed.

Lemma scored_acc0 : scored acc0.
Proof. split; simpl; [reflexivity | constructor | lia]. Qed.

Lemma hit_scored label w a :
  findingWeight label = w -> isFindingLabel label = true -> 0 <= w ->
  scored a -> scored (hit label w a).
Proof.
  intros Hw Hl Hpos [Hs Hf Hn]. split; simpl.
  - rewrite sumWeights_app, Hs. simpl. rewrite Hw. lia.
  - apply Forall_app; split; [assumption | repeat constructor; assumption].
  - lia.
Qed.

Lemma hitIf_scored c label w a :
  findingWeight label = w -> isFindingLabel label = true -> 0 <= w ->
  scored a -> scored (hitIf c label w a).
Proof. intros; destruct c; simpl; [apply hit_scored|]; assumption. Qed.

Ltac scored_step :=
  first [ apply hitIf_scored; [reflexivity | reflexivity | lia | ]
        | apply hit_scored; [reflexivity | reflexivity | lia | ] ].

Lemma scanLine_scored s a : scored a -> scored (scanLine s a).
Proof. intros H. unfold scanLine. repeat scored_step. exact H. Qed.

Lemma scanLogs_scored ls :
  forall a, scored a ->
    match scanLogs ls a with Done b => scored b | Raised b => scored b end.
Proof.
  induction ls as [|[s|] ls IH]; intros a H; simpl; try exact H.
  apply IH, scanLine_scored, H.
Qed.

Lemma scanBalances_scored post :
  forall pre a, scored a -> scored (scanBalances post pre a).
Proof.
  induction post as [|p post IH]; intros pre a H; simpl; [exact H|].
  apply IH. scored_step. exact H.
Qed.

Lemma scanStructure_scored tx a : scored a -> scored (scanStructure tx a).
Proof.
  intros H. unfold scanStructure. destruct (meta tx) as [m|]; [|exact H].
  apply scanBalances_scored. repeat scored_step. exact H.
Qed.

Lemma scanFrequency_scored wi now a : scored a -> scored (scanFrequency wi now a).
Proof.
  intros H. unfold scanFrequency. destruct wi as [w|]; [|exact H].
  destruct (5 <? transactionCount w); [|exact H]. scored_step. exact H.
Qed.

Lemma evaluateTransaction_scored wi now tx lg :
  scored (evaluateTransaction wi now tx lg).
Proof.
  unfold evaluateTransaction, tryAnalysis.
  pose proof (scanLogs_scored (default [] (logs lg)) acc0 scored_acc0) as H.
  destruct (scanLogs (default [] (logs lg)) acc0) as [a|a].
  - apply scanFrequency_scored, scanStructure_scored, H.
  - scored_step. exact H.
Qed.

Lemma evaluateAccountSnapshot_scored ai : scored (evaluateAccountSnapshot ai).
Proof.
  unfold evaluateAccountSnapshot. destruct ai as [info|]; scored_step;
    apply scored_acc0.
Qed.

(** ** C3: the score of an evaluation *)



(** ** C4: reporting thresholds and severity tier *)

(** C4: the transaction scorer returns a threat exactly when the score of
    its evaluation exceeds 40, the account scorer exactly when it exceeds
    50; a returned threat carries the score and is CRITICAL from 70 on and
    WARNING below; an evaluation at or below its threshold returns null and
    the handler that asked for it hands nothing to the sink. *)
Theorem thresholds_and_severity
    (JSON_parse : string -> option AIAnalysis) (st : State) (w : string)
    (lg : Logs) (now : Z) (tx : Transaction) (accountInfo : option AccountInfo)
    (wi : option WalletInfo) (post : Outcome string) (score : Z) :
  let a := evaluateTransaction wi now tx lg in
  let b := evaluateAccountSnapshot accountInfo in
  let a' := evaluateTransaction ((fun i => touch i now) <$> monitoredWallets st !! w)
              now tx lg in
  match analyzeTransaction wi now (Some tx) lg with
  | Some t => 40 < accScore a /\ riskScore t = accScore a /\
              type t = severityOf (riskScore t)
  | None => accScore a <= 40
  end /\
  match analyzeAccountChange now accountInfo with
  | Some t => 50 < accScore b /\ riskScore t = accScore b /\
              type t = severityOf (riskScore t)
  | None => accScore b <= 50
  end /\
  (severityOf score = CRITICAL <-> 70 <= score) /\
  (severityOf score = WARNING <-> score < 70) /\
  (40 < accScore a' \/
   outbox (handleTransactionLogs JSON_parse st w lg now (Returned (Some tx)) post)
     = outbox st) /\
  (50 < accScore b \/
   outbox (handleAccountChange JSON_parse st w accountInfo now post) = outbox st).
Proof.
  intros a b a'.
  assert (Hsev : forall s, (severityOf s = CRITICAL <-> 70 <= s) /\
                           (severityOf s = WARNING <-> s < 70)).
  { intros s. unfold severityOf. destruct (70 <=? s) eqn:E;
      (split; split; intros; first [discriminate | reflexivity | lia]). }
  split; [|split; [|split; [|split; [|split]]]].
  - unfold analyzeTransaction. fold a.
    destruct (40 <? accScore a) eqn:E; simpl; [repeat split|]; lia.
  - unfold analyzeAccountChange. fold b.
    destruct (50 <? accScore b) eqn:E; simpl; [repeat split|]; lia.
  - apply Hsev.
  - apply Hsev.
  - unfold handleTransactionLogs. subst a'.
    destruct (monitoredWallets st !! w) as [info|] eqn:Hw; simpl; [|right; reflexivity].
    rewrite lookup_insert_eq. unfold analyzeTransaction.
    destruct (40 <? accScore (evaluateTransaction (Some (touch info now)) now tx lg)) eqn:E;
      [left; lia | right; reflexivity].
  - unfold handleAccountChange, analyzeAccountChange. fold b.
    destruct (monitoredWallets st !! w); [|right; reflexivity].
    destruct (50 <? accScore b) eqn:E; [left; lia | right; reflexivity].
Qed.

(** ** C8: absent and drained accounts *)

(** C8: for an account that is absent, or present with zero lamports
    (whatever it held before: the scorer does not consult the previous
    balance), the account evaluation is returned as a CRITICAL threat with
    a finding of weight at least 70, and with score at least 80 in the
    zero-lamports case. *)
Theorem absent_or_drained_is_critical
    (now : Z) (accountInfo : option AccountInfo)
    (H : match accountInfo with None => True | Some info => lamports info = 0 end) :
  exists t, analyzeAccountChange now accountInfo = Some t /\
    type t = CRITICAL /\ 70 <= riskScore t /\
    (exists label, label ∈ threats t /\ 70 <= findingWeight label) /\
    match accountInfo with None => True | Some _ => 80 <= riskScore t end.
Proof.
  destruct accountInfo as [info|].
  - unfold analyzeAccountChange, evaluateAccountSnapshot. rewrite H. simpl.
    eexists; split; [reflexivity|]. simpl. repeat split; try lia.
    exists "Account drained of SOL". split; [set_solver | vm_compute; discriminate].
  - unfold analyzeAccountChange, evaluateAccountSnapshot. simpl.
    eexists; split; [reflexivity|]. simpl. repeat split; try lia.
    exists "Account closed or emptied". split; [set_solver | vm_compute; discriminate].
Qed.

Lemma absent_or_drained_is_critical_witness :
  exists t, analyzeAccountChange 1000 (Some {| lamports := 0 |}) = Some t /\
    type t = CRITICAL /\ 70 <= riskScore t /\
    (exists label, label ∈ threats t /\ 70 <= findingWeight label) /\
    80 <= riskScore t.
Proof.
  apply (absent_or_drained_is_critical 1000 (Some {| lamports := 0 |})).
  reflexivity.
Defined.

(** ** C2: a log event whose transaction is missing *)

Lemma hitIf_clean c label w a :
  label <> errorLabel -> clean a -> clean (hitIf c label w a).
Proof.
  unfold clean. intros Hne Ha. destruct c; simpl; [|exact Ha].
  rewrite elem_of_app, list_elem_of_singleton. intros [?|?]; [tauto|congruence].
Qed.

Ltac clean_step := apply hitIf_clean; [discriminate|].

Lemma scanLine_clean s a : clean a -> clean (scanLine s a).
Proof. intros H. unfold scanLine. repeat clean_step. exact H. Qed.

Lemma scanLogs_outcome ls :
  forall a, clean a ->
    match scanLogs ls a with
    | Done b => clean b /\ LogOther ∉ ls
    | Raised b => clean b /\ LogOther ∈ ls
    end.
Proof.
  induction ls as [|[s|] ls IH]; intros a H; simpl.
  - split; [exact H | apply not_elem_of_nil].
  - specialize (IH _ (scanLine_clean s a H)).
    destruct (scanLogs ls (scanLine s a)); destruct IH as [Hc Hl]; (split; [exact Hc|]).
    + rewrite not_elem_of_cons. split; [discriminate | exact Hl].
    + apply elem_of_cons. right. exact Hl.
  - split; [exact H | apply elem_of_cons; left; reflexivity].
Qed.

Lemma scanBalances_clean post :
  forall pre a, clean a -> clean (scanBalances post pre a).
Proof.
  induction post as [|p post IH]; intros pre a H; simpl; [exact H|].
  apply IH. clean_step. exact H.
Qed.

Lemma scanStructure_clean tx a : clean a -> clean (scanStructure tx a).
Proof.
  intros H. unfold scanStructure. destruct (meta tx) as [m|]; [|exact H].
  apply scanBalances_clean. repeat clean_step. exact H.
Qed.

Lemma scanFrequency_clean wi now a : clean a -> clean (scanFrequency wi now a).
Proof.
  intros H. unfold scanFrequency. destruct wi as [w|]; [|exact H].
  destruct (5 <? transactionCount w); [|exact H]. clean_step. exact H.
Qed.

Lemma error_finding_iff_raised wi now tx lg :
  errorLabel ∈ accThreats (evaluateTransaction wi now tx lg)
  <-> LogOther ∈ default [] (logs lg).
Proof.
  unfold evaluateTransaction, tryAnalysis.
  assert (H0 : clean acc0) by apply not_elem_of_nil.
  pose proof (scanLogs_outcome (default [] (logs lg)) acc0 H0) as H.
  destruct (scanLogs (default [] (logs lg)) acc0) as [a|a]; destruct H as [Hc Hl].
  - split; [|tauto]. intros Hin. exfalso.
    exact (scanFrequency_clean wi now _ (scanStructure_clean tx a Hc) Hin).
  - split; [tauto|]. intros _. simpl. set_solver.
Qed.

(** C2, as the code has it: when the transaction of a log event cannot be
    obtained ([getTransaction] throws, or returns null), the handler ends
    without raising and only counts the event on the registry entry; the
    log lines are not scored ([analyzeTransaction] returns null on a null
    transaction) and nothing reaches the sink. The analysis-error finding
    belongs to the evaluation of a transaction that is present: it is in
    the evaluation exactly when scanning the log entries threw. *)
Theorem missing_transaction_is_skipped
    (JSON_parse : string -> option AIAnalysis) (st : State) (w : string)
    (lg : Logs) (now : Z) (fetch : Outcome (option Transaction))
    (post : Outcome string) (wi : option WalletInfo) (tx : Transaction)
    (H : fetch = Threw \/ fetch = Returned None) :
  handleTransactionLogs JSON_parse st w lg now fetch post
    = match monitoredWallets st !! w with
      | Some walletInfo => setWallets (insert w (touch walletInfo now)) st
      | None => st
      end /\
  analyzeTransaction wi now None lg = None /\
  (errorLabel ∈ accThreats (evaluateTransaction wi now tx lg)
   <-> LogOther ∈ default [] (logs lg)).
Proof.
  split; [|split; [reflexivity | apply error_finding_iff_raised]].
  unfold handleTransactionLogs.
  destruct (monitoredWallets st !! w); [|reflexivity].
  destruct H as [-> | ->]; reflexivity.
Qed.

Lemma missing_transaction_is_skipped_witness :
  handleTransactionLogs parseEmptyObject watching1 wallet1 drainerLogs 5
    (Returned None) Threw
    = match monitoredWallets watching1 !! wallet1 with
      | Some walletInfo => setWallets (insert wallet1 (touch walletInfo 5)) watching1
      | None => watching1
      end /\
  analyzeTransaction None 5 None drainerLogs = None /\
  (errorLabel ∈ accThreats (evaluateTransaction None 5 plainTx drainerLogs)
   <-> LogOther ∈ default [] (logs drainerLogs)).
Proof.
  apply (missing_transaction_is_skipped parseEmptyObject watching1 wallet1
           drainerLogs 5 (Returned None) Threw None plainTx).
  right. reflexivity.
Defined.

(** C2 fails as stated: with a null transaction the log lines that score
    160 beside a transaction are not evaluated at all, so there is no
    evaluation and no analysis-error finding, and the sink stays empty,
    also when the fetch throws. *)
Lemma missing_transaction_drops_event :
  analyzeTransaction None 5 None drainerLogs = None /\
  outbox (handleTransactionLogs parseEmptyObject watching1 wallet1 drainerLogs 5
            (Returned None) Threw) = [] /\
  outbox (handleTransactionLogs parseEmptyObject watching1 wallet1 drainerLogs 5
            Threw Threw) = [] /\
  length (outbox (handleTransactionLogs parseEmptyObject watching1 wallet1
                    drainerLogs 5 (Returned (Some plainTx)) Threw)) = 2%nat.
Proof. repeat split; vm_compute; reflexivity. Qed.

(** ** C1: alerts per deduplication key *)

Lemma analyzeTransaction_signature wi now transaction lg t :
  analyzeTransaction wi now transaction lg = Some t ->
  threatSignature t = signature lg.
Proof.
  unfold analyzeTransaction. destruct transaction as [tx|]; [|discriminate].
  destruct (40 <? _); [|discriminate]. intros [= <-]. reflexivity.
Qed.

Lemma alertCount_app w sig l1 l2 :
  alertCount w sig (l1 ++ l2) = (alertCount w sig l1 + alertCount w sig l2)%nat.
Proof. unfold alertCount. rewrite List.filter_app, length_app. reflexivity. Qed.

(** What a log event adds to the sink. *)
Lemma handleTransactionLogs_outbox JSON_parse st w lg now fetch post :
  outbox (handleTransactionLogs JSON_parse st w lg now fetch post)
  = (outbox st ++
     match forwarded st w lg now fetch with
     | Some (uid, t) =>
         let e := snd (analyzeTransactionWithAI JSON_parse (openaiApiKey st)
                         (walletProfiles st) w (Some (threats t)) t now post) in
         AlertMessage uid w e
           :: (if 80 <=? riskScore e then [CriticalMessage uid] else [])
     | None => []
     end)%list.
Proof.
  unfold handleTransactionLogs, forwarded.
  destruct (monitoredWallets st !! w) as [info|]; [|symmetry; apply app_nil_r].
  destruct fetch as [|transaction]; simpl; [symmetry; apply app_nil_r|].
  rewrite lookup_insert_eq.
  destruct (analyzeTransaction (Some (touch info now)) now transaction lg) as [t|];
    [|symmetry; apply app_nil_r].
  unfold sendThreatAlert. simpl.
  destruct (threatCallbacks st !! w) as [uid|]; [|symmetry; apply app_nil_r].
  reflexivity.
Qed.

(** C1, as the code has it: the alert path keeps no table of deduplication
    keys. Every log event that hands a threat to the wallet's callback adds
    exactly one alert message for the key (wallet, signature) to the sink,
    whatever the sink already holds for that key; an event that hands over
    nothing adds nothing. *)
Theorem one_alert_per_forwarded_event
    (JSON_parse : string -> option AIAnalysis) (st : State) (w : string)
    (lg : Logs) (now : Z) (fetch : Outcome (option Transaction))
    (post : Outcome string) :
  let st' := handleTransactionLogs JSON_parse st w lg now fetch post in
  match forwarded st w lg now fetch with
  | Some _ =>
      alertCount w (signature lg) (outbox st')
        = S (alertCount w (signature lg) (outbox st))
  | None => outbox st' = outbox st
  end.
Proof.
  intros st'. subst st'. rewrite handleTransactionLogs_outbox.
  destruct (forwarded st w lg now fetch) as [[uid t]|] eqn:Hf;
    [|apply app_nil_r].
  assert (Hsig : threatSignature t = signature lg).
  { unfold forwarded in Hf. destruct (monitoredWallets st !! w); [|discriminate].
    destruct fetch as [|transaction]; [discriminate|].
    destruct (analyzeTransaction _ now transaction lg) as [t'|] eqn:Ha; [|discriminate].
    destruct (threatCallbacks st !! w); [|discriminate].
    injection Hf as _ <-. eapply analyzeTransaction_signature, Ha. }
  rewrite alertCount_app. cbn zeta.
  set (e := snd _).
  assert (He : threatSignature e = signature lg) by (subst e; simpl; exact Hsig).
  clearbody e.
  change (AlertMessage uid w e :: ?l) with (([AlertMessage uid w e] ++ l)%list).
  rewrite alertCount_app.
  assert (H1 : alertCount w (signature lg) [AlertMessage uid w e] = 1%nat).
  { unfold alertCount. simpl. rewrite He, !bool_decide_eq_true_2 by reflexivity.
    reflexivity. }
  assert (H2 : alertCount w (signature lg)
                 (if 80 <=? riskScore e then [CriticalMessage uid] else []) = 0%nat).
  { destruct (80 <=? riskScore e); reflexivity. }
  rewrite H1, H2. lia.
Qed.

(** C1 fails as stated: two log events of one wallet with one signature put
    two alert messages with that key into the sink. *)
Lemma same_signature_alerts_twice :
  let st1 := handleTransactionLogs parseEmptyObject watching1 wallet1 drainerLogs 5
               (Returned (Some plainTx)) Threw in
  let st2 := handleTransactionLogs parseEmptyObject st1 wallet1 drainerLogs 6
               (Returned (Some plainTx)) Threw in
  alertCount wallet1 (Some "sig1") (outbox st1) = 1%nat /\
  alertCount wallet1 (Some "sig1") (outbox st2) = 2%nat.
Proof. split; vm_compute; reflexivity. Qed.

(** ** C5: the wallet behaviour profile *)

Lemma handleTransactionLogs_profiles JSON_parse st w lg now fetch post :
  walletProfiles (handleTransactionLogs JSON_parse st w lg now fetch post)
  = match forwarded st w lg now fetch with
    | Some (_, t) =>
        updateWalletProfile (walletProfiles st) w (Some (threats t)) now
    | None => walletProfiles st
    end.
Proof.
  unfold handleTransactionLogs, forwarded.
  destruct (monitoredWallets st !! w) as [info|]; [|reflexivity].
  destruct fetch as [|transaction]; simpl; [reflexivity|].
  rewrite lookup_insert_eq.
  destruct (analyzeTransaction (Some (touch info now)) now transaction lg) as [t|];
    [|reflexivity].
  unfold sendThreatAlert. simpl.
  destruct (threatCallbacks st !! w) as [uid|]; reflexivity.
Qed.

Lemma stopMonitoring_profiles st w env :
  walletProfiles (stopMonitoring st w env) = walletProfiles st.
Proof.
  unfold stopMonitoring. destruct (monitoredWallets st !! w) as [info|]; [|reflexivity].
  destruct (whenId (subscriptionId info) _); [reflexivity|].
  destruct (whenId (logsSubscriptionId info) _); reflexivity.
Qed.

(** C5, as the code has it: the profile of a wallet is updated by the
    threat handler only, so a log event updates it exactly when it hands a
    threat to the wallet's callback (one update, counting one transaction);
    an event that hands over nothing, such as one at or below the reporting
    threshold, leaves every profile as it was; and [stopMonitoring] leaves
    every profile as it was. *)
Theorem profile_updated_on_forwarded_threat_only
    (JSON_parse : string -> option AIAnalysis) (st : State) (w : string)
    (lg : Logs) (now : Z) (fetch : Outcome (option Transaction))
    (post : Outcome string) (env : StopEnv) (lines : option (list string)) :
  walletProfiles (handleTransactionLogs JSON_parse st w lg now fetch post)
    = match forwarded st w lg now fetch with
      | Some (_, t) =>
          updateWalletProfile (walletProfiles st) w (Some (threats t)) now
      | None => walletProfiles st
      end /\
  (totalTransactions <$>
     updateWalletProfile (walletProfiles st) w lines now !! w)
    = Some (default 0 (totalTransactions <$> walletProfiles st !! w) + 1) /\
  walletProfiles (stopMonitoring st w env) = walletProfiles st.
Proof.
  split; [apply handleTransactionLogs_profiles|].
  split; [|apply stopMonitoring_profiles].
  unfold updateWalletProfile. rewrite lookup_insert_eq. simpl.
  destruct (walletProfiles st !! w); reflexivity.
Qed.

(** C5 fails as stated: a log event below the reporting threshold leaves
    the watched wallet without a profile, and the profile made by a
    forwarded threat is still there after the wallet is unwatched. *)
Lemma profile_not_updated_nor_dropped :
  let quietly := handleTransactionLogs parseEmptyObject watching1 wallet1 quietLogs 5
                   (Returned (Some plainTx)) Threw in
  let alerted := handleTransactionLogs parseEmptyObject watching1 wallet1 drainerLogs 5
                   (Returned (Some plainTx)) Threw in
  let stopped := stopMonitoring alerted wallet1 stopOk in
  (transactionCount <$> monitoredWallets quietly !! wallet1) = Some 1 /\
  walletProfiles quietly !! wallet1 = None /\
  monitoredWallets stopped !! wallet1 = None /\
  (totalTransactions <$> walletProfiles stopped !! wallet1) = Some 1.
Proof. repeat split; vm_compute; reflexivity. Qed.

(** ** Labels and the threat database *)

Lemma isFindingLabel_quiet t : isFindingLabel t = true -> quiet t = true.
Proof.
  unfold isFindingLabel, findingWeights. cbn [existsb fst].
  rewrite !orb_true_iff.
  intros H.
  repeat (destruct H as [H|H];
          [apply String.eqb_eq in H; subst t; vm_compute; reflexivity|]).
  discriminate H.
Qed.

Lemma existsb_quiet pattern ths :
  pattern ∈ databasePatterns ->
  Forall (fun t => quiet t = true) ths ->
  existsb (fun t => includes (toLowerCase t) (toLowerCase pattern)) ths = false.
Proof.
  intros Hp. induction 1 as [|t ths Ht _ IH]; [reflexivity|].
  simpl. rewrite IH, orb_false_r.
  unfold quiet in Ht. rewrite forallb_forall in Ht.
  apply negb_true_iff, Ht, list_elem_of_In, Hp.
Qed.

Lemma matchKnownThreats_quiet ths :
  Forall (fun t => quiet t = true) ths -> matchKnownThreats ths = [].
Proof.
  intros H. unfold matchKnownThreats, threatDatabase, patternMatches.
  cbn [flat_map List.filter].
  rewrite !(existsb_quiet _ ths) by
    (first [exact H | unfold databasePatterns; vm_compute; set_solver]).
  reflexivity.
Qed.

Lemma setAdd_elem x y s : y ∈ setAdd x s <-> y = x \/ y ∈ s.
Proof.
  unfold setAdd. case_bool_decide as Hx.
  - split; [tauto|]. intros [->|?]; assumption.
  - rewrite elem_of_app, list_elem_of_singleton. tauto.
Qed.

Lemma setAdd_NoDup x s : NoDup s -> NoDup (setAdd x s).
Proof.
  unfold setAdd. intros H. case_bool_decide as Hx; [exact H|].
  apply NoDup_app. split; [exact H|]. split; [|apply NoDup_singleton].
  intros y Hy Hy'. apply list_elem_of_singleton in Hy'. congruence.
Qed.

Lemma foldl_setAdd l :
  forall s, NoDup s ->
    NoDup (foldl (fun s x => setAdd x s) s l) /\
    forall y, y ∈ foldl (fun s x => setAdd x s) s l <-> y ∈ s \/ y ∈ l.
Proof.
  induction l as [|x l IH]; intros s Hs; simpl.
  - split; [exact Hs|]. intros y. rewrite elem_of_nil. tauto.
  - destruct (IH (setAdd x s) (setAdd_NoDup x s Hs)) as [Hn He].
    split; [exact Hn|]. intros y. rewrite He, setAdd_elem, elem_of_cons. tauto.
Qed.

Lemma newSet_NoDup l : NoDup (newSet l).
Proof. apply (foldl_setAdd l [] (NoDup_nil_2)). Qed.

Lemma newSet_elem l y : y ∈ newSet l <-> y ∈ l.
Proof.
  unfold newSet. destruct (foldl_setAdd l [] (NoDup_nil_2)) as [_ He].
  rewrite He, elem_of_nil. tauto.
Qed.

(** ** C6: enrichment that fails *)

(** C6, as the code has it: a timeout or error of the AI call, and an
    answer whose brace span [JSON.parse] refuses, give no enrichment; an
    answer with no brace span gives the fixed MEDIUM / confidence 50
    enrichment instead. Without enrichment the merge returns the base
    threat of a scorer with its score, tier, findings and AI fields as they
    were (the wallet-profile summary is attached); with the fixed
    enrichment it keeps score and tier and adds that enrichment's label. *)
Theorem enrichment_failure_modes
    (JSON_parse : string -> option AIAnalysis) (body : string)
    (profiles : gmap string Profile) (b : Threat) (w : string) (now : Z)
    (H : forallb isFindingLabel (threats b) = true) :
  getAIAnalysis JSON_parse Threw = None /\
  getAIAnalysis JSON_parse (Returned body)
    = match matchBraces body with
      | Some jsonMatch => JSON_parse jsonMatch
      | None => Some fallbackAnalysis
      end /\
  (let e := combineThreat profiles b None w now in
   riskScore e = riskScore b /\ type e = type b /\ threats e = threats b /\
   aiAnalysis e = aiAnalysis b /\ recommendation e = recommendation b /\
   aiExplanation e = aiExplanation b /\ knownThreats e = knownThreats b) /\
  (let e := combineThreat profiles b (Some fallbackAnalysis) w now in
   riskScore e = riskScore b /\ type e = type b /\
   threats e = newSet (threats b ++ ["AI analysis incomplete"]) /\
   aiAnalysis e = Some fallbackAnalysis).
Proof.
  assert (Hq : Forall (fun t => quiet t = true) (threats b)).
  { rewrite forallb_forall in H. apply Forall_forall. intros t Ht.
    apply isFindingLabel_quiet, H, list_elem_of_In, Ht. }
  split; [reflexivity|]. split; [|split].
  - unfold getAIAnalysis, parseAIResponse. simpl.
    destruct (matchBraces body); [|reflexivity].
    destruct (JSON_parse s); reflexivity.
  - unfold combineThreat. rewrite (matchKnownThreats_quiet _ Hq). simpl. tauto.
  - unfold combineThreat. cbn [aiThreats fallbackAnalysis].
    rewrite matchKnownThreats_quiet.
    + simpl. tauto.
    + apply Forall_forall. intros t Ht. rewrite newSet_elem, elem_of_app in Ht.
      destruct Ht as [Ht|Ht].
      * rewrite Forall_forall in Hq. apply Hq, Ht.
      * apply list_elem_of_singleton in Ht. subst t. vm_compute. reflexivity.
Qed.

Lemma enrichment_failure_modes_witness :
  getAIAnalysis parseEmptyObject Threw = None /\
  getAIAnalysis parseEmptyObject (Returned "verdict: {not json}")
    = match matchBraces "verdict: {not json}" with
      | Some jsonMatch => parseEmptyObject jsonMatch
      | None => Some fallbackAnalysis
      end /\
  (let e := combineThreat ∅ (healthThreat 9) None wallet1 9 in
   riskScore e = riskScore (healthThreat 9) /\ type e = type (healthThreat 9) /\
   threats e = threats (healthThreat 9) /\
   aiAnalysis e = aiAnalysis (healthThreat 9) /\
   recommendation e = recommendation (healthThreat 9) /\
   aiExplanation e = aiExplanation (healthThreat 9) /\
   knownThreats e = knownThreats (healthThreat 9)) /\
  (let e := combineThreat ∅ (healthThreat 9) (Some fallbackAnalysis) wallet1 9 in
   riskScore e = riskScore (healthThreat 9) /\ type e = type (healthThreat 9) /\
   threats e = newSet (threats (healthThreat 9) ++ ["AI analysis incomplete"]) /\
   aiAnalysis e = Some fallbackAnalysis).
Proof.
  apply (enrichment_failure_modes parseEmptyObject "verdict: {not json}" ∅
           (healthThreat 9) wallet1 9).
  reflexivity.
Defined.

(** C6 fails as stated: an answer of the AI service that holds no JSON at
    all is not treated as absent: the enrichment is the fixed MEDIUM one,
    and the threat that goes on carries one more label than the base. *)
Lemma answer_without_json_enriches :
  let ai := getAIAnalysis parseEmptyObject
              (Returned "I cannot assess this transaction.") in
  ai = Some fallbackAnalysis /\
  threats (combineThreat ∅ (healthThreat 9) ai wallet1 9)
    = ["Account no longer exists - possible drain"; "AI analysis incomplete"].
Proof. split; vm_compute; reflexivity. Qed.

(** The threats the scorers and the sweep produce carry finding labels
    only. *)
Lemma produced_threats_carry_finding_labels wi now transaction lg accountInfo :
  match analyzeTransaction wi now transaction lg with
  | Some t => forallb isFindingLabel (threats t) = true
  | None => True
  end /\
  match analyzeAccountChange now accountInfo with
  | Some t => forallb isFindingLabel (threats t) = true
  | None => True
  end /\
  forallb isFindingLabel (threats (healthThreat now)) = true.
Proof.
  split; [|split; [|reflexivity]].
  - unfold analyzeTransaction. destruct transaction as [tx|]; [|exact I].
    destruct (40 <? _); [|exact I]. simpl.
    apply forallb_forall. intros l Hl.
    pose proof (scored_labels _ (evaluateTransaction_scored wi now tx lg)) as Hf.
    rewrite Forall_forall in Hf. apply Hf, list_elem_of_In, Hl.
  - unfold analyzeAccountChange. destruct (50 <? _); [|exact I]. simpl.
    apply forallb_forall. intros l Hl.
    pose proof (scored_labels _ (evaluateAccountSnapshot_scored accountInfo)) as Hf.
    rewrite Forall_forall in Hf. apply Hf, list_elem_of_In, Hl.
Qed.

(** ** C7: the merge of a basic threat and an enrichment *)

Lemma aiAdjust_ge ai score : score <= aiAdjust ai score.
Proof.
  unfold aiAdjust. destruct (confidence ai) as [c|]; [|lia].
  destruct (80 <? c); [|lia]. repeat case_bool_decide; lia.
Qed.

Lemma aiAdjust_low ai score :
  match confidence ai with Some c => c <= 80 | None => True end ->
  aiAdjust ai score = score.
Proof.
  unfold aiAdjust. destruct (confidence ai) as [c|]; [|reflexivity].
  intros Hc. destruct (80 <? c) eqn:E; [lia | reflexivity].
Qed.

Lemma matchKnownThreats_matched ths :
  matchKnownThreats ths <> [] <->
  exists entry, entry ∈ threatDatabase /\
    (2 <= length (patternMatches ths (fst (fst (snd entry)))))%nat.
Proof.
  unfold matchKnownThreats. generalize threatDatabase as db.
  induction db as [|[ty [[pats level] descr]] db IH]; cbn [flat_map].
  - split; [congruence|]. intros [e [He _]]. apply elem_of_nil in He.
    contradiction.
  - destruct (2 <=? length (patternMatches ths pats))%nat eqn:E;
      cbn [app].
    + split; [|intros _ H; discriminate H]. intros _. eexists.
      split; [apply elem_of_cons; left; reflexivity|].
      simpl. apply Nat.leb_le, E.
    + rewrite IH. apply Nat.leb_gt in E. split.
      * intros [e [He Hl]]. exists e. split; [apply elem_of_cons; auto | exact Hl].
      * intros [e [He Hl]]. apply elem_of_cons in He as [->|He]; [|eauto].
        simpl in Hl. lia.
Qed.

(** C7, as the code has it: the merge never lowers the score and never
    changes the tier field. The score after the merge is fixed by two
    steps. The AI severity opinion is applied only when the AI confidence
    exceeds 80 (to at least 90 for CRITICAL, to at least 75 for HIGH); with
    a confidence of at most 80, or none, or no enrichment, that step keeps
    the score. Then, when the merged label list matches an entry of the
    threat database (at least two of its patterns occur in labels), the
    score is raised to at least 80, and otherwise it is kept. When the
    enrichment has a threat list, the merged list holds the labels of both
    lists, each once. *)
Theorem merge_raises_and_unions
    (profiles : gmap string Profile) (b : Threat) (ai : option AIAnalysis)
    (w : string) (now : Z) :
  let e := combineThreat profiles b ai w now in
  let raised (score : Z) :=
    match matchKnownThreats (threats e) with
    | [] => score
    | _ :: _ => Z.max score 80
    end in
  riskScore b <= riskScore e /\
  type e = type b /\
  (matchKnownThreats (threats e) <> [] <->
   exists entry, entry ∈ threatDatabase /\
     (2 <= length (patternMatches (threats e) (fst (fst (snd entry)))))%nat) /\
  ((forall a c, ai = Some a -> confidence a = Some c -> c <= 80) ->
   riskScore e = raised (riskScore b)) /\
  (forall a c, ai = Some a -> confidence a = Some c -> 80 < c ->
   riskScore e
   = raised (if bool_decide (threatLevel a = Some "CRITICAL")
             then Z.max (riskScore b) 90
             else if bool_decide (threatLevel a = Some "HIGH")
                  then Z.max (riskScore b) 75
                  else riskScore b)) /\
  match ai ≫= aiThreats with
  | Some l =>
      NoDup (threats e) /\
      forall x, x ∈ threats e <-> x ∈ threats b \/ x ∈ l
  | None => threats e = threats b
  end.
Proof.
  intros e raised. subst e raised. unfold combineThreat.
  cbn [riskScore type threats].
  set (threats1 := match ai with
                   | Some a => match aiThreats a with
                               | Some l => newSet (threats b ++ l)
                               | None => threats b
                               end
                   | None => threats b
                   end).
  set (score1 := match ai with
                 | Some a => aiAdjust a (riskScore b)
                 | None => riskScore b
                 end).
  assert (Hge : riskScore b <= score1).
  { subst score1. destruct ai as [a|]; [apply aiAdjust_ge | lia]. }
  split; [|split; [reflexivity|split; [|split; [|split]]]].
  - destruct (matchKnownThreats threats1); lia.
  - apply matchKnownThreats_matched.
  - intros Hlow.
    assert (Hs : score1 = riskScore b).
    { subst score1. destruct ai as [a|]; [|reflexivity].
      apply aiAdjust_low. destruct (confidence a) as [c|] eqn:Ec; [|exact I].
      eapply Hlow; [reflexivity | exact Ec]. }
    rewrite Hs. reflexivity.
  - intros a c -> Ec Hc. subst score1. unfold aiAdjust. rewrite Ec.
    destruct (Z.ltb_spec 80 c) as [_|Hle]; [reflexivity | lia].
  - subst threats1. destruct ai as [a|]; simpl; [|reflexivity].
    destruct (aiThreats a) as [l|]; [|reflexivity].
    split; [apply newSet_NoDup|].
    intros x. rewrite newSet_elem, elem_of_app. reflexivity.
Qed.

(** C7 fails as stated: a basic WARNING threat of score 50 merged with an
    enrichment of confidence 50 comes out with score 80, because the
    labels of the enrichment match the token-drainer entry of the threat
    database. *)
Lemma low_confidence_enrichment_raises_score :
  (riskScore <$> analyzeTransaction None 0 (Some plainTx) approveLogs) = Some 50 /\
  ((fun b => riskScore (combineThreat ∅ b (Some lowConfidenceAnswer) wallet1 0))
     <$> analyzeTransaction None 0 (Some plainTx) approveLogs) = Some 80.
Proof. split; vm_compute; reflexivity. Qed.

(** ** What the alert path leaves alone *)

Lemma sendThreatAlert_wallets JSON_parse st w t now post :
  monitoredWallets (sendThreatAlert JSON_parse st w t now post) = monitoredWallets st.
Proof. unfold sendThreatAlert. destruct (threatCallbacks st !! w); reflexivity. Qed.

Lemma sendThreatAlert_callbacks JSON_parse st w t now post :
  threatCallbacks (sendThreatAlert JSON_parse st w t now post) = threatCallbacks st.
Proof. unfold sendThreatAlert. destruct (threatCallbacks st !! w); reflexivity. Qed.


(** ** C9: the reconciliation sweep *)

Lemma performHealthCheck_wallets JSON_parse st w now rpc post :
  monitoredWallets (performHealthCheck JSON_parse st w now rpc post)
  = match monitoredWallets st !! w, rpc with
    | Some walletInfo, Returned accountInfo =>
        <[ w := setHadAccount walletInfo (bool_decide (is_Some accountInfo)) ]>
          (monitoredWallets st)
    | _, _ => monitoredWallets st
    end.
Proof.
  unfold performHealthCheck, healthCheckResume.
  destruct (monitoredWallets st !! w) as [info|]; [|reflexivity].
  destruct rpc as [|accountInfo]; simpl; [reflexivity|].
  destruct (_ && _); [rewrite sendThreatAlert_wallets|]; reflexivity.
Qed.

Lemma sweepWallet_wallets JSON_parse now rpc post st w :
  monitoredWallets (sweepWallet JSON_parse now rpc post st w)
  = match monitoredWallets st !! w with
    | Some walletInfo => <[ w := sweptInfo now (rpc w) walletInfo ]> (monitoredWallets st)
    | None => monitoredWallets st
    end.
Proof.
  unfold sweepWallet, sweptInfo.
  destruct (monitoredWallets st !! w) as [info|] eqn:Hw; [|reflexivity].
  rewrite performHealthCheck_wallets.
  destruct (300000 <? now - lastCheck info); simpl.
  - rewrite lookup_insert_eq. destruct (rpc w); [reflexivity|].
    apply insert_insert_eq.
  - rewrite Hw. destruct (rpc w); [|reflexivity].
    symmetry. apply insert_id, Hw.
Qed.

Lemma sweepWallet_callbacks JSON_parse now rpc post st w :
  threatCallbacks (sweepWallet JSON_parse now rpc post st w) = threatCallbacks st.
Proof.
  unfold sweepWallet, performHealthCheck, healthCheckResume.
  destruct (monitoredWallets st !! w) as [info|]; [|reflexivity].
  destruct (300000 <? now - lastCheck info); simpl.
  - rewrite lookup_insert_eq. destruct (rpc w); simpl; [reflexivity|].
    destruct (_ && _); [rewrite sendThreatAlert_callbacks|]; reflexivity.
  - destruct (monitoredWallets st !! w); [|reflexivity].
    destruct (rpc w); simpl; [reflexivity|].
    destruct (_ && _); [rewrite sendThreatAlert_callbacks|]; reflexivity.
Qed.




Lemma sweep_callbacks JSON_parse now rpc post l :
  forall st, threatCallbacks (foldl (sweepWallet JSON_parse now rpc post) st l)
             = threatCallbacks st.
Proof.
  induction l as [|x l IH]; intros st; simpl; [reflexivity|].
  rewrite IH. apply sweepWallet_callbacks.
Qed.

(** The registry entry of [w] after the loop has run over [l]. *)
Lemma sweep_entry JSON_parse now rpc post l :
  NoDup l ->
  forall st w,
    monitoredWallets (foldl (sweepWallet JSON_parse now rpc post) st l) !! w
    = (if bool_decide (w ∈ l) then sweptInfo now (rpc w) else id)
        <$> monitoredWallets st !! w.
Proof.
  induction 1 as [|x l Hx Hl IH]; intros st w; simpl.
  - destruct (monitoredWallets st !! w); reflexivity.
  - rewrite IH, sweepWallet_wallets.
    destruct (decide (w = x)) as [->|Hne].
    + rewrite (bool_decide_eq_false_2 (x ∈ l)) by exact Hx.
      rewrite (bool_decide_eq_true_2 (x ∈ x :: l)) by (apply elem_of_cons; auto).
      destruct (monitoredWallets st !! x) as [info|] eqn:Hw.
      * rewrite lookup_insert_eq. reflexivity.
      * rewrite Hw. reflexivity.
    + assert (Hiff : bool_decide (w ∈ x :: l) = bool_decide (w ∈ l)).
      { apply bool_decide_ext. rewrite elem_of_cons. tauto. }
      rewrite Hiff.
      destruct (monitoredWallets st !! x) as [info|]; [|reflexivity].
      rewrite lookup_insert_ne by congruence. reflexivity.
Qed.

Lemma registered_NoDup st : NoDup (registered st).
Proof. apply NoDup_fst_map_to_list. Qed.

Lemma registered_elem st w :
  w ∈ registered st <-> is_Some (monitoredWallets st !! w).
Proof.
  unfold registered. rewrite list_elem_of_fmap. split.
  - intros [[k v] [-> Hkv]]. apply elem_of_map_to_list in Hkv. eauto.
  - intros [v Hv]. exists (w, v). split; [reflexivity|].
    apply elem_of_map_to_list, Hv.
Qed.



(** A tick over two wallets in which the lookup of the first throws: the
    second wallet is processed all the same. *)
Example sweep_survives_a_throw :
  let wallet2 := "9xQeWvG816bUx9EPjHmaT23yvVM2ZWbrrpZb9PusVFin" in
  let st := fst (startMonitoring watching1 wallet2 8 8 0 startOk) in
  let rpc := fun w => if String.eqb w wallet1 then Threw
                      else Returned (Some {| lamports := 5 |}) in
  let st' := performPeriodicChecks parseEmptyObject st 400000 rpc (fun _ => Threw) in
  (hadAccount <$> monitoredWallets st' !! wallet1) = Some None /\
  (hadAccount <$> monitoredWallets st' !! wallet2) = Some (Some true) /\
  (lastCheck <$> monitoredWallets st' !! wallet1) = Some 400000.
Proof. repeat split; vm_compute; reflexivity. Qed.

(** ** C10: registry and callback table *)

Lemma startMonitoring_agree st w uid cb now env :
  tablesAgree st -> tablesAgree (fst (startMonitoring st w uid cb now env)).
Proof.
  unfold tablesAgree, startMonitoring. intros H.
  destruct (keyValid env); simpl; [|exact H].
  destruct (onAccountChange env); simpl;
    [rewrite !dom_insert_L, H; reflexivity|].
  destruct (onLogs env); simpl; [rewrite !dom_insert_L, H; reflexivity|].
  unfold startPeriodicChecks. simpl.
  destruct (isMonitoring st); simpl;
    rewrite !dom_insert_L, H, (assoc_L (∪)), (idemp_L (∪)); reflexivity.
Qed.

Lemma stopMonitoring_agree st w env :
  tablesAgree st -> tablesAgree (stopMonitoring st w env).
Proof.
  unfold tablesAgree, stopMonitoring. intros H.
  destruct (monitoredWallets st !! w) as [info|]; [|exact H].
  destruct (whenId (subscriptionId info) _); simpl; [exact H|].
  destruct (whenId (logsSubscriptionId info) _); simpl; [exact H|].
  rewrite !dom_delete_L, H. reflexivity.
Qed.

Lemma dom_insert_present {V} (m : gmap string V) w v :
  is_Some (m !! w) -> dom (<[w := v]> m) = dom m.
Proof.
  intros Hw. rewrite dom_insert_L. apply subseteq_union_1_L.
  apply singleton_subseteq_l, elem_of_dom, Hw.
Qed.

Lemma handleAccountChange_agree JSON_parse st w accountInfo now post :
  tablesAgree st ->
  tablesAgree (handleAccountChange JSON_parse st w accountInfo now post).
Proof.
  unfold tablesAgree, handleAccountChange. intros H.
  destruct (monitoredWallets st !! w); [|exact H].
  destruct (analyzeAccountChange now accountInfo); [|exact H].
  rewrite sendThreatAlert_wallets, sendThreatAlert_callbacks. exact H.
Qed.

Lemma handleTransactionLogs_agree JSON_parse st w lg now fetch post :
  tablesAgree st ->
  tablesAgree (handleTransactionLogs JSON_parse st w lg now fetch post).
Proof.
  unfold tablesAgree, handleTransactionLogs. intros H.
  destruct (monitoredWallets st !! w) as [info|] eqn:Hw; [|exact H].
  assert (Hd : dom (<[w := touch info now]> (monitoredWallets st))
               = dom (threatCallbacks st)).
  { rewrite dom_insert_present by eauto. exact H. }
  destruct fetch as [|transaction]; simpl; [exact Hd|].
  destruct (analyzeTransaction _ now transaction lg); [|exact Hd].
  rewrite sendThreatAlert_wallets, sendThreatAlert_callbacks. exact Hd.
Qed.

Lemma sweep_agree JSON_parse now rpc post l :
  forall st, tablesAgree st ->
    tablesAgree (foldl (sweepWallet JSON_parse now rpc post) st l).
Proof.
  induction l as [|x l IH]; intros st H; simpl; [exact H|].
  apply IH. unfold tablesAgree.
  rewrite sweepWallet_wallets, sweepWallet_callbacks.
  destruct (monitoredWallets st !! x) eqn:Hx; [|exact H].
  rewrite dom_insert_present by eauto. exact H.
Qed.

Lemma applyOp_agree JSON_parse st op :
  tablesAgree st -> tablesAgree (applyOp JSON_parse st op).
Proof.
  destruct op; simpl.
  - apply startMonitoring_agree.
  - apply stopMonitoring_agree.
  - apply handleAccountChange_agree.
  - apply handleTransactionLogs_agree.
  - apply sweep_agree.
Qed.

(** ** The live registry *)

Lemma elem_of_keys l w : w ∈ Live.keys l <-> Some w ∈ l.
Proof.
  unfold Live.keys. rewrite list_elem_of_omap. split.
  - intros [x [Hx Hid]]. simpl in Hid. subst x. exact Hx.
  - intros Hw. exists (Some w). auto.
Qed.

Lemma mapSet_present w l : Some w ∈ l -> Live.mapSet w l = l.
Proof. intros H. unfold Live.mapSet. rewrite bool_decide_eq_true_2; auto. Qed.


Lemma keys_mapDelete w l :
  Live.keys (Live.mapDelete w l) = List.filter (fun k => negb (String.eqb k w)) (Live.keys l).
Proof.
  induction l as [|[k|] l IH]; simpl; [reflexivity| |exact IH].
  case_bool_decide as Hk.
  - injection Hk as ->. rewrite String.eqb_refl. simpl. exact IH.
  - destruct (String.eqb_spec k w) as [->|Hne]; [congruence|].
    simpl. f_equal. exact IH.
Qed.

Lemma elem_of_mapDelete w l w' :
  Some w' ∈ Live.mapDelete w l <-> Some w' ∈ l /\ w' <> w.
Proof.
  rewrite <- !elem_of_keys, keys_mapDelete, list_elem_of_In, filter_In,
    <- list_elem_of_In.
  destruct (String.eqb_spec w' w); simpl; split; intros [? ?]; split;
    congruence || assumption.
Qed.

Lemma NoDup_keys_mapDelete w l :
  NoDup (Live.keys l) -> NoDup (Live.keys (Live.mapDelete w l)).
Proof.
  rewrite keys_mapDelete. intros H. apply NoDup_ListNoDup.
  apply List.NoDup_filter, NoDup_ListNoDup, H.
Qed.

Lemma elem_of_mapSet w l x : x ∈ Live.mapSet w l <-> x ∈ l \/ x = Some w.
Proof.
  unfold Live.mapSet. case_bool_decide as Hw.
  - split; [auto|]. intros [?| ->]; assumption.
  - rewrite elem_of_app, list_elem_of_singleton. reflexivity.
Qed.

Lemma NoDup_keys_mapSet w l :
  NoDup (Live.keys l) -> NoDup (Live.keys (Live.mapSet w l)).
Proof.
  intros H. unfold Live.mapSet. case_bool_decide as Hw; [exact H|].
  unfold Live.keys. rewrite omap_app. apply NoDup_app. split; [exact H|].
  split; [|apply NoDup_singleton].
  intros x Hx Hx'. apply list_elem_of_singleton in Hx'. subst x.
  apply Hw, elem_of_keys, Hx.
Qed.

Lemma follow_present l st' w :
  Some w ∈ l -> is_Some (monitoredWallets st' !! w) -> Live.follow l st' w = l.
Proof.
  intros Hw Hs. unfold Live.follow. rewrite bool_decide_eq_true_2 by exact Hs.
  apply mapSet_present, Hw.
Qed.



(** A step that changes the registry at [w] only keeps the slots in step
    with the registry. *)
Lemma follow_tracks l st' w :
  Live.tracks l ->
  (forall w', w' <> w ->
     monitoredWallets st' !! w' = monitoredWallets (Live.state l) !! w') ->
  Live.tracks {| Live.state := st'; Live.slots := Live.follow (Live.slots l) st' w |}.
Proof.
  intros [Hnd Hin] Hother. unfold Live.tracks, Live.follow. simpl.
  case_bool_decide as Hw; split.
  - apply NoDup_keys_mapSet, Hnd.
  - intros w'. rewrite elem_of_mapSet. destruct (decide (w' = w)) as [->|Hne].
    + split; [intros _; exact Hw | auto].
    + rewrite Hother by exact Hne. rewrite <- Hin. split; [|auto].
      intros [?|Heq]; [assumption | congruence].
  - apply NoDup_keys_mapDelete, Hnd.
  - intros w'. rewrite elem_of_mapDelete. destruct (decide (w' = w)) as [->|Hne].
    + split; [intros [_ ?]; contradiction | intros ?; contradiction].
    + rewrite Hother by exact Hne. rewrite <- Hin. tauto.
Qed.

Lemma stopMonitoring_other st w env w' :
  w' <> w ->
  monitoredWallets (stopMonitoring st w env) !! w' = monitoredWallets st !! w'.
Proof.
  intros Hne. unfold stopMonitoring.
  destruct (monitoredWallets st !! w) as [info|]; [|reflexivity].
  destruct (whenId (subscriptionId info) _); simpl; [reflexivity|].
  destruct (whenId (logsSubscriptionId info) _); simpl; [reflexivity|].
  apply lookup_delete_ne. congruence.
Qed.

Lemma startMonitoring_other st w uid cb now env w' :
  w' <> w ->
  monitoredWallets (fst (startMonitoring st w uid cb now env)) !! w'
  = monitoredWallets st !! w'.
Proof.
  intros Hne. unfold startMonitoring, startPeriodicChecks.
  destruct (keyValid env); simpl; [|reflexivity].
  destruct (onAccountChange env); simpl;
    [rewrite lookup_insert_ne by congruence; reflexivity|].
  destruct (onLogs env); simpl;
    [rewrite lookup_insert_ne by congruence; reflexivity|].
  destruct (isMonitoring st); simpl;
    rewrite !lookup_insert_ne by congruence; reflexivity.
Qed.

Lemma handleAccountChange_wallets JSON_parse st w accountInfo now post :
  monitoredWallets (handleAccountChange JSON_parse st w accountInfo now post)
  = monitoredWallets st.
Proof.
  unfold handleAccountChange.
  destruct (monitoredWallets st !! w); [|reflexivity].
  destruct (analyzeAccountChange now accountInfo); [|reflexivity].
  apply sendThreatAlert_wallets.
Qed.

Lemma handleTransactionLogs_wallets JSON_parse st w lg now fetch post :
  monitoredWallets (handleTransactionLogs JSON_parse st w lg now fetch post)
  = match monitoredWallets st !! w with
    | Some walletInfo => <[ w := touch walletInfo now ]> (monitoredWallets st)
    | None => monitoredWallets st
    end.
Proof.
  unfold handleTransactionLogs.
  destruct (monitoredWallets st !! w) as [info|]; [|reflexivity].
  destruct fetch as [|transaction]; simpl; [reflexivity|].
  destruct (analyzeTransaction _ now transaction lg); [|reflexivity].
  rewrite sendThreatAlert_wallets. reflexivity.
Qed.

Lemma handleTransactionLogs_callbacks JSON_parse st w lg now fetch post :
  threatCallbacks (handleTransactionLogs JSON_parse st w lg now fetch post)
  = threatCallbacks st.
Proof.
  unfold handleTransactionLogs.
  destruct (monitoredWallets st !! w) as [info|]; [|reflexivity].
  destruct fetch as [|transaction]; simpl; [reflexivity|].
  destruct (analyzeTransaction _ now transaction lg); [|reflexivity].
  rewrite sendThreatAlert_callbacks. reflexivity.
Qed.

Lemma healthCheckResume_wallets JSON_parse st w walletInfo accountInfo now post :
  monitoredWallets (healthCheckResume JSON_parse st w walletInfo accountInfo now post)
  = <[ w := setHadAccount walletInfo (bool_decide (is_Some accountInfo)) ]>
      (monitoredWallets st).
Proof.
  unfold healthCheckResume. simpl.
  destruct (_ && _); [rewrite sendThreatAlert_wallets|]; reflexivity.
Qed.



Lemma visit_tracks JSON_parse now rpc post l w during :
  Live.tracks l -> Live.tracks (Live.visit JSON_parse now rpc post l w during).
Proof.
  intros Ht. unfold Live.visit.
  destruct (monitoredWallets (Live.state l) !! w) as [info|] eqn:Hreg;
    [|exact Ht].
  set (l1 := if 300000 <? now - lastCheck info then _ else l).
  assert (Ht1 : Live.tracks l1).
  { subst l1. destruct (300000 <? now - lastCheck info); [|exact Ht].
    apply follow_tracks; [exact Ht|]. intros w' Hne. simpl.
    apply lookup_insert_ne. congruence. }
  clearbody l1. unfold Live.performHealthCheck.
  destruct (monitoredWallets (Live.state l1) !! w) as [info1|]; [|exact Ht1].
  assert (Ht2 : Live.tracks (match during with
                             | Some env => Live.stopMonitoring l1 w env
                             | None => l1
                             end)).
  { destruct during as [env|]; [|exact Ht1]. unfold Live.stopMonitoring.
    apply follow_tracks; [exact Ht1|]. intros w' Hne.
    apply stopMonitoring_other, Hne. }
  destruct (rpc w) as [|accountInfo]; simpl tryCatch; [exact Ht2|].
  apply follow_tracks; [exact Ht2|]. intros w' Hne.
  rewrite healthCheckResume_wallets. apply lookup_insert_ne. congruence.
Qed.

(** A visit that is not interrupted is the turn of the loop that runs to
    its end, and leaves the slots as they are. *)
Lemma visit_atomic JSON_parse now rpc post l w :
  Some w ∈ Live.slots l ->
  Live.visit JSON_parse now rpc post l w None
  = {| Live.state := sweepWallet JSON_parse now rpc post (Live.state l) w;
       Live.slots := Live.slots l |}.
Proof.
  intros Hw. destruct l as [st sl]. simpl in Hw.
  unfold Live.visit, sweepWallet. simpl.
  destruct (monitoredWallets st !! w) as [info|] eqn:Hreg; [|reflexivity].
  destruct (300000 <? now - lastCheck info); simpl;
    unfold Live.performHealthCheck, performHealthCheck; simpl.
  - rewrite lookup_insert_eq.
    rewrite (follow_present sl) by (try exact Hw; simpl; rewrite lookup_insert_eq; eauto).
    destruct (rpc w) as [|accountInfo]; simpl; [reflexivity|].
    f_equal. apply follow_present; [exact Hw|].
    rewrite healthCheckResume_wallets, lookup_insert_eq. eauto.
  - rewrite Hreg. destruct (rpc w) as [|accountInfo]; simpl; [reflexivity|].
    f_equal. apply follow_present; [exact Hw|].
    rewrite healthCheckResume_wallets, lookup_insert_eq. eauto.
Qed.

(** The loop without interruption runs the turns of the keys from the
    position on, in slot order. *)
Lemma sweepFrom_atomic JSON_parse now rpc post fuel :
  forall sched l cursor visited,
    Forall (fun during => during = None) sched ->
    (cursor <= length (Live.slots l))%nat ->
    (length (Live.slots l) < fuel + cursor)%nat ->
    Live.sweepFrom JSON_parse fuel now rpc post sched l cursor visited
    = Some ({| Live.state :=
                 foldl (sweepWallet JSON_parse now rpc post) (Live.state l)
                   (Live.keys (skipn cursor (Live.slots l)));
               Live.slots := Live.slots l |},
            (visited ++ Live.keys (skipn cursor (Live.slots l)))%list).
Proof.
  induction fuel as [|fuel IH]; intros sched l cursor visited Hs Hc Hf; [lia|].
  simpl. destruct (Live.slots l !! cursor) as [slot|] eqn:Hslot.
  - pose proof (lookup_lt_Some _ _ _ Hslot) as Hlt.
    rewrite (drop_S _ _ _ Hslot). destruct slot as [w|]; simpl.
    + assert (Hd : default None (head sched) = None).
      { destruct Hs as [|d sched' Hd _]; [reflexivity | exact Hd]. }
      rewrite Hd, visit_atomic by (eapply list_elem_of_lookup_2; exact Hslot).
      rewrite IH; simpl; [|destruct Hs; simpl; auto using Forall_nil|lia|lia].
      rewrite <- (assoc_L (++)). reflexivity.
    + apply IH; [exact Hs | lia | lia].
  - apply lookup_ge_None_1 in Hslot. rewrite drop_ge by exact Hslot.
    simpl. rewrite app_nil_r. destruct l; reflexivity.
Qed.


Lemma sweepFrom_tracks JSON_parse now rpc post fuel :
  forall sched l cursor visited l' visited',
    Live.tracks l ->
    Live.sweepFrom JSON_parse fuel now rpc post sched l cursor visited
    = Some (l', visited') ->
    Live.tracks l'.
Proof.
  induction fuel as [|fuel IH]; intros sched l cursor visited l' visited' Ht H;
    [discriminate|].
  simpl in H. destruct (Live.slots l !! cursor) as [[w|]|].
  - eapply IH; [|exact H]. apply visit_tracks, Ht.
  - eapply IH; eassumption.
  - injection H as <- _. exact Ht.
Qed.

Lemma tick_tracks JSON_parse now rpc post sched l :
  Live.tracks l -> Live.tracks (Live.tick JSON_parse now rpc post sched l).
Proof.
  intros Ht. unfold Live.tick, Live.performPeriodicChecks.
  destruct (Live.sweepFrom _ _ _ _ _ _ _ _ _) as [[l' v]|] eqn:E; [|exact Ht].
  eapply sweepFrom_tracks; eassumption.
Qed.

Lemma apply_tracks JSON_parse l c :
  Live.tracks l -> Live.tracks (Live.apply JSON_parse l c).
Proof.
  intros Ht. destruct c as [op|now rpc post sched]; [|apply tick_tracks, Ht].
  destruct op; simpl; try (apply tick_tracks, Ht);
    (apply follow_tracks; [exact Ht|]; intros w' Hne).
  - apply startMonitoring_other, Hne.
  - apply stopMonitoring_other, Hne.
  - rewrite handleAccountChange_wallets. reflexivity.
  - rewrite handleTransactionLogs_wallets.
    destruct (monitoredWallets (Live.state l) !! w); [|reflexivity].
    apply lookup_insert_ne. congruence.
Qed.

Lemma run_tracks JSON_parse key calls :
  Live.tracks (Live.run JSON_parse (Live.initial key) calls).
Proof.
  unfold Live.run.
  assert (H0 : Live.tracks (Live.initial key)).
  { split; [apply NoDup_nil_2|]. intros w. simpl. split.
    - intros H. apply elem_of_nil in H. contradiction.
    - rewrite lookup_empty. intros [? ?]. discriminate. }
  revert H0. generalize (Live.initial key).
  induction calls as [|c calls IH]; intros l Hl; simpl; [exact Hl|].
  apply IH, apply_tracks, Hl.
Qed.

(** A tick that is not interrupted, from the state it starts in. *)
Lemma tick_atomic JSON_parse now rpc post sched l :
  Forall (fun during => during = None) sched ->
  Live.performPeriodicChecks JSON_parse now rpc post sched l
  = Some ({| Live.state :=
               foldl (sweepWallet JSON_parse now rpc post) (Live.state l)
                 (Live.keys (Live.slots l));
             Live.slots := Live.slots l |},
          Live.keys (Live.slots l)).
Proof.
  intros Hs. unfold Live.performPeriodicChecks.
  rewrite sweepFrom_atomic by (try exact Hs; lia). reflexivity.
Qed.

(** ** Callbacks without an entry *)







(** ** C9: the sweep over the live registry *)


(** C9 fails as stated: the loop runs over the live registry. When
    [stopMonitoring] for the wallet under check ends while its account
    lookup is pending, the health check writes the entry back into a new
    slot at the end of the registry, and the same tick visits the wallet a
    second time. *)
Lemma wallet_visited_twice_in_one_tick :
  let l := Live.run parseEmptyObject (Live.initial None)
             [Live.Handler (OpStart wallet1 7 7 0 startOk)] in
  Live.keys (Live.slots l) = [wallet1] /\
  (snd <$> Live.performPeriodicChecks parseEmptyObject 9
             (fun _ => Returned (Some {| lamports := 5 |})) (fun _ => Threw)
             [Some stopOk] l)
  = Some [wallet1; wallet1].
Proof. split; vm_compute; reflexivity. Qed.

(** On the registry, a tick that is not interrupted is the fold of
    [performPeriodicChecks] over the registered wallets. *)
Lemma tick_registry JSON_parse key calls now rpc post :
  let l := Live.run JSON_parse (Live.initial key) calls in
  monitoredWallets (Live.state (Live.tick JSON_parse now rpc post [] l))
  = monitoredWallets (performPeriodicChecks JSON_parse (Live.state l) now rpc post).
Proof.
  intros l. destruct (run_tracks JSON_parse key calls) as [Hnd Hin]. fold l in Hnd, Hin.
  unfold Live.tick. rewrite tick_atomic by apply Forall_nil_2. simpl.
  unfold performPeriodicChecks. apply map_eq. intros w.
  rewrite (sweep_entry _ _ _ _ _ Hnd), (sweep_entry _ _ _ _ _ (registered_NoDup _)).
  assert (Hiff : bool_decide (w ∈ Live.keys (Live.slots l))
                 = bool_decide (w ∈ registered (Live.state l))).
  { apply bool_decide_ext. rewrite elem_of_keys, registered_elem. apply Hin. }
  rewrite Hiff. reflexivity.
Qed.

(** ** C10: registry and callback table, once the sweep is live *)


(** C10 fails as stated: [stopMonitoring] for the first wallet ends while
    the health check of that wallet awaits its account lookup; the health
    check writes the entry back into the registry, the callback stays
    deleted, and after the [startMonitoring] call for a second wallet the
    first wallet has a registry entry and no callback. *)
Lemma tables_disagree_after_interrupted_check :
  let st := Live.state
              (Live.run parseEmptyObject (Live.initial None)
                 [Live.Handler (OpStart wallet1 7 7 0 startOk);
                  Live.Tick 9 (fun _ => Returned (Some {| lamports := 5 |}))
                    (fun _ => Threw) [Some stopOk];
                  Live.Handler (OpStart wallet2 8 8 10 startOk)]) in
  bool_decide (is_Some (monitoredWallets st !! wallet1)) = true /\
  threatCallbacks st !! wallet1 = None /\
  threatCallbacks st !! wallet2 = Some 8 /\
  dom (monitoredWallets st) <> dom (threatCallbacks st).
Proof.
  intros st.
  assert (H1 : bool_decide (is_Some (monitoredWallets st !! wallet1)) = true)
    by (vm_compute; reflexivity).
  assert (H2 : threatCallbacks st !! wallet1 = None) by (vm_compute; reflexivity).
  split; [exact H1|]. split; [exact H2|].
  split; [vm_compute; reflexivity|].
  intros Heq. apply bool_decide_eq_true_1 in H1.
  apply elem_of_dom in H1. rewrite Heq in H1. apply elem_of_dom in H1.
  rewrite H2 in H1. destruct H1 as [? ?]. discriminate.
Qed.

(** The failure paths of the two lifecycle calls, run: a rejected address
    touches neither table, a subscription that throws leaves the wallet in
    both, an unsubscribe that throws leaves the wallet in both, and a stop
    that goes through removes it from both. *)
Example lifecycle_failure_paths :
  let rejected := fst (startMonitoring (initialState None) wallet1 7 7 0
                         {| keyValid := false; onAccountChange := Returned 1;
                            onLogs := Returned 2 |}) in
  let halfway := fst (startMonitoring (initialState None) wallet1 7 7 0
                        {| keyValid := true; onAccountChange := Returned 1;
                           onLogs := Threw |}) in
  let stuck := stopMonitoring watching1 wallet1
                 {| removeAccountChangeListener := Threw;
                    removeOnLogsListener := Returned tt |} in
  let stopped := stopMonitoring watching1 wallet1 stopOk in
  (monitoredWallets rejected !! wallet1 = None /\
   threatCallbacks rejected !! wallet1 = None) /\
  (is_Some (monitoredWallets halfway !! wallet1) /\
   threatCallbacks halfway !! wallet1 = Some 7) /\
  (is_Some (monitoredWallets stuck !! wallet1) /\
   threatCallbacks stuck !! wallet1 = Some 7) /\
  (monitoredWallets stopped !! wallet1 = None /\
   threatCallbacks stopped !! wallet1 = None).
Proof. repeat split; vm_compute; eauto. Qed.

(** The calls above run to their end. [performHealthCheck] writes the entry
    it read before [await getAccountInfo] back into the registry afterwards:
    when the wallet is unwatched while the lookup is in flight, the entry
    returns to the registry without a callback. *)
Example health_check_resumed_after_stop :
  let stopped := stopMonitoring watching1 wallet1 stopOk in
  let resumed :=
    (fun walletInfo =>
       healthCheckResume parseEmptyObject stopped wallet1 walletInfo
         (Some {| lamports := 5 |}) 9 Threw)
      <$> monitoredWallets watching1 !! wallet1 in
  tablesAgree stopped /\
  ((fun st => bool_decide (is_Some (monitoredWallets st !! wallet1))) <$> resumed)
    = Some true /\
  ((fun st => threatCallbacks st !! wallet1) <$> resumed) = Some None.
Proof. repeat split; vm_compute; reflexivity. Qed.

(** * Properties of the rest of the engine *)

(** ** The log scan accumulates *)

Lemma grows_refl a : grows a a.
Proof. split; [lia | auto]. Qed.

Lemma grows_trans a b c : grows a b -> grows b c -> grows a c.
Proof. intros [H1 H2] [H3 H4]. split; [lia | auto]. Qed.

Lemma hit_grows label w a : 0 <= w -> grows a (hit label w a).
Proof.
  intros Hw. split; simpl; [lia|]. intros l Hl. apply elem_of_app. auto.
Qed.

Lemma hitIf_grows c label w a : 0 <= w -> grows a (hitIf c label w a).
Proof. intros Hw. destruct c; [apply hit_grows, Hw | apply grows_refl]. Qed.

Lemma hit_fires label w a b :
  grows (hit label w a) b -> label ∈ accThreats b /\ accScore a + w <= accScore b.
Proof.
  intros [H1 H2]. simpl in *. split; [|exact H1].
  apply H2, elem_of_app. right. apply list_elem_of_singleton. reflexivity.
Qed.

Ltac grows_chain :=
  repeat first [ apply grows_refl
               | eapply grows_trans; [|apply hitIf_grows; lia] ].

Lemma scanLine_rules s a :
  scanLine s a
  = hitIf (approvalRule s) "Token approval detected - potential drainer" 50
      (hitIf (detectSuspiciousProgram s) "Interaction with flagged program" 80
         (hitIf (largeTransferRule s) "Large token transfer detected" 40
            (hitIf (unknownProgramRule s) "Interaction with unknown program" 30
               (hitIf (authorityRule s) "Token authority transfer detected" 60 a)))).
Proof. reflexivity. Qed.

Lemma scanLine_grows s a : grows a (scanLine s a).
Proof. rewrite scanLine_rules. grows_chain. Qed.

Lemma scanLine_authority s a :
  authorityRule s = true ->
  "Token authority transfer detected" ∈ accThreats (scanLine s a) /\
  accScore a + 60 <= accScore (scanLine s a).
Proof.
  intros H. rewrite scanLine_rules, H. apply hit_fires. simpl hitIf at 5.
  grows_chain.
Qed.

Lemma scanLine_flagged s a :
  detectSuspiciousProgram s = true ->
  "Interaction with flagged program" ∈ accThreats (scanLine s a) /\
  accScore a + 80 <= accScore (scanLine s a).
Proof.
  intros H. rewrite scanLine_rules, H.
  set (a3 := hitIf (largeTransferRule s) _ _ _).
  assert (Ha3 : grows a a3) by (subst a3; grows_chain).
  assert (Hf : grows (hit "Interaction with flagged program" 80 a3)
                 (hitIf (approvalRule s) "Token approval detected - potential drainer" 50
                    (hitIf true "Interaction with flagged program" 80 a3)))
    by grows_chain.
  apply hit_fires in Hf as [Hl Hs]. split; [exact Hl|]. destruct Ha3. lia.
Qed.

Lemma scanLine_approval s a :
  approvalRule s = true ->
  "Token approval detected - potential drainer" ∈ accThreats (scanLine s a) /\
  accScore a + 50 <= accScore (scanLine s a).
Proof.
  intros H. rewrite scanLine_rules, H.
  set (a4 := hitIf (detectSuspiciousProgram s) _ _ _).
  assert (Ha4 : grows a a4) by (subst a4; grows_chain).
  assert (Hf : grows (hit "Token approval detected - potential drainer" 50 a4)
                 (hitIf true "Token approval detected - potential drainer" 50 a4))
    by apply grows_refl.
  apply hit_fires in Hf as [Hl Hs]. split; [exact Hl|]. destruct Ha4. lia.
Qed.

Lemma scanLogs_grows ls :
  forall a, match scanLogs ls a with Done b => grows a b | Raised b => grows a b end.
Proof.
  induction ls as [|[s|] ls IH]; intros a; simpl; try apply grows_refl.
  specialize (IH (scanLine s a)).
  destruct (scanLogs ls (scanLine s a));
    (eapply grows_trans; [apply scanLine_grows | exact IH]).
Qed.

Lemma scanBalances_grows post :
  forall pre a, grows a (scanBalances post pre a).
Proof.
  induction post as [|p post IH]; intros pre a; simpl; [apply grows_refl|].
  eapply grows_trans; [|apply IH]. apply hitIf_grows. lia.
Qed.

Lemma scanStructure_grows tx a : grows a (scanStructure tx a).
Proof.
  unfold scanStructure. destruct (meta tx) as [m|]; [|apply grows_refl].
  eapply grows_trans; [|apply scanBalances_grows]. grows_chain.
Qed.

Lemma scanFrequency_grows wi now a : grows a (scanFrequency wi now a).
Proof.
  unfold scanFrequency. destruct wi as [w|]; [|apply grows_refl].
  destruct (5 <? transactionCount w); [|apply grows_refl].
  apply hitIf_grows. lia.
Qed.

Lemma scanLogs_strings pre :
  forall rest a,
    scanLogs (map LogStr pre ++ rest)%list a = scanLogs rest (scanLines pre a).
Proof.
  induction pre as [|s pre IH]; intros rest a; simpl; [reflexivity|]. apply IH.
Qed.

Lemma scanLines_scored pre : forall a, scored a -> scored (scanLines pre a).
Proof.
  induction pre as [|s pre IH]; intros a H; simpl; [exact H|].
  apply IH, scanLine_scored, H.
Qed.

(** The evaluation holds what the scan of a string entry found, when the
    entries before it are strings. *)
Lemma evaluateTransaction_grows wi now tx lg pre s rest :
  logs lg = Some (map LogStr pre ++ LogStr s :: rest)%list ->
  grows (scanLine s (scanLines pre acc0)) (evaluateTransaction wi now tx lg).
Proof.
  intros H. unfold evaluateTransaction, tryAnalysis. rewrite H. simpl default.
  rewrite scanLogs_strings. simpl scanLogs.
  pose proof (scanLogs_grows rest (scanLine s (scanLines pre acc0))) as Hg.
  destruct (scanLogs rest (scanLine s (scanLines pre acc0))) as [b|b].
  - eapply grows_trans; [exact Hg|].
    eapply grows_trans; [apply scanStructure_grows | apply scanFrequency_grows].
  - eapply grows_trans; [exact Hg | apply hit_grows; lia].
Qed.

Lemma analyzeTransaction_reports wi now tx lg label w :
  label ∈ accThreats (evaluateTransaction wi now tx lg) ->
  w <= accScore (evaluateTransaction wi now tx lg) -> 40 < w ->
  exists t, analyzeTransaction wi now (Some tx) lg = Some t /\
            label ∈ threats t /\ w <= riskScore t /\
            type t = severityOf (riskScore t).
Proof.
  intros Hl Hs Hw. unfold analyzeTransaction.
  destruct (40 <? accScore (evaluateTransaction wi now tx lg)) eqn:E; [|lia].
  eexists. split; [reflexivity|]. simpl. auto.
Qed.

(** X1: a log line with a block-list term, with authority and transfer
    language, or with approval language makes the transaction scorer return
    a threat that lists the finding, whatever else the event holds, when
    the entries before the line are strings; the block-list threat is
    CRITICAL. *)
Theorem strong_rules_always_report
    (wi : option WalletInfo) (now : Z) (tx : Transaction) (lg : Logs)
    (pre : list string) (s : string) (rest : list LogEntry)
    (H : logs lg = Some (map LogStr pre ++ LogStr s :: rest)%list) :
  (detectSuspiciousProgram s = true ->
   exists t, analyzeTransaction wi now (Some tx) lg = Some t /\
     "Interaction with flagged program" ∈ threats t /\
     80 <= riskScore t /\ type t = CRITICAL) /\
  (authorityRule s = true ->
   exists t, analyzeTransaction wi now (Some tx) lg = Some t /\
     "Token authority transfer detected" ∈ threats t /\ 60 <= riskScore t) /\
  (approvalRule s = true ->
   exists t, analyzeTransaction wi now (Some tx) lg = Some t /\
     "Token approval detected - potential drainer" ∈ threats t /\
     50 <= riskScore t).
Proof.
  pose proof (evaluateTransaction_grows wi now tx lg pre s rest H) as [Hs Hl].
  pose proof (scored_nonneg _ (scanLines_scored pre acc0 scored_acc0)) as H0.
  split; [|split]; intros Hr.
  - destruct (scanLine_flagged s (scanLines pre acc0) Hr) as [Hin Hsc].
    destruct (analyzeTransaction_reports wi now tx lg
                "Interaction with flagged program" 80) as (t & Ht & Hlt & Hst & Hty);
      [apply Hl, Hin | lia | lia |].
    exists t. repeat split; try assumption.
    rewrite Hty. unfold severityOf. destruct (70 <=? riskScore t) eqn:E; [reflexivity | lia].
  - destruct (scanLine_authority s (scanLines pre acc0) Hr) as [Hin Hsc].
    destruct (analyzeTransaction_reports wi now tx lg
                "Token authority transfer detected" 60) as (t & Ht & Hlt & Hst & _);
      [apply Hl, Hin | lia | lia |].
    exists t. auto.
  - destruct (scanLine_approval s (scanLines pre acc0) Hr) as [Hin Hsc].
    destruct (analyzeTransaction_reports wi now tx lg
                "Token approval detected - potential drainer" 50) as (t & Ht & Hlt & Hst & _);
      [apply Hl, Hin | lia | lia |].
    exists t. auto.
Qed.

Lemma strong_rules_always_report_witness :
  (detectSuspiciousProgram "Program invoke: SomeDrainerProgram" = true ->
   exists t, analyzeTransaction None 0 (Some plainTx) drainerLogs = Some t /\
     "Interaction with flagged program" ∈ threats t /\
     80 <= riskScore t /\ type t = CRITICAL) /\
  (authorityRule "Program invoke: SomeDrainerProgram" = true ->
   exists t, analyzeTransaction None 0 (Some plainTx) drainerLogs = Some t /\
     "Token authority transfer detected" ∈ threats t /\ 60 <= riskScore t) /\
  (approvalRule "Program invoke: SomeDrainerProgram" = true ->
   exists t, analyzeTransaction None 0 (Some plainTx) drainerLogs = Some t /\
     "Token approval detected - potential drainer" ∈ threats t /\
     50 <= riskScore t).
Proof.
  apply (strong_rules_always_report None 0 plainTx drainerLogs []
           "Program invoke: SomeDrainerProgram"
           [LogStr "Instruction: approve allowance 500000"]).
  reflexivity.
Defined.

(** X2: a transaction whose one log line fires only the large-transfer
    rule, or only the unknown-program rule, raises no threat when nothing
    in its structure and frequency adds to the score: 40 is not above the
    reporting threshold. *)
Theorem lone_weak_finding_is_suppressed
    (wi : option WalletInfo) (now : Z) (tx : Transaction) (sig : option string)
    (s : string)
    (Hmeta : meta tx = None)
    (Hcount : match wi with Some i => transactionCount i <= 5 | None => True end)
    (Hauth : authorityRule s = false)
    (Hflag : detectSuspiciousProgram s = false)
    (Happr : approvalRule s = false)
    (Hone : unknownProgramRule s && largeTransferRule s = false) :
  analyzeTransaction wi now (Some tx) {| signature := sig; logs := Some [LogStr s] |}
  = None.
Proof.
  unfold analyzeTransaction, evaluateTransaction, tryAnalysis. simpl.
  rewrite scanLine_rules, Hauth, Hflag, Happr.
  unfold scanStructure. rewrite Hmeta.
  assert (Hfreq : forall a, scanFrequency wi now a = a).
  { intros a. unfold scanFrequency. destruct wi as [i|]; [|reflexivity].
    destruct (5 <? transactionCount i) eqn:E; [lia | reflexivity]. }
  rewrite Hfreq.
  destruct (unknownProgramRule s), (largeTransferRule s);
    try discriminate Hone; reflexivity.
Qed.

Lemma lone_weak_finding_is_suppressed_witness :
  analyzeTransaction None 0 (Some plainTx)
    {| signature := Some "sig4";
       logs := Some [LogStr "Transfer of 2500000 lamports"] |}
  = None.
Proof.
  apply (lone_weak_finding_is_suppressed None 0 plainTx (Some "sig4")
           "Transfer of 2500000 lamports"); first [reflexivity | exact I].
Defined.

Lemma scanBalances_score post :
  forall pre a,
    accScore (scanBalances post pre a)
    = accScore a + 30 * Z.of_nat (bigDrops post pre) /\
    length (accThreats (scanBalances post pre a))
    = (length (accThreats a) + bigDrops post pre)%nat.
Proof.
  induction post as [|p post IH]; intros pre a; simpl; [split; lia|].
  destruct (IH (tl pre)
              (hitIf (p - hd 0 pre <? -1000000)
                     "Significant SOL balance decrease" 30 a)) as [H1 H2].
  rewrite H1, H2. destruct (p - hd 0 pre <? -1000000); simpl;
    [rewrite length_app; simpl|]; split; lia.
Qed.

(** X3: the structural checks add 20 for a failed transaction, 25 for more
    than ten account keys, and 30 for every index whose balance fell by
    more than 1000000 lamports, with one finding each; drops are counted
    per index, so their share of the score has no bound; without
    transaction metadata they add nothing. *)
Theorem structure_score_counts_drops (tx : Transaction) (a : Acc) :
  accScore (scanStructure tx a)
  = accScore a +
    match meta tx with
    | None => 0
    | Some m =>
        (if err m then 20 else 0)
        + (if 10 <? Z.of_nat (length (accountKeys tx)) then 25 else 0)
        + 30 * Z.of_nat (bigDrops (postBalances m) (preBalances m))
    end /\
  length (accThreats (scanStructure tx a))
  = (length (accThreats a) +
     match meta tx with
     | None => 0
     | Some m =>
         (if err m then 1 else 0)
         + (if (10 <? Z.of_nat (length (accountKeys tx)))%Z then 1 else 0)
         + bigDrops (postBalances m) (preBalances m)
     end)%nat.
Proof.
  unfold scanStructure. destruct (meta tx) as [m|]; [|split; lia].
  match goal with
  | |- context [scanBalances ?po ?pr ?b] =>
      destruct (scanBalances_score po pr b) as [H1 H2]; rewrite H1, H2
  end.
  destruct (err m), (10 <? Z.of_nat (length (accountKeys tx))); simpl;
    rewrite ?length_app; simpl; split; lia.
Qed.

(** X4: a log entry that is not a string ends the analysis of a present
    transaction: the findings of the string entries before it stay, the
    analysis-error finding adds 10, and the entries after it, the
    structural checks and the frequency check have no part in the result. *)
Theorem non_string_entry_ends_analysis
    (wi : option WalletInfo) (now : Z) (tx : Transaction) (lg : Logs)
    (pre : list string) (rest : list LogEntry)
    (H : logs lg = Some (map LogStr pre ++ LogOther :: rest)%list) :
  evaluateTransaction wi now tx lg
  = hit "Analysis error occurred" 10 (scanLines pre acc0).
Proof.
  unfold evaluateTransaction, tryAnalysis. rewrite H. simpl default.
  rewrite scanLogs_strings. reflexivity.
Qed.

Lemma non_string_entry_ends_analysis_witness :
  evaluateTransaction None 0
    {| meta := Some {| err := true; postBalances := [0]; preBalances := [5000000] |};
       accountKeys := [] |}
    {| signature := None;
       logs := Some [LogStr "Instruction: approve"; LogOther; LogStr "drainer"] |}
  = hit "Analysis error occurred" 10 (scanLines ["Instruction: approve"] acc0).
Proof.
  apply (non_string_entry_ends_analysis None 0 _ _ ["Instruction: approve"]
           [LogStr "drainer"]).
  reflexivity.
Defined.

Lemma handleTransactionLogs_isMonitoring JSON_parse st w lg now fetch post :
  isMonitoring (handleTransactionLogs JSON_parse st w lg now fetch post)
  = isMonitoring st.
Proof.
  unfold handleTransactionLogs.
  destruct (monitoredWallets st !! w) as [info|]; [|reflexivity].
  destruct fetch as [|transaction]; simpl; [reflexivity|].
  destruct (analyzeTransaction _ now transaction lg); [|reflexivity].
  unfold sendThreatAlert. simpl. destruct (threatCallbacks st !! w); reflexivity.
Qed.

Lemma handleTransactionLogs_unwatched JSON_parse st w lg now fetch post :
  monitoredWallets st !! w = None ->
  handleTransactionLogs JSON_parse st w lg now fetch post = st.
Proof. intros H. unfold handleTransactionLogs. rewrite H. reflexivity. Qed.

(** X5: every log event of a watched wallet is counted, whether or not its
    transaction could be fetched and whatever its analysis found: after n
    events the transaction count of the wallet is n higher and its last
    activity is the time of the last event, while the user, the start of
    the window, the subscriptions and the existence flag of the entry, the
    entries of the other wallets, the callback table and the
    periodic-check flag are as before. Events of a wallet that is not
    watched change nothing at all. *)
Theorem log_events_are_counted
    (JSON_parse : string -> option AIAnalysis) (st : State) (w : string)
    (events : list LogEvent) :
  let st' := handleLogEvents JSON_parse st w events in
  match monitoredWallets st !! w with
  | None => st' = st
  | Some walletInfo =>
      (exists walletInfo',
         monitoredWallets st' !! w = Some walletInfo' /\
         transactionCount walletInfo'
         = transactionCount walletInfo + Z.of_nat (length events) /\
         lastActivity walletInfo'
         = match last events with
           | Some e => Some (evNow e)
           | None => lastActivity walletInfo
           end /\
         userId walletInfo' = userId walletInfo /\
         lastCheck walletInfo' = lastCheck walletInfo /\
         subscriptionId walletInfo' = subscriptionId walletInfo /\
         logsSubscriptionId walletInfo' = logsSubscriptionId walletInfo /\
         hadAccount walletInfo' = hadAccount walletInfo) /\
      (forall w', w' <> w ->
         monitoredWallets st' !! w' = monitoredWallets st !! w') /\
      threatCallbacks st' = threatCallbacks st /\
      isMonitoring st' = isMonitoring st
  end.
Proof.
  intros st'. subst st'. unfold handleLogEvents.
  destruct (monitoredWallets st !! w) as [info|] eqn:Hw.
  - revert st info Hw.
    induction events as [|e events IH]; intros st info Hw.
    + simpl. split; [|auto]. exists info. rewrite Z.add_0_r. auto 10.
    + cbn [foldl].
      set (st1 := handleTransactionLogs JSON_parse st w (evLogs e) (evNow e)
                    (evFetch e) (evPost e)).
      assert (H1 : monitoredWallets st1
                   = <[ w := touch info (evNow e) ]> (monitoredWallets st)).
      { subst st1. rewrite handleTransactionLogs_wallets, Hw. reflexivity. }
      assert (Hw1 : monitoredWallets st1 !! w = Some (touch info (evNow e))).
      { rewrite H1. apply lookup_insert_eq. }
      destruct (IH st1 _ Hw1) as [[info' [Hi [Hc [Ha Hrest]]]] [Ho [Hcb Hm]]].
      split; [|split; [|split]].
      * exists info'. split; [exact Hi|]. split.
        { rewrite Hc. simpl. rewrite Nat2Z.inj_succ. lia. }
        split; [|exact Hrest].
        rewrite Ha. destruct events as [|e' events]; [reflexivity|].
        change (last (e :: e' :: events)) with (last (e' :: events)).
        destruct (last (e' :: events)) eqn:E; [reflexivity|].
        apply last_None in E. discriminate.
      * intros w' Hne. rewrite Ho by exact Hne. rewrite H1.
        apply lookup_insert_ne. congruence.
      * rewrite Hcb. apply handleTransactionLogs_callbacks.
      * rewrite Hm. apply handleTransactionLogs_isMonitoring.
  - revert st Hw. induction events as [|e events IH]; intros st Hw; simpl;
      [reflexivity|].
    rewrite handleTransactionLogs_unwatched by exact Hw. apply IH, Hw.
Qed.

(** ** The merge, once more *)

Lemma combineThreat_ge profiles b ai w now :
  riskScore b <= riskScore (combineThreat profiles b ai w now).
Proof.
  unfold combineThreat. cbn [riskScore].
  assert (H : riskScore b <= match ai with
                             | Some a => aiAdjust a (riskScore b)
                             | None => riskScore b
                             end).
  { destruct ai as [a|]; [apply aiAdjust_ge | lia]. }
  destruct (matchKnownThreats _); lia.
Qed.

Lemma finding_labels_quiet ths :
  Forall (fun l => isFindingLabel l = true) ths ->
  Forall (fun t => quiet t = true) ths.
Proof. intros H. eapply Forall_impl; [exact H|]. intros t. apply isFindingLabel_quiet. Qed.

Lemma combineThreat_unenriched profiles b w now :
  Forall (fun l => isFindingLabel l = true) (threats b) ->
  riskScore (combineThreat profiles b None w now) = riskScore b.
Proof.
  intros H. unfold combineThreat. cbn [riskScore].
  rewrite (matchKnownThreats_quiet _ (finding_labels_quiet _ H)). reflexivity.
Qed.

(** X6: an account-change event that reports the account absent, or
    present with zero lamports, for a watched wallet with a callback puts
    one CRITICAL alert into the sink. With zero lamports the critical
    follow-up message follows it. With the account absent and no AI key
    configured the alert has score 70, which is below the 80 the follow-up
    asks for, so the alert stands alone. *)
Theorem account_alert_shape
    (JSON_parse : string -> option AIAnalysis) (st : State) (w : string)
    (now : Z) (post : Outcome string) (uid : Z) (info : WalletInfo)
    (accountInfo : option AccountInfo)
    (Hw : monitoredWallets st !! w = Some info)
    (Hc : threatCallbacks st !! w = Some uid)
    (Ha : match accountInfo with None => True | Some i => lamports i = 0 end) :
  let st' := handleAccountChange JSON_parse st w accountInfo now post in
  exists e,
    type e = CRITICAL /\ source e = AccountChange /\ 70 <= riskScore e /\
    match accountInfo with
    | Some _ =>
        outbox st' = (outbox st ++ [AlertMessage uid w e; CriticalMessage uid])%list
    | None =>
        outbox st' = (outbox st ++ AlertMessage uid w e
                        :: (if 80 <=? riskScore e then [CriticalMessage uid] else []))%list /\
        (if keyConfigured (openaiApiKey st) then True
         else riskScore e = 70 /\
              outbox st' = (outbox st ++ [AlertMessage uid w e])%list)
    end.
Proof.
  intros st'. subst st'. unfold handleAccountChange. rewrite Hw.
  destruct accountInfo as [i|].
  - unfold analyzeAccountChange, evaluateAccountSnapshot. rewrite Ha. simpl.
    unfold sendThreatAlert. rewrite Hc.
    unfold handleThreatDetected, analyzeTransactionWithAI. cbn [outbox].
    match goal with
    | |- context [AlertMessage uid w ?e] => exists e; set (x := e)
    end.
    assert (Hge : 80 <= riskScore x).
    { subst x.
      match goal with
      | |- _ <= riskScore (combineThreat ?p ?b ?a ?w ?n) =>
          pose proof (combineThreat_ge p b a w n) as Hx;
          assert (Hb : riskScore b = 80) by reflexivity; lia
      end. }
    repeat split; try lia.
    destruct (80 <=? riskScore x) eqn:E; [reflexivity | lia].
  - unfold analyzeAccountChange, evaluateAccountSnapshot. simpl.
    unfold sendThreatAlert. rewrite Hc.
    unfold handleThreatDetected, analyzeTransactionWithAI. cbn [outbox].
    match goal with
    | |- context [AlertMessage uid w ?e] => exists e; set (x := e)
    end.
    assert (Hge : 70 <= riskScore x).
    { subst x.
      match goal with
      | |- _ <= riskScore (combineThreat ?p ?b ?a ?w ?n) =>
          pose proof (combineThreat_ge p b a w n) as Hx;
          assert (Hb : riskScore b = 70) by reflexivity; lia
      end. }
    repeat split; try lia.
    destruct (keyConfigured (openaiApiKey st)) eqn:Ek; [exact I|].
    assert (Hs : riskScore x = 70).
    { subst x. rewrite ?Ek. apply combineThreat_unenriched. simpl.
      repeat constructor. }
    split; [exact Hs|]. rewrite Hs. reflexivity.
Qed.

Lemma account_alert_shape_witness :
  let st' := handleAccountChange parseEmptyObject watching1 wallet1 None 5 Threw in
  exists e,
    type e = CRITICAL /\ source e = AccountChange /\ 70 <= riskScore e /\
    outbox st' = (outbox watching1 ++ AlertMessage 7 wallet1 e
                    :: (if 80 <=? riskScore e then [CriticalMessage 7] else []))%list /\
    (if keyConfigured (openaiApiKey watching1) then True
     else riskScore e = 70 /\
          outbox st' = (outbox watching1 ++ [AlertMessage 7 wallet1 e])%list).
Proof.
  eapply (account_alert_shape parseEmptyObject watching1 wallet1 5 Threw 7 _ None);
    first [reflexivity | exact I].
Defined.

(** ** Monitoring statistics *)

(** X7: [getMonitoringStats] lists one entry per registered wallet.
    [startMonitoring] adds one wallet to the count when the address is
    accepted and was not registered, and none otherwise; with an accepted
    address the wallet ends registered with its callback also when a
    subscription throws and the call returns false. [stopMonitoring] either
    changes nothing or takes the wallet out of both tables, and takes one
    off the count when the wallet was registered and both unsubscribe
    calls succeed. *)
Theorem monitoring_stats_follow_lifecycle
    (st : State) (w : string) (uid cb now : Z) (env : StartEnv) (senv : StopEnv) :
  let n := totalWallets (getMonitoringStats st) in
  let started := fst (startMonitoring st w uid cb now env) in
  let stopped := stopMonitoring st w senv in
  length (wallets (getMonitoringStats st)) = n /\
  totalWallets (getMonitoringStats started)
    = (if keyValid env && negb (bool_decide (is_Some (monitoredWallets st !! w)))
       then S n else n) /\
  (if keyValid env
   then is_Some (monitoredWallets started !! w) /\
        threatCallbacks started !! w = Some cb
   else started = st) /\
  (stopped = st \/
   (monitoredWallets stopped !! w = None /\ threatCallbacks stopped !! w = None)) /\
  (removeAccountChangeListener senv = Returned tt ->
   removeOnLogsListener senv = Returned tt ->
   totalWallets (getMonitoringStats stopped)
     = (if bool_decide (is_Some (monitoredWallets st !! w)) then pred n else n) /\
   monitoredWallets stopped !! w = None).
Proof.
  intros n started stopped. subst n started stopped.
  unfold getMonitoringStats. cbn [totalWallets wallets].
  split; [rewrite length_fmap; apply length_map_to_list|].
  assert (Hsz : forall (m : gmap string WalletInfo) v v',
            size (<[w:=v]> (<[w:=v']> m)) = size (<[w:=v']> m)).
  { intros m v v'. rewrite insert_insert_eq, !map_size_insert.
    reflexivity. }
  split; [|split; [|split]].
  - unfold startMonitoring, startPeriodicChecks.
    destruct (keyValid env); simpl; [|reflexivity].
    assert (Hone : forall v, size (<[w:=v]> (monitoredWallets st))
              = if negb (bool_decide (is_Some (monitoredWallets st !! w)))
                then S (size (monitoredWallets st)) else size (monitoredWallets st)).
    { intros v. rewrite map_size_insert. case_bool_decide as Hd; simpl.
      - destruct Hd as [x Hx]. rewrite Hx. reflexivity.
      - destruct (monitoredWallets st !! w) eqn:E; [|reflexivity].
        exfalso. apply Hd. eauto. }
    destruct (onAccountChange env); simpl; [apply Hone|].
    destruct (onLogs env); simpl; [apply Hone|].
    destruct (isMonitoring st); simpl; rewrite Hsz; apply Hone.
  - unfold startMonitoring, startPeriodicChecks.
    destruct (keyValid env); simpl; [|reflexivity].
    destruct (onAccountChange env); simpl.
    { rewrite !lookup_insert_eq. eauto. }
    destruct (onLogs env); simpl.
    { rewrite !lookup_insert_eq. eauto. }
    destruct (isMonitoring st); simpl; rewrite !lookup_insert_eq; eauto.
  - unfold stopMonitoring.
    destruct (monitoredWallets st !! w) as [i|]; [|left; reflexivity].
    destruct (whenId (subscriptionId i) _); simpl; [left; reflexivity|].
    destruct (whenId (logsSubscriptionId i) _); simpl; [left; reflexivity|].
    right. rewrite !lookup_delete_eq. auto.
  - intros H1 H2. unfold stopMonitoring, whenId. rewrite H1, H2.
    case_bool_decide as Hd.
    + destruct Hd as [i E]. rewrite E.
      destruct (truthyId (subscriptionId i)), (truthyId (logsSubscriptionId i));
        simpl; rewrite map_size_delete, E, lookup_delete_eq; auto.
    + destruct (monitoredWallets st !! w) eqn:E; [exfalso; apply Hd; eauto|].
      auto.
Qed.

(** ** The periodic-check flag *)

Lemma sendThreatAlert_isMonitoring JSON_parse st w t now post :
  isMonitoring (sendThreatAlert JSON_parse st w t now post) = isMonitoring st.
Proof. unfold sendThreatAlert. destruct (threatCallbacks st !! w); reflexivity. Qed.

Lemma sweepWallet_isMonitoring JSON_parse now rpc post st w :
  isMonitoring (sweepWallet JSON_parse now rpc post st w) = isMonitoring st.
Proof.
  unfold sweepWallet, performHealthCheck, healthCheckResume.
  destruct (monitoredWallets st !! w) as [info|]; [|reflexivity].
  destruct (300000 <? now - lastCheck info); simpl.
  - rewrite lookup_insert_eq. destruct (rpc w); simpl; [reflexivity|].
    destruct (_ && _); [rewrite sendThreatAlert_isMonitoring|]; reflexivity.
  - destruct (monitoredWallets st !! w); [|reflexivity].
    destruct (rpc w); simpl; [reflexivity|].
    destruct (_ && _); [rewrite sendThreatAlert_isMonitoring|]; reflexivity.
Qed.

Lemma applyOp_isMonitoring JSON_parse st op :
  isMonitoring st = true -> isMonitoring (applyOp JSON_parse st op) = true.
Proof.
  intros H. destruct op; simpl.
  - unfold startMonitoring, startPeriodicChecks.
    destruct (keyValid env); simpl; [|exact H].
    destruct (onAccountChange env); simpl; [exact H|].
    destruct (onLogs env); simpl; [exact H|].
    rewrite H. simpl. exact H.
  - unfold stopMonitoring. destruct (monitoredWallets st !! w) as [i|]; [|exact H].
    destruct (whenId (subscriptionId i) _); simpl; [exact H|].
    destruct (whenId (logsSubscriptionId i) _); simpl; exact H.
  - unfold handleAccountChange. destruct (monitoredWallets st !! w); [|exact H].
    destruct (analyzeAccountChange now accountInfo); [|exact H].
    rewrite sendThreatAlert_isMonitoring. exact H.
  - unfold handleTransactionLogs.
    destruct (monitoredWallets st !! w) as [i|]; [|exact H].
    destruct fetch as [|transaction]; simpl; [exact H|].
    destruct (analyzeTransaction _ now transaction lg); [|exact H].
    rewrite sendThreatAlert_isMonitoring. exact H.
  - unfold performPeriodicChecks. generalize (registered st).
    intros l. revert st H. induction l as [|x l IH]; intros st H; simpl; [exact H|].
    apply IH. rewrite sweepWallet_isMonitoring. exact H.
Qed.

(** X8: a [startMonitoring] that returns true leaves the periodic checks
    switched on, and nothing the engine does afterwards switches them off,
    not even stopping every wallet. *)
Theorem periodic_checks_stay_on
    (JSON_parse : string -> option AIAnalysis) (st : State) (w : string)
    (uid cb now : Z) (env : StartEnv) (ops : list Op)
    (H : snd (startMonitoring st w uid cb now env) = true) :
  isMonitoring (run JSON_parse (fst (startMonitoring st w uid cb now env)) ops) = true.
Proof.
  assert (H0 : isMonitoring (fst (startMonitoring st w uid cb now env)) = true).
  { revert H. unfold startMonitoring, startPeriodicChecks.
    destruct (keyValid env); simpl; [|discriminate].
    destruct (onAccountChange env); simpl; [discriminate|].
    destruct (onLogs env); simpl; [discriminate|].
    intros _. destruct (isMonitoring st) eqn:E; simpl; [exact E | reflexivity]. }
  revert H0. generalize (fst (startMonitoring st w uid cb now env)).
  unfold run. induction ops as [|op ops IH]; intros s Hs; simpl; [exact Hs|].
  apply IH, applyOp_isMonitoring, Hs.
Qed.

Lemma periodic_checks_stay_on_witness :
  isMonitoring
    (run parseEmptyObject
       (fst (startMonitoring (initialState None) wallet1 7 7 0 startOk))
       [OpStop wallet1 stopOk]) = true.
Proof.
  apply (periodic_checks_stay_on parseEmptyObject (initialState None) wallet1
           7 7 0 startOk [OpStop wallet1 stopOk]).
  reflexivity.
Defined.

(** ** More on the sweep *)

(** X9: after a sweep tick at time [now], every registry entry is the
    entry of a wallet registered before the tick, for the same user and
    with the same subscriptions, and its window is at most five minutes
    old: an entry whose window had expired has its transaction count back
    at 0 and its window started at [now], any other keeps count and
    window. *)
Theorem sweep_keeps_windows_fresh
    (JSON_parse : string -> option AIAnalysis) (st : State) (now : Z)
    (rpc : string -> Outcome (option AccountInfo))
    (post : string -> Outcome string) (w : string) (info' : WalletInfo)
    (H : monitoredWallets (performPeriodicChecks JSON_parse st now rpc post) !! w
         = Some info') :
  now - lastCheck info' <= 300000 /\
  exists info,
    monitoredWallets st !! w = Some info /\
    userId info' = userId info /\
    subscriptionId info' = subscriptionId info /\
    logsSubscriptionId info' = logsSubscriptionId info /\
    lastActivity info' = lastActivity info /\
    if 300000 <? now - lastCheck info
    then transactionCount info' = 0 /\ lastCheck info' = now
    else transactionCount info' = transactionCount info /\
         lastCheck info' = lastCheck info.
Proof.
  unfold performPeriodicChecks in H.
  rewrite (sweep_entry _ _ _ _ _ (registered_NoDup st)) in H.
  destruct (monitoredWallets st !! w) as [info|] eqn:Hw; [|discriminate].
  assert (Hin : w ∈ registered st) by (apply registered_elem; eauto).
  rewrite bool_decide_eq_true_2 in H by exact Hin. simpl in H.
  injection H as <-.
  unfold sweptInfo.
  destruct (300000 <? now - lastCheck info) eqn:E; destruct (rpc w); simpl;
    (split; [lia|]); exists info; rewrite ?E; repeat split; reflexivity.
Qed.

Lemma sweep_keeps_windows_fresh_witness :
  400000 - lastCheck (resetWindow entry1 400000)
    <= 300000 /\
  exists info,
    monitoredWallets watching1 !! wallet1 = Some info /\
    userId (resetWindow entry1 400000) = userId info /\
    subscriptionId (resetWindow entry1 400000)
      = subscriptionId info /\
    logsSubscriptionId (resetWindow entry1 400000)
      = logsSubscriptionId info /\
    lastActivity (resetWindow entry1 400000)
      = lastActivity info /\
    if 300000 <? 400000 - lastCheck info
    then transactionCount (resetWindow entry1 400000) = 0 /\
         lastCheck (resetWindow entry1 400000) = 400000
    else transactionCount (resetWindow entry1 400000)
           = transactionCount info /\
         lastCheck (resetWindow entry1 400000)
           = lastCheck info.
Proof.
  apply (sweep_keeps_windows_fresh parseEmptyObject watching1 400000
           (fun _ => Threw) (fun _ => Threw) wallet1).
  vm_compute. reflexivity.
Defined.

(** X10: the health check alerts on a flip only. A wallet whose account is
    missing at two checks in a row gets nothing from the second check, and
    a wallet whose account has not been seen present before gets nothing
    when it is missing; a check for a wallet that is not watched changes
    nothing. *)
Theorem health_check_alerts_on_flip_only
    (JSON_parse : string -> option AIAnalysis) (st : State) (w : string)
    (now now' : Z) (post post' : Outcome string) :
  let st1 := performHealthCheck JSON_parse st w now (Returned None) post in
  outbox (performHealthCheck JSON_parse st1 w now' (Returned None) post')
    = outbox st1 /\
  match monitoredWallets st !! w with
  | Some info =>
      if default false (hadAccount info) then True else outbox st1 = outbox st
  | None => st1 = st
  end.
Proof.
  intros st1. subst st1. unfold performHealthCheck, healthCheckResume.
  destruct (monitoredWallets st !! w) as [info|] eqn:Hw.
  - cbn [tryCatch]. cbn [monitoredWallets setWallets].
    rewrite lookup_insert_eq. split; [reflexivity|].
    destruct (default false (hadAccount info)); [exact I|].
    rewrite andb_false_r. reflexivity.
  - rewrite Hw. split; reflexivity.
Qed.

(** ** The threat database and the engine's own labels *)

(** X11: the known-threat database never matches a threat that carries
    only the finding labels of the engine, so without labels from an AI
    enrichment no threat of the scorers or of the health check is raised
    to 80 by the database. *)
Theorem database_never_matches_engine_labels
    (wi : option WalletInfo) (now : Z) (transaction : option Transaction)
    (lg : Logs) (accountInfo : option AccountInfo)
    (profiles : gmap string Profile) (w : string) :
  match analyzeTransaction wi now transaction lg with
  | Some t => matchKnownThreats (threats t) = [] /\
              riskScore (combineThreat profiles t None w now) = riskScore t
  | None => True
  end /\
  match analyzeAccountChange now accountInfo with
  | Some t => matchKnownThreats (threats t) = [] /\
              riskScore (combineThreat profiles t None w now) = riskScore t
  | None => True
  end /\
  matchKnownThreats (threats (healthThreat now)) = [] /\
  riskScore (combineThreat profiles (healthThreat now) None w now) = 90.
Proof.
  destruct (produced_threats_carry_finding_labels wi now transaction lg accountInfo)
    as (H1 & H2 & H3).
  assert (Hall : forall ths, forallb isFindingLabel ths = true ->
                   Forall (fun l => isFindingLabel l = true) ths).
  { intros ths H. rewrite forallb_forall in H. apply Forall_forall.
    intros l Hl. apply H, list_elem_of_In, Hl. }
  split; [|split; [|split]].
  - destruct (analyzeTransaction wi now transaction lg) as [t|]; [|exact I].
    split; [apply matchKnownThreats_quiet, finding_labels_quiet, Hall, H1|].
    apply combineThreat_unenriched, Hall, H1.
  - destruct (analyzeAccountChange now accountInfo) as [t|]; [|exact I].
    split; [apply matchKnownThreats_quiet, finding_labels_quiet, Hall, H2|].
    apply combineThreat_unenriched, Hall, H2.
  - apply matchKnownThreats_quiet, finding_labels_quiet, Hall, H3.
  - rewrite combineThreat_unenriched; [reflexivity | apply Hall, H3].
Qed.

(** ** Wallet profiles along a run *)

Lemma setAddIf_NoDup c x s : NoDup s -> NoDup (setAddIf c x s).
Proof. intros H. destruct c; simpl; [apply setAdd_NoDup|]; exact H. Qed.

Lemma setAddIf_elem c x y s : y ∈ setAddIf c x s -> y = x \/ y ∈ s.
Proof.
  destruct c; simpl; [|auto]. intros H. apply setAdd_elem in H. exact H.
Qed.

Lemma setAddIf_keeps c x y s : y ∈ s -> y ∈ setAddIf c x s.
Proof.
  intros H. destruct c; simpl; [|exact H]. apply setAdd_elem. auto.
Qed.

Lemma finding_label_tags log :
  isFindingLabel log = true ->
  includes (toLowerCase log) "approve" = false /\
  includes (toLowerCase log) "invoke" = false.
Proof.
  unfold isFindingLabel, findingWeights. cbn [existsb fst].
  rewrite !orb_true_iff. intros H.
  repeat (destruct H as [H|H];
          [apply String.eqb_eq in H; subst log; vm_compute; split; reflexivity|]).
  discriminate H.
Qed.

Lemma profilePatterns_wf log s :
  isFindingLabel log = true ->
  NoDup s -> (forall x, x ∈ s -> x ∈ profileTags) ->
  NoDup (profilePatterns log s) /\
  (forall x, x ∈ profilePatterns log s -> x ∈ profileTags) /\
  (forall x, x ∈ s -> x ∈ profilePatterns log s).
Proof.
  intros Hl Hn Ht. unfold profilePatterns.
  destruct (finding_label_tags log Hl) as [-> ->]. cbn [setAddIf].
  split; [|split].
  - repeat apply setAddIf_NoDup. exact Hn.
  - intros x Hx.
    repeat (apply setAddIf_elem in Hx as [->|Hx];
            [unfold profileTags; set_solver|]).
    apply Ht, Hx.
  - intros x Hx. repeat apply setAddIf_keeps. exact Hx.
Qed.

Lemma foldl_profilePatterns_wf lines :
  Forall (fun l => isFindingLabel l = true) lines ->
  forall s, NoDup s -> (forall x, x ∈ s -> x ∈ profileTags) ->
    NoDup (foldl (fun s log => profilePatterns log s) s lines) /\
    (forall x, x ∈ foldl (fun s log => profilePatterns log s) s lines ->
               x ∈ profileTags) /\
    (forall x, x ∈ s -> x ∈ foldl (fun s log => profilePatterns log s) s lines).
Proof.
  induction 1 as [|log lines Hl _ IH]; intros s Hn Ht; simpl; [auto|].
  destruct (profilePatterns_wf log s Hl Hn Ht) as (H1 & H2 & H3).
  destruct (IH _ H1 H2) as (H4 & H5 & H6). auto.
Qed.

Lemma updateWalletProfile_wf profiles w lines now :
  Forall (fun l => isFindingLabel l = true) lines ->
  profilesWellFormed profiles ->
  profilesWellFormed (updateWalletProfile profiles w (Some lines) now).
Proof.
  intros Hl H w' p'. unfold updateWalletProfile.
  destruct (decide (w = w')) as [<-|Hne].
  - rewrite lookup_insert_eq. intros [= <-].
    destruct (profiles !! w) as [p|] eqn:Hp; simpl.
    + destruct (H w p Hp) as (H1 & H2 & H3 & H4).
      destruct (foldl_profilePatterns_wf lines Hl (patterns p) H3 H4)
        as (H5 & H6 & _).
      repeat split; simpl; try assumption. lia.
    + destruct (foldl_profilePatterns_wf lines Hl []
                  (NoDup_nil_2) (fun x Hx => False_ind _ (not_elem_of_nil x Hx)))
        as (H5 & H6 & _).
      repeat split; simpl; try assumption. lia.
  - rewrite lookup_insert_ne by exact Hne. apply H.
Qed.

Lemma profilesExtend_refl m : profilesExtend m m.
Proof. intros w p Hp. exists p. repeat split; [exact Hp | lia | auto]. Qed.

Lemma profilesExtend_trans m1 m2 m3 :
  profilesExtend m1 m2 -> profilesExtend m2 m3 -> profilesExtend m1 m3.
Proof.
  intros H12 H23 w p Hp.
  destruct (H12 w p Hp) as (p2 & Hp2 & Hf2 & Ht2 & Hx2).
  destruct (H23 w p2 Hp2) as (p3 & Hp3 & Hf3 & Ht3 & Hx3).
  exists p3. repeat split; [exact Hp3 | congruence | lia | auto].
Qed.

Lemma updateWalletProfile_extends profiles w lines now :
  Forall (fun l => isFindingLabel l = true) lines ->
  profilesWellFormed profiles ->
  profilesExtend profiles (updateWalletProfile profiles w (Some lines) now).
Proof.
  intros Hl Hwf w' p Hp. unfold updateWalletProfile.
  destruct (decide (w = w')) as [<-|Hne].
  - rewrite lookup_insert_eq, Hp. simpl. eexists. split; [reflexivity|].
    simpl. split; [reflexivity|]. split; [lia|].
    destruct (Hwf w p Hp) as (_ & _ & H3 & H4).
    apply (foldl_profilePatterns_wf lines Hl (patterns p) H3 H4).
  - rewrite lookup_insert_ne by exact Hne. exists p.
    repeat split; [exact Hp | lia | auto].
Qed.

Lemma profileStep_refl m : profileStep m m.
Proof. intros H. split; [exact H | apply profilesExtend_refl]. Qed.

Lemma profileStep_trans m1 m2 m3 :
  profileStep m1 m2 -> profileStep m2 m3 -> profileStep m1 m3.
Proof.
  intros H12 H23 H1. destruct (H12 H1) as [H2 E12].
  destruct (H23 H2) as [H3 E23].
  split; [exact H3 | eapply profilesExtend_trans; eassumption].
Qed.

Lemma forallb_labels ths :
  forallb isFindingLabel ths = true ->
  Forall (fun l => isFindingLabel l = true) ths.
Proof.
  intros H. rewrite forallb_forall in H. apply Forall_forall.
  intros l Hl. apply H, list_elem_of_In, Hl.
Qed.

Lemma sendThreatAlert_profiles JSON_parse st w t now post :
  forallb isFindingLabel (threats t) = true ->
  profileStep (walletProfiles st)
    (walletProfiles (sendThreatAlert JSON_parse st w t now post)).
Proof.
  intros Hl. apply forallb_labels in Hl.
  unfold sendThreatAlert. destruct (threatCallbacks st !! w); [|apply profileStep_refl].
  simpl. intros H.
  split; [apply updateWalletProfile_wf | apply updateWalletProfile_extends];
    assumption.
Qed.

Lemma sweepWallet_profiles JSON_parse now rpc post st w :
  profileStep (walletProfiles st)
    (walletProfiles (sweepWallet JSON_parse now rpc post st w)).
Proof.
  unfold sweepWallet, performHealthCheck, healthCheckResume.
  destruct (monitoredWallets st !! w) as [info|]; [|apply profileStep_refl].
  destruct (300000 <? now - lastCheck info); simpl.
  - rewrite lookup_insert_eq. destruct (rpc w); simpl; [apply profileStep_refl|].
    destruct (_ && _); [|apply profileStep_refl].
    apply (sendThreatAlert_profiles JSON_parse
             (setWallets (insert w (resetWindow info now)) st)).
    reflexivity.
  - destruct (monitoredWallets st !! w); [|apply profileStep_refl].
    destruct (rpc w); simpl; [apply profileStep_refl|].
    destruct (_ && _); [|apply profileStep_refl].
    apply sendThreatAlert_profiles. reflexivity.
Qed.

Lemma applyOp_profiles JSON_parse st op :
  profileStep (walletProfiles st) (walletProfiles (applyOp JSON_parse st op)).
Proof.
  destruct op; simpl.
  - unfold startMonitoring, startPeriodicChecks.
    destruct (keyValid env); simpl; [|apply profileStep_refl].
    destruct (onAccountChange env); simpl; [apply profileStep_refl|].
    destruct (onLogs env); simpl; [apply profileStep_refl|].
    destruct (isMonitoring st); apply profileStep_refl.
  - rewrite stopMonitoring_profiles. apply profileStep_refl.
  - unfold handleAccountChange.
    destruct (monitoredWallets st !! w); [|apply profileStep_refl].
    pose proof (produced_threats_carry_finding_labels None now None
                  {| signature := None; logs := None |} accountInfo) as (_ & Hl & _).
    destruct (analyzeAccountChange now accountInfo); [|apply profileStep_refl].
    apply sendThreatAlert_profiles, Hl.
  - unfold handleTransactionLogs.
    destruct (monitoredWallets st !! w) as [i|]; [|apply profileStep_refl].
    destruct fetch as [|transaction]; simpl; [apply profileStep_refl|].
    match goal with
    | |- context [analyzeTransaction ?wi now transaction lg] =>
        pose proof (produced_threats_carry_finding_labels wi now transaction lg None)
          as (Hl & _)
    end.
    destruct (analyzeTransaction _ now transaction lg); [|apply profileStep_refl].
    apply (sendThreatAlert_profiles JSON_parse
             (setWallets (insert w (touch i now)) st)), Hl.
  - unfold performPeriodicChecks. generalize (registered st). intros l.
    revert st. induction l as [|x l IH]; intros st; simpl; [apply profileStep_refl|].
    eapply profileStep_trans; [apply sweepWallet_profiles | apply IH].
Qed.

Lemma run_profiles JSON_parse ops :
  forall st, profileStep (walletProfiles st) (walletProfiles (run JSON_parse st ops)).
Proof.
  unfold run. induction ops as [|op ops IH]; intros st; simpl;
    [apply profileStep_refl|].
  eapply profileStep_trans; [apply applyOp_profiles | apply IH].
Qed.

(** X12: whatever calls the engine has received since its start, the
    risk profile [getWalletRiskProfile] reports for a wallet has risk score
    0, at least one transaction, and a pattern list without repetition
    drawn from the two tags transfer and authority_change (the analyzer
    reads the labels of the basic threat, not the log lines, and neither
    'approve' nor 'invoke' occurs in a label); a wallet without a profile
    gets null. *)
Theorem risk_profile_shape
    (JSON_parse : string -> option AIAnalysis) (key : option string)
    (ops : list Op) (w : string) (now : Z) :
  let st := run JSON_parse (initialState key) ops in
  match getWalletRiskProfile (walletProfiles st) w now with
  | Some r =>
      rpRiskScore r = 0 /\ 1 <= rpTotalTransactions r /\
      NoDup (rpPatterns r) /\ (forall x, x ∈ rpPatterns r -> x ∈ profileTags) /\
      (length (rpPatterns r) <= 2)%nat
  | None => walletProfiles st !! w = None
  end.
Proof.
  intros st. unfold getWalletRiskProfile.
  destruct (walletProfiles st !! w) as [p|] eqn:Hp; [|reflexivity].
  assert (H0 : profilesWellFormed (walletProfiles (initialState key))).
  { intros w' p' H. simpl in H. rewrite lookup_empty in H. discriminate. }
  destruct (run_profiles JSON_parse ops (initialState key) H0) as [Hwf _].
  destruct (Hwf w p Hp) as (H1 & H2 & H3 & H4). simpl.
  repeat split; try assumption.
  change 2%nat with (length profileTags).
  apply submseteq_length, NoDup_submseteq; assumption.
Qed.

(** X13: a wallet profile, once made, stays for good: after any further
    calls of the engine (stopping the wallet among them) the wallet still
    has a profile, first seen at the same instant, with a transaction count
    that is not lower and with every pattern tag it had. *)
Theorem profiles_are_never_dropped
    (JSON_parse : string -> option AIAnalysis) (key : option string)
    (before after : list Op) (w : string) (p : Profile)
    (H : walletProfiles (run JSON_parse (initialState key) before) !! w = Some p) :
  exists p',
    walletProfiles (run JSON_parse (run JSON_parse (initialState key) before) after)
      !! w = Some p' /\
    firstSeen p' = firstSeen p /\
    totalTransactions p <= totalTransactions p' /\
    forall x, x ∈ patterns p -> x ∈ patterns p'.
Proof.
  assert (H0 : profilesWellFormed (walletProfiles (initialState key))).
  { intros w' p' Hp. simpl in Hp. rewrite lookup_empty in Hp. discriminate. }
  destruct (run_profiles JSON_parse before (initialState key) H0) as [Hwf _].
  destruct (run_profiles JSON_parse after _ Hwf) as [_ Hext].
  apply Hext, H.
Qed.

Lemma profiles_are_never_dropped_witness :
  exists p',
    walletProfiles
      (run parseEmptyObject
         (run parseEmptyObject (initialState None)
            [OpStart wallet1 7 7 0 startOk;
             OpLogs wallet1 authorityLogs 5 (Returned (Some plainTx)) Threw])
         [OpStop wallet1 stopOk])
      !! wallet1 = Some p' /\
    firstSeen p' = 5 /\
    1 <= totalTransactions p' /\
    forall x, x ∈ ["transfer"; "authority_change"] -> x ∈ patterns p'.
Proof.
  apply (profiles_are_never_dropped parseEmptyObject None
           [OpStart wallet1 7 7 0 startOk;
            OpLogs wallet1 authorityLogs 5 (Returned (Some plainTx)) Threw]
           [OpStop wallet1 stopOk] wallet1
           {| firstSeen := 5; totalTransactions := 1;
              patterns := ["transfer"; "authority_change"];
              profileRiskScore := 0; profileLastActivity := 5 |}).
  vm_compute. reflexivity.
Defined.

(** ** The JSON span of an AI answer *)

Lemma uptoLastClose_none s : occurs "}" s = false -> uptoLastClose s = None.
Proof.
  induction s as [|c s IH]; simpl; [reflexivity|].
  intros H. apply orb_false_iff in H as [Hc Hs]. rewrite (IH Hs), Hc. reflexivity.
Qed.

Lemma uptoLastClose_last mid post :
  occurs "}" post = false ->
  uptoLastClose (mid +:+ "}" +:+ post) = Some (mid +:+ "}").
Proof.
  intros H. induction mid as [|c mid IH].
  - change (uptoLastClose (String "}" post) = Some (String "}" EmptyString)).
    simpl. rewrite (uptoLastClose_none post H). reflexivity.
  - change (uptoLastClose (String c (mid +:+ "}" +:+ post))
            = Some (String c (mid +:+ "}"))).
    simpl. rewrite IH. reflexivity.
Qed.

Lemma matchBraces_skip pre rest :
  occurs "{" pre = false -> matchBraces (pre +:+ rest) = matchBraces rest.
Proof.
  induction pre as [|c pre IH]; [reflexivity|].
  intros H. simpl in H. apply orb_false_iff in H as [Hc Hs].
  change (matchBraces (String c (pre +:+ rest)) = matchBraces rest).
  simpl. rewrite Hc. apply IH, Hs.
Qed.

(** X14: of an AI answer, [parseAIResponse] hands to [JSON.parse] the text
    from the first opening brace to the last closing brace, and nothing
    else: what stands before the first opening brace and after the last
    closing brace is dropped, what stands between them is kept whole. An
    answer without a closing brace after its first opening brace gets the
    fixed fallback enrichment. *)
Theorem json_span_is_first_open_to_last_close
    (JSON_parse : string -> option AIAnalysis) (pre mid post : string)
    (Hpre : occurs "{" pre = false) (Hpost : occurs "}" post = false) :
  matchBraces (pre +:+ "{" +:+ mid +:+ "}" +:+ post) = Some ("{" +:+ mid +:+ "}") /\
  parseAIResponse JSON_parse (pre +:+ "{" +:+ mid +:+ "}" +:+ post)
    = JSON_parse ("{" +:+ mid +:+ "}") /\
  parseAIResponse JSON_parse (pre +:+ "{" +:+ post) = Some fallbackAnalysis /\
  parseAIResponse JSON_parse (pre +:+ post) = Some fallbackAnalysis.
Proof.
  assert (H1 : matchBraces (pre +:+ "{" +:+ mid +:+ "}" +:+ post)
               = Some ("{" +:+ mid +:+ "}")).
  { rewrite (matchBraces_skip pre _ Hpre).
    change (matchBraces (String "{" (mid +:+ "}" +:+ post))
            = Some (String "{" (mid +:+ "}"))).
    simpl. rewrite (uptoLastClose_last mid post Hpost). reflexivity. }
  split; [exact H1|]. split; [|split].
  - unfold parseAIResponse. rewrite H1.
    destruct (JSON_parse _); reflexivity.
  - unfold parseAIResponse. rewrite (matchBraces_skip pre _ Hpre).
    change (matchBraces ("{" +:+ post)) with (matchBraces (String "{" post)).
    simpl. rewrite (uptoLastClose_none post Hpost). reflexivity.
  - unfold parseAIResponse. rewrite (matchBraces_skip pre _ Hpre).
    assert (Hn : forall s, occurs "}" s = false -> matchBraces s = None).
    { induction s as [|c s IH]; simpl; [reflexivity|].
      intros H. apply orb_false_iff in H as [Hc Hs].
      rewrite (uptoLastClose_none s Hs).
      destruct (Ascii.eqb c "{"); [reflexivity | apply IH, Hs]. }
    rewrite (Hn post Hpost). reflexivity.
Qed.

Lemma json_span_is_first_open_to_last_close_witness :
  matchBraces ("Verdict: " +:+ "{" +:+ "} and {" +:+ "}" +:+ " end")
    = Some ("{" +:+ "} and {" +:+ "}") /\
  parseAIResponse parseEmptyObject
    ("Verdict: " +:+ "{" +:+ "} and {" +:+ "}" +:+ " end")
    = parseEmptyObject ("{" +:+ "} and {" +:+ "}") /\
  parseAIResponse parseEmptyObject ("Verdict: " +:+ "{" +:+ " end")
    = Some fallbackAnalysis /\
  parseAIResponse parseEmptyObject ("Verdict: " +:+ " end") = Some fallbackAnalysis.
Proof.
  apply (json_span_is_first_open_to_last_close parseEmptyObject
           "Verdict: " "} and {" " end"); reflexivity.
Defined.

(** ** An AI opinion that counts *)

(** X15: when an AI key is configured and the answer parses to an
    enrichment with threat level CRITICAL and a confidence above 80, the
    threat handler delivers the alert with a score of at least 90 followed
    by the critical follow-up message, while the tier field of the alert
    stays the tier of the basic threat. *)
Theorem confident_critical_opinion_escalates
    (JSON_parse : string -> option AIAnalysis) (st : State) (w : string)
    (basicThreat : Threat) (uid now : Z) (body : string) (a : AIAnalysis) (c : Z)
    (Hkey : keyConfigured (openaiApiKey st) = true)
    (Hparse : parseAIResponse JSON_parse body = Some a)
    (Hlevel : threatLevel a = Some "CRITICAL")
    (Hconf : confidence a = Some c) (Hc : 80 < c) :
  exists e,
    outbox (handleThreatDetected JSON_parse st w basicThreat uid now (Returned body))
      = (outbox st ++ [AlertMessage uid w e; CriticalMessage uid])%list /\
    90 <= riskScore e /\ type e = type basicThreat /\ aiAnalysis e = Some a.
Proof.
  unfold handleThreatDetected, analyzeTransactionWithAI. cbn [outbox].
  rewrite Hkey. unfold getAIAnalysis. cbn [tryCatch]. rewrite Hparse.
  match goal with
  | |- context [AlertMessage uid w ?e] => exists e; set (x := e)
  end.
  assert (Hx : 90 <= riskScore x).
  { subst x. unfold combineThreat. cbn [riskScore].
    assert (Ha : 90 <= aiAdjust a (riskScore basicThreat)).
    { unfold aiAdjust. rewrite Hconf, Hlevel.
      destruct (80 <? c) eqn:E; [|lia].
      rewrite bool_decide_eq_true_2 by reflexivity. lia. }
    destruct (matchKnownThreats _); lia. }
  split; [|split; [exact Hx | split; reflexivity]].
  destruct (80 <=? riskScore x) eqn:E; [reflexivity | lia].
Qed.

Lemma confident_critical_opinion_escalates_witness :
  exists e,
    outbox (handleThreatDetected parseCriticalObject watching1WithKey wallet1
              (healthThreat 9) 7 9 (Returned ("Assessment: " +:+ criticalObject)))
      = (outbox watching1WithKey ++ [AlertMessage 7 wallet1 e; CriticalMessage 7])%list /\
    90 <= riskScore e /\ type e = type (healthThreat 9) /\
    aiAnalysis e = Some criticalAnswer.
Proof.
  apply (confident_critical_opinion_escalates parseCriticalObject watching1WithKey
           wallet1 (healthThreat 9) 7 9 ("Assessment: " +:+ criticalObject)
           criticalAnswer 95); first [reflexivity | lia].
Defined.

(** ** Emergency actions of a threat *)

(** X16: the emergency actions of a threat always end with the
    monitor-closely action, so the list is never empty; the two immediate
    actions are offered exactly for a score of at least 80 (the score from
    which the threat handler sends the critical follow-up), the pause
    action exactly from 60 on; and a threat with a higher score is offered
    every action a threat with a lower score is. *)
Theorem emergency_actions_by_score (t t' : Threat) :
  let actions := ThreatActions.generateEmergencyActions t in
  last actions = Some ThreatActions.monitorClosely /\
  length actions
    = (if 80 <=? riskScore t then 4%nat
       else if 60 <=? riskScore t then 2%nat else 1%nat) /\
  ((exists x, x ∈ actions /\ ThreatActions.priority x = "IMMEDIATE")
   <-> 80 <= riskScore t) /\
  (ThreatActions.pauseActivity ∈ actions <-> 60 <= riskScore t) /\
  (riskScore t <= riskScore t' ->
   forall x, x ∈ actions -> x ∈ ThreatActions.generateEmergencyActions t').
Proof.
  intros actions. subst actions. unfold ThreatActions.generateEmergencyActions.
  assert (Hin : forall (x : ThreatActions.EmergencyAction) l, x ∈ l -> forall y, x ∈ y :: l).
  { intros x l Hx y. apply elem_of_cons. right. exact Hx. }
  assert (Hhd : forall (x : ThreatActions.EmergencyAction) l, x ∈ x :: l).
  { intros x l. apply elem_of_cons. left. reflexivity. }
  destruct (Z.leb_spec 80 (riskScore t)) as [H8|H8];
    destruct (Z.leb_spec 60 (riskScore t)) as [H6|H6]; try lia; simpl.
  - repeat split; try reflexivity; try lia.
    + intros _. exists ThreatActions.revokeApprovals. split; [apply Hhd | reflexivity].
    + intros _. apply Hin, Hin, Hhd.
    + intros Hle x Hx.
      destruct (Z.leb_spec 80 (riskScore t')); [|lia].
      destruct (Z.leb_spec 60 (riskScore t')); [|lia]. exact Hx.
  - repeat split; try reflexivity; try lia.
    + intros (x & Hx & Hp).
      apply elem_of_cons in Hx as [->|Hx]; [discriminate Hp|].
      apply list_elem_of_singleton in Hx. subst x. discriminate Hp.
    + intros _. apply Hhd.
    + intros Hle x Hx.
      destruct (Z.leb_spec 60 (riskScore t')); [|lia].
      destruct (Z.leb_spec 80 (riskScore t')); simpl;
        [apply Hin, Hin, Hx | exact Hx].
  - repeat split; try reflexivity; try lia.
    + intros (x & Hx & Hp).
      apply list_elem_of_singleton in Hx. subst x. discriminate Hp.
    + intros Hx. apply list_elem_of_singleton in Hx. discriminate Hx.
    + intros Hle x Hx. apply list_elem_of_singleton in Hx. subst x.
      destruct (80 <=? riskScore t'), (60 <=? riskScore t'); simpl;
        repeat first [apply Hhd | apply Hin].
Qed.

(** ** The emergency action plan *)

Lemma filter_nonempty_existsb {A} (f : A -> bool) (l : list A) :
  (0 <? length (List.filter f l))%nat = existsb f l.
Proof.
  induction l as [|x l IH]; simpl; [reflexivity|].
  destruct (f x); simpl; [reflexivity | exact IH].
Qed.

Lemma generateEmergencyActionPlan_cases fs :
  Emergency.generateEmergencyActionPlan fs
  = if existsb (Emergency.hasSeverity "CRITICAL") fs
    then [Emergency.Plan.immediateRevoke; Emergency.Plan.moveCriticalAssets;
          Emergency.Plan.pauseAllActivity; Emergency.Plan.contactSupport]
    else if existsb (Emergency.hasSeverity "HIGH") fs
    then [Emergency.Plan.pauseAllActivity; Emergency.Plan.contactSupport]
    else [Emergency.Plan.contactSupport].
Proof.
  unfold Emergency.generateEmergencyActionPlan.
  rewrite !filter_nonempty_existsb.
  destruct (existsb (Emergency.hasSeverity "CRITICAL") fs),
           (existsb (Emergency.hasSeverity "HIGH") fs); reflexivity.
Qed.

(** X17: the emergency action plan depends only on whether the findings
    hold a CRITICAL and whether they hold a HIGH one: four actions with a
    CRITICAL finding, the pause and contact actions with a HIGH but no
    CRITICAL one, the contact action alone otherwise. It always ends with
    the contact action, its priorities rise strictly along the list, and
    findings of any other severity (WARNING, INFO), wherever they stand
    and however many, do not change it. *)
Theorem emergency_plan_by_severity (fs gs hs : list Emergency.Finding) :
  let plan := Emergency.generateEmergencyActionPlan fs in
  plan = (if existsb (Emergency.hasSeverity "CRITICAL") fs
          then [Emergency.Plan.immediateRevoke; Emergency.Plan.moveCriticalAssets;
                Emergency.Plan.pauseAllActivity; Emergency.Plan.contactSupport]
          else if existsb (Emergency.hasSeverity "HIGH") fs
          then [Emergency.Plan.pauseAllActivity; Emergency.Plan.contactSupport]
          else [Emergency.Plan.contactSupport]) /\
  last plan = Some Emergency.Plan.contactSupport /\
  (forall i j a b, plan !! i = Some a -> plan !! j = Some b -> (i < j)%nat ->
     Emergency.Plan.priority a < Emergency.Plan.priority b) /\
  (existsb (Emergency.hasSeverity "CRITICAL") hs = false ->
   existsb (Emergency.hasSeverity "HIGH") hs = false ->
   Emergency.generateEmergencyActionPlan (fs ++ hs ++ gs)
   = Emergency.generateEmergencyActionPlan (fs ++ gs)).
Proof.
  intros plan. subst plan. rewrite generateEmergencyActionPlan_cases.
  split; [reflexivity|]. split; [|split].
  - destruct (existsb _ fs); [reflexivity|]. destruct (existsb _ fs); reflexivity.
  - intros i j a b Hi Hj Hlt.
    destruct (existsb (Emergency.hasSeverity "CRITICAL") fs);
      [|destruct (existsb (Emergency.hasSeverity "HIGH") fs)];
      repeat (destruct i as [|i]; simpl in Hi; try discriminate Hi);
      repeat (destruct j as [|j]; simpl in Hj; try discriminate Hj);
      try lia; injection Hi as <-; injection Hj as <-; simpl; lia.
  - intros Hc Hh. rewrite !generateEmergencyActionPlan_cases.
    rewrite !existsb_app, Hc, Hh. reflexivity.
Qed.

(** ** The emergency analysis *)

Lemma checkToken_keeps n account :
  exists more, Emergency.noteFindings (Emergency.checkToken n account)
               = (Emergency.noteFindings n ++ more)%list.
Proof.
  unfold Emergency.checkToken.
  destruct (Emergency.isDelegated _), (Emergency.isEmptied _); simpl.
  - eexists. rewrite <- app_assoc. reflexivity.
  - eexists. reflexivity.
  - eexists. reflexivity.
  - exists []. symmetry. apply app_nil_r.
Qed.

Lemma foldl_checkToken_keeps accounts :
  forall n, exists more,
    Emergency.noteFindings (foldl Emergency.checkToken n accounts)
    = (Emergency.noteFindings n ++ more)%list.
Proof.
  induction accounts as [|a accounts IH]; intros n; simpl.
  - exists []. symmetry. apply app_nil_r.
  - destruct (IH (Emergency.checkToken n a)) as [m1 H1].
    destruct (checkToken_keeps n a) as [m2 H2].
    exists (m2 ++ m1)%list. rewrite H1, H2, app_assoc. reflexivity.
Qed.

Lemma checkSignatures_keeps sigs n :
  exists more, Emergency.noteFindings (Emergency.checkSignatures sigs n)
               = (Emergency.noteFindings n ++ more)%list.
Proof.
  unfold Emergency.checkSignatures.
  destruct (10 <? length sigs)%nat, (0 <? length (List.filter Emergency.err sigs))%nat;
    simpl.
  - eexists. rewrite <- app_assoc. reflexivity.
  - eexists. reflexivity.
  - eexists. reflexivity.
  - exists []. symmetry. apply app_nil_r.
Qed.

(** The findings of a completed analysis start with the account finding. *)
Lemma analysis_first_finding address now env a :
  Emergency.analyse address now env = Emergency.Gives a ->
  exists accountInfo more,
    Emergency.getAccountInfo env = Emergency.Gives accountInfo /\
    Emergency.status a = "COMPLETE" /\ Emergency.error a = None /\
    Emergency.emergencyActions a
      = Some (Emergency.generateEmergencyActionPlan (Emergency.findings a)) /\
    Emergency.findings a
    = (Emergency.noteFindings
         (Emergency.checkAccount accountInfo
            {| Emergency.noteFindings := []; Emergency.noteRecommendations := [] |})
       ++ more)%list.
Proof.
  unfold Emergency.analyse, Emergency.bind.
  destruct (Emergency.publicKey env); [discriminate|].
  destruct (Emergency.getAccountInfo env) as [|accountInfo]; [discriminate|].
  destruct (Emergency.getSignaturesForAddress env) as [|sigs]; [discriminate|].
  destruct (Emergency.getParsedTokenAccountsByOwner env) as [|toks]; [discriminate|].
  intros [= <-]. simpl.
  match goal with
  | |- context [foldl Emergency.checkToken ?n toks] =>
      destruct (foldl_checkToken_keeps toks n) as [m1 H1]
  end.
  match type of H1 with
  | context [Emergency.checkSignatures sigs ?n] =>
      destruct (checkSignatures_keeps sigs n) as [m2 H2]
  end.
  exists accountInfo, (m2 ++ m1)%list.
  repeat split. rewrite H1, H2, app_assoc. reflexivity.
Qed.

(** X18: an emergency analysis either completes or fails. It fails exactly
    when one of its four collaborator calls throws; the result then has
    status ERROR, the message of the error, no findings and the one
    recommendation to contact support, and the history is left as it was.
    When it completes, the result is stored in the history under the
    wallet (and read back by [getEmergencyHistory]) without touching the
    entry of any other wallet, its findings start with the account finding,
    its plan is the plan of its findings, and a missing account gives the
    four-action plan. *)
Theorem emergency_analysis_outcomes
    (history : gmap string Emergency.Analysis) (address other : string)
    (now : Z) (env : Emergency.Env) :
  let r := Emergency.performEmergencyAnalysis history address now env in
  match Emergency.publicKey env, Emergency.getAccountInfo env,
        Emergency.getSignaturesForAddress env,
        Emergency.getParsedTokenAccountsByOwner env with
  | Emergency.Gives _, Emergency.Gives accountInfo,
    Emergency.Gives _, Emergency.Gives _ =>
      Emergency.status (snd r) = "COMPLETE" /\
      Emergency.error (snd r) = None /\
      Emergency.getEmergencyHistory (fst r) address = Some (snd r) /\
      (other <> address ->
       Emergency.getEmergencyHistory (fst r) other
       = Emergency.getEmergencyHistory history other) /\
      Emergency.findings (snd r) <> [] /\
      Emergency.emergencyActions (snd r)
        = Some (Emergency.generateEmergencyActionPlan (Emergency.findings (snd r))) /\
      (accountInfo = None ->
       Emergency.emergencyActions (snd r)
       = Some [Emergency.Plan.immediateRevoke; Emergency.Plan.moveCriticalAssets;
               Emergency.Plan.pauseAllActivity; Emergency.Plan.contactSupport])
  | Emergency.Fails m, _, _, _
  | Emergency.Gives _, Emergency.Fails m, _, _
  | Emergency.Gives _, Emergency.Gives _, Emergency.Fails m, _
  | Emergency.Gives _, Emergency.Gives _, Emergency.Gives _, Emergency.Fails m =>
      fst r = history /\
      Emergency.status (snd r) = "ERROR" /\
      Emergency.error (snd r) = Some m /\
      Emergency.findings (snd r) = [] /\
      Emergency.recommendations (snd r) = ["Contact support immediately"] /\
      Emergency.emergencyActions (snd r) = None
  end.
Proof.
  intros r. subst r. unfold Emergency.performEmergencyAnalysis.
  destruct (Emergency.analyse address now env) as [m|a] eqn:Ha.
  - unfold Emergency.analyse, Emergency.bind in Ha.
    destruct (Emergency.publicKey env); [injection Ha as <-; simpl; auto 10|].
    destruct (Emergency.getAccountInfo env); [injection Ha as <-; simpl; auto 10|].
    destruct (Emergency.getSignaturesForAddress env);
      [injection Ha as <-; simpl; auto 10|].
    destruct (Emergency.getParsedTokenAccountsByOwner env);
      [injection Ha as <-; simpl; auto 10 | discriminate Ha].
  - destruct (analysis_first_finding address now env a Ha)
      as (accountInfo & more & Hacc & Hst & Herr & Hplan & Hfs).
    assert (Hall : exists u s t,
               Emergency.publicKey env = Emergency.Gives u /\
               Emergency.getSignaturesForAddress env = Emergency.Gives s /\
               Emergency.getParsedTokenAccountsByOwner env = Emergency.Gives t).
    { unfold Emergency.analyse, Emergency.bind in Ha.
      destruct (Emergency.publicKey env); [discriminate|].
      destruct (Emergency.getAccountInfo env); [discriminate|].
      destruct (Emergency.getSignaturesForAddress env); [discriminate|].
      destruct (Emergency.getParsedTokenAccountsByOwner env); [discriminate|].
      do 3 eexists. repeat split; reflexivity. }
    destruct Hall as (u & s & t & -> & -> & ->). rewrite Hacc. simpl.
    unfold Emergency.getEmergencyHistory.
    split; [exact Hst|]. split; [exact Herr|].
    split; [apply lookup_insert_eq|].
    split; [intros Hne; apply lookup_insert_ne; congruence|].
    split.
    { rewrite Hfs. destruct accountInfo; simpl; discriminate. }
    split; [exact Hplan|].
    intros ->. rewrite Hplan, generateEmergencyActionPlan_cases, Hfs.
    reflexivity.
Qed.

(** ** The revoke guide *)

Lemma isDelegated_never t : Emergency.isDelegated t = false.
Proof.
  unfold Emergency.isDelegated.
  destruct (Emergency.delegatedAmount t); reflexivity.
Qed.

(** A finding that asks for no action of the plan. *)
Lemma checkToken_mild n account :
  Forall (fun f => Emergency.hasSeverity "CRITICAL" f = false
                   /\ Emergency.hasSeverity "HIGH" f = false
                   /\ Emergency.issue f <> "Active token delegation found")
         (Emergency.noteFindings n) ->
  Forall (fun f => Emergency.hasSeverity "CRITICAL" f = false
                   /\ Emergency.hasSeverity "HIGH" f = false
                   /\ Emergency.issue f <> "Active token delegation found")
         (Emergency.noteFindings (Emergency.checkToken n account)).
Proof.
  intros H. unfold Emergency.checkToken. rewrite isDelegated_never.
  destruct (Emergency.isEmptied _); simpl; [|exact H].
  apply Forall_app. split; [exact H|].
  apply Forall_singleton. repeat split; simpl; try reflexivity. discriminate.
Qed.

Lemma foldl_checkToken_mild accounts :
  forall n,
    Forall (fun f => Emergency.hasSeverity "CRITICAL" f = false
                     /\ Emergency.hasSeverity "HIGH" f = false
                     /\ Emergency.issue f <> "Active token delegation found")
           (Emergency.noteFindings n) ->
    Forall (fun f => Emergency.hasSeverity "CRITICAL" f = false
                     /\ Emergency.hasSeverity "HIGH" f = false
                     /\ Emergency.issue f <> "Active token delegation found")
           (Emergency.noteFindings (foldl Emergency.checkToken n accounts)).
Proof.
  induction accounts as [|a accounts IH]; intros n H; simpl; [exact H|].
  apply IH, checkToken_mild, H.
Qed.

Lemma foldl_checkToken_recommendations accounts :
  forall n,
    Emergency.noteRecommendations (foldl Emergency.checkToken n accounts)
    = Emergency.noteRecommendations n.
Proof.
  induction accounts as [|a accounts IH]; intros n; simpl; [reflexivity|].
  rewrite IH. unfold Emergency.checkToken. rewrite isDelegated_never.
  destruct (Emergency.isEmptied _); reflexivity.
Qed.

(** X19: the token check never detects a delegation. The RPC reports the
    delegated amount of a token account as a token-amount object, of which
    [parseFloat] makes NaN, so for every answer of the collaborators the
    revoke guide lists no instruction (no approvals, the six fixed steps,
    no revoke transaction), and the emergency analysis holds no
    delegation finding and takes no recommendation from the token
    accounts, however much these have delegated; an active account with
    at most ten signatures gets the contact action alone. *)
Theorem token_delegations_are_never_detected
    (history : gmap string Emergency.Analysis) (address : string) (now : Z)
    (env : Emergency.Env) (accountInfo : option AccountInfo)
    (sigs : list Emergency.SignatureInfo) (toks : list Emergency.TokenAccount)
    (Hkey : Emergency.publicKey env = Emergency.Gives tt)
    (Hacc : Emergency.getAccountInfo env = Emergency.Gives accountInfo)
    (Hsig : Emergency.getSignaturesForAddress env = Emergency.Gives sigs)
    (Htok : Emergency.getParsedTokenAccountsByOwner env = Emergency.Gives toks) :
  let r := snd (Emergency.performEmergencyAnalysis history address now env) in
  Emergency.generateRevokeInstructions address now env
  = Emergency.Guide address now 0 [] (Emergency.generateManualRevokeSteps []) None /\
  length (Emergency.generateManualRevokeSteps []) = 6%nat /\
  delegationFindings (Emergency.findings r) = 0%nat /\
  Emergency.recommendations r
  = Emergency.noteRecommendations
      (Emergency.checkSignatures sigs
         {| Emergency.noteFindings := []; Emergency.noteRecommendations := [] |}) /\
  (is_Some accountInfo -> (length sigs <= 10)%nat ->
   Emergency.emergencyActions r = Some [Emergency.Plan.contactSupport]).
Proof.
  intros r. subst r.
  assert (Hf : forall l : list Emergency.TokenAccount,
            List.filter (fun a => Emergency.isDelegated (Emergency.info a)) l = []).
  { induction l as [|a l IH]; simpl; [reflexivity|].
    rewrite isDelegated_never. exact IH. }
  split.
  { unfold Emergency.generateRevokeInstructions, Emergency.bind.
    rewrite Hkey, Htok, Hf. reflexivity. }
  split; [reflexivity|].
  unfold Emergency.performEmergencyAnalysis, Emergency.analyse, Emergency.bind.
  rewrite Hkey, Hacc, Hsig, Htok.
  cbn [snd Emergency.findings Emergency.recommendations Emergency.emergencyActions].
  set (n0 := {| Emergency.noteFindings := []; Emergency.noteRecommendations := [] |}).
  set (mild := fun f => Emergency.hasSeverity "CRITICAL" f = false
                        /\ Emergency.hasSeverity "HIGH" f = false
                        /\ Emergency.issue f <> "Active token delegation found").
  assert (Hsigs : forall n,
            Forall (fun f => Emergency.issue f <> "Active token delegation found")
                   (Emergency.noteFindings n) ->
            Forall (fun f => Emergency.issue f <> "Active token delegation found")
                   (Emergency.noteFindings (Emergency.checkSignatures sigs n))).
  { intros n Hn. unfold Emergency.checkSignatures.
    destruct (10 <? length sigs)%nat,
             (0 <? length (List.filter Emergency.err sigs))%nat; simpl;
      repeat (apply Forall_app; split); try exact Hn;
      apply Forall_singleton; discriminate. }
  assert (Hquiet : forall l,
            Forall (fun f => Emergency.issue f <> "Active token delegation found") l ->
            delegationFindings l = 0%nat).
  { induction l as [|f l IH]; intros Hl; [reflexivity|].
    apply Forall_cons in Hl as [Hf0 Hl]. unfold delegationFindings in *. simpl.
    destruct (String.eqb_spec (Emergency.issue f) "Active token delegation found");
      [contradiction | apply IH, Hl]. }
  split; [|split].
  - apply Hquiet.
    assert (Hgen : forall accounts n,
              Forall (fun f => Emergency.issue f <> "Active token delegation found")
                     (Emergency.noteFindings n) ->
              Forall (fun f => Emergency.issue f <> "Active token delegation found")
                     (Emergency.noteFindings (foldl Emergency.checkToken n accounts))).
    { induction accounts as [|a accounts IH]; intros n Hn; simpl; [exact Hn|].
      apply IH. unfold Emergency.checkToken. rewrite isDelegated_never.
      destruct (Emergency.isEmptied _); simpl; [|exact Hn].
      apply Forall_app. split; [exact Hn|]. apply Forall_singleton. discriminate. }
    apply Hgen, Hsigs. destruct accountInfo; simpl;
      apply Forall_singleton; discriminate.
  - rewrite foldl_checkToken_recommendations. unfold Emergency.checkSignatures.
    destruct (10 <? length sigs)%nat,
             (0 <? length (List.filter Emergency.err sigs))%nat;
      destruct accountInfo; reflexivity.
  - intros [info ->] Hlen. f_equal.
    rewrite generateEmergencyActionPlan_cases.
    assert (Hm : Forall mild
                   (Emergency.noteFindings
                      (foldl Emergency.checkToken
                         (Emergency.checkSignatures sigs
                            (Emergency.checkAccount (Some info) n0)) toks))).
    { apply foldl_checkToken_mild. unfold Emergency.checkSignatures.
      destruct (Nat.ltb_spec 10 (length sigs)) as [Hgt|_]; [lia|].
      destruct (0 <? length (List.filter Emergency.err sigs))%nat; simpl;
        repeat constructor; discriminate. }
    assert (Hex : forall sev l,
              Forall (fun f => Emergency.hasSeverity sev f = false) l ->
              existsb (Emergency.hasSeverity sev) l = false).
    { intros sev l Hl. induction Hl as [|f l Hf0 Hl IH]; [reflexivity|].
      simpl. rewrite Hf0. exact IH. }
    rewrite !Hex; [reflexivity| |];
      (eapply Forall_impl; [exact Hm|]; intros f [? [? ?]]; assumption).
Qed.

Lemma token_delegations_are_never_detected_witness :
  let r := snd (Emergency.performEmergencyAnalysis ∅ wallet1 9 emergencyEnv1) in
  Emergency.generateRevokeInstructions wallet1 9 emergencyEnv1
  = Emergency.Guide wallet1 9 0 [] (Emergency.generateManualRevokeSteps []) None /\
  length (Emergency.generateManualRevokeSteps []) = 6%nat /\
  delegationFindings (Emergency.findings r) = 0%nat /\
  Emergency.recommendations r
  = Emergency.noteRecommendations
      (Emergency.checkSignatures []
         {| Emergency.noteFindings := []; Emergency.noteRecommendations := [] |}) /\
  (is_Some (@None AccountInfo) -> (length (@nil Emergency.SignatureInfo) <= 10)%nat ->
   Emergency.emergencyActions r = Some [Emergency.Plan.contactSupport]).
Proof.
  apply (token_delegations_are_never_detected ∅ wallet1 9 emergencyEnv1 None []
           [delegatedAccount]); reflexivity.
Defined.

(** ** The wallet lists of the bot *)

Lemma listed_false ws a : Bot.listed ws a = false -> a ∉ Bot.address <$> ws.
Proof.
  unfold Bot.listed. induction ws as [|w ws IH]; simpl; [intros _; apply not_elem_of_nil|].
  intros H. apply orb_false_iff in H as [H1 H2].
  apply not_elem_of_cons. split; [|apply IH, H2].
  intros ->. rewrite String.eqb_refl in H1. discriminate.
Qed.

Lemma listed_true ws a : Bot.listed ws a = true -> a ∈ Bot.address <$> ws.
Proof.
  unfold Bot.listed. induction ws as [|w ws IH]; simpl; [discriminate|].
  intros H. apply orb_true_iff in H as [H|H]; apply elem_of_cons.
  - left. apply String.eqb_eq in H. congruence.
  - right. apply IH, H.
Qed.

(** The wallet table after [handleAddWallet], by user. *)
Lemma handleAddWallet_lists b user a now env u :
  default [] (Bot.userWallets (Bot.handleAddWallet b user a now env) !! u)
  = if bool_decide (u = user) && keyValid env
       && negb (Bot.listed (default [] (Bot.userWallets b !! user)) a)
    then (default [] (Bot.userWallets b !! user)
            ++ [ {| Bot.address := a; Bot.isActive := true; Bot.addedAt := now;
                    Bot.healthScore := 100; Bot.realTimeMonitoring := true |} ])%list
    else default [] (Bot.userWallets b !! u).
Proof.
  unfold Bot.handleAddWallet.
  destruct (keyValid env); simpl; [|rewrite andb_false_r; reflexivity].
  rewrite andb_true_r.
  assert (Ht : forall k,
            default [] (match Bot.userWallets b !! user with
                        | Some _ => Bot.userWallets b
                        | None => <[user:=[]]> (Bot.userWallets b)
                        end !! k)
            = default [] (Bot.userWallets b !! k)).
  { intros k. destruct (Bot.userWallets b !! user) eqn:E; [reflexivity|].
    destruct (decide (k = user)) as [->|Hne].
    - rewrite lookup_insert_eq, E. reflexivity.
    - rewrite lookup_insert_ne by congruence. reflexivity. }
  rewrite Ht.
  destruct (Bot.listed (default [] (Bot.userWallets b !! user)) a) eqn:El; simpl.
  - rewrite andb_false_r. apply Ht.
  - rewrite andb_true_r. case_bool_decide as Hu.
    + subst u. rewrite lookup_insert_eq. reflexivity.
    + rewrite lookup_insert_ne by congruence. apply Ht.
Qed.

Lemma handleAddWallet_distinct b user a now env :
  listsDistinct b -> listsDistinct (Bot.handleAddWallet b user a now env).
Proof.
  intros H u ws Hu.
  assert (Hd : NoDup (Bot.address <$> default [] (Bot.userWallets b !! u))).
  { destruct (Bot.userWallets b !! u) as [l|] eqn:E; simpl; [eapply H, E | constructor]. }
  pose proof (handleAddWallet_lists b user a now env u) as Hl.
  rewrite Hu in Hl. simpl in Hl. rewrite Hl.
  destruct (bool_decide (u = user) && keyValid env
            && negb (Bot.listed (default [] (Bot.userWallets b !! user)) a)) eqn:Ec;
    [|exact Hd].
  apply andb_true_iff in Ec as [Ec Hn]. apply andb_true_iff in Ec as [Eu _].
  apply bool_decide_eq_true in Eu. subst u.
  rewrite fmap_app. apply NoDup_app. split; [exact Hd|].
  split; [|apply NoDup_singleton].
  intros x Hx Hx'. simpl in Hx'. apply list_elem_of_singleton in Hx'. subst x.
  apply negb_true_iff in Hn. exact (listed_false _ _ Hn Hx).
Qed.

Lemma NoDup_delete {A} (l : list A) i : NoDup l -> NoDup (delete i l).
Proof.
  intros H. eapply sublist_NoDup; [exact H | apply sublist_delete].
Qed.

Lemma handleWalletRemovalNumber_distinct b user number senv :
  listsDistinct b -> listsDistinct (Bot.handleWalletRemovalNumber b user number senv).
Proof.
  intros H u ws. unfold Bot.handleWalletRemovalNumber.
  destruct (_ || _); [apply H|].
  destruct (default [] (Bot.userWallets b !! user) !! Z.to_nat (number - 1)) eqn:E;
    [|apply H].
  simpl. destruct (decide (u = user)) as [->|Hne].
  - rewrite lookup_insert_eq. intros [= <-].
    rewrite list_fmap_delete. apply NoDup_delete.
    destruct (Bot.userWallets b !! user) as [l|] eqn:El; simpl;
      [eapply H, El | constructor].
  - rewrite lookup_insert_ne by congruence. apply H.
Qed.

Lemma applyCommand_distinct b c :
  listsDistinct b -> listsDistinct (Bot.applyCommand b c).
Proof.
  destruct c; simpl.
  - apply handleAddWallet_distinct.
  - apply handleWalletRemovalNumber_distinct.
  - unfold Bot.handleMonitorControl. destruct action; intros H; exact H.
Qed.

(** X20: whatever wallet commands a bot has received since its start, no
    user's wallet list names an address twice. *)
Theorem wallet_lists_have_no_duplicates
    (key : option string) (cmds : list Bot.Command) (user : Z) :
  NoDup (Bot.addresses (foldl Bot.applyCommand (Bot.initialBot key) cmds) user).
Proof.
  assert (H : listsDistinct (foldl Bot.applyCommand (Bot.initialBot key) cmds)).
  { assert (H0 : listsDistinct (Bot.initialBot key)).
    { intros u ws Hu. simpl in Hu. rewrite lookup_empty in Hu. discriminate. }
    revert H0. generalize (Bot.initialBot key).
    induction cmds as [|c cmds IH]; intros b Hb; simpl; [exact Hb|].
    apply IH, applyCommand_distinct, Hb. }
  unfold Bot.addresses.
  destruct (Bot.userWallets _ !! user) as [ws|] eqn:E; simpl;
    [eapply H, E | constructor].
Qed.

(** X21: [handleAddWallet] answers a rejected address and an address the
    user already lists with a message and changes neither the engine nor
    any wallet list. Any other address goes to the end of the user's list
    and into the engine with the user as the one to alert, also when a
    subscription throws and the answer is the limited-mode message. *)
Theorem add_wallet_outcomes
    (b : Bot.BotState) (user : Z) (a : string) (now : Z) (env : StartEnv) :
  let b' := Bot.handleAddWallet b user a now env in
  if negb (keyValid env) then
    Bot.engine b' = Bot.engine b /\ Bot.userWallets b' = Bot.userWallets b /\
    Bot.replies b' = (Bot.replies b ++ [(user, Bot.InvalidWalletAddress)])%list
  else if Bot.listed (default [] (Bot.userWallets b !! user)) a then
    Bot.engine b' = Bot.engine b /\
    (forall u, Bot.addresses b' u = Bot.addresses b u) /\
    Bot.replies b' = (Bot.replies b ++ [(user, Bot.WalletAlreadyMonitored a)])%list
  else
    Bot.addresses b' user = (Bot.addresses b user ++ [a])%list /\
    (forall u, u <> user -> Bot.addresses b' u = Bot.addresses b u) /\
    Bot.engine b' = fst (startMonitoring (Bot.engine b) a user user now env) /\
    is_Some (monitoredWallets (Bot.engine b') !! a) /\
    threatCallbacks (Bot.engine b') !! a = Some user /\
    Bot.replies b'
    = (Bot.replies b
         ++ [(user, Bot.AddingWallet);
             (user, match onAccountChange env, onLogs env with
                    | Returned _, Returned _ => Bot.WalletSuccessfullyAdded a
                    | _, _ => Bot.WalletAddedLimitedMode a
                    end)])%list.
Proof.
  intros b'.
  assert (Hl : forall u, Bot.addresses b' u
     = Bot.address <$>
         (if bool_decide (u = user) && keyValid env
             && negb (Bot.listed (default [] (Bot.userWallets b !! user)) a)
          then (default [] (Bot.userWallets b !! user)
                  ++ [ {| Bot.address := a; Bot.isActive := true; Bot.addedAt := now;
                          Bot.healthScore := 100; Bot.realTimeMonitoring := true |} ])%list
          else default [] (Bot.userWallets b !! u))).
  { intros u. unfold Bot.addresses. subst b'. rewrite handleAddWallet_lists. reflexivity. }
  destruct (keyValid env) eqn:Ek; simpl.
  - destruct (Bot.listed (default [] (Bot.userWallets b !! user)) a) eqn:El.
    + split; [subst b'; unfold Bot.handleAddWallet; rewrite Ek; simpl|].
      { destruct (Bot.userWallets b !! user) eqn:E; simpl in *.
        - rewrite E. simpl. rewrite El. reflexivity.
        - rewrite lookup_insert_eq. simpl. discriminate El. }
      split.
      { intros u. rewrite Hl. rewrite andb_false_r. reflexivity. }
      subst b'. unfold Bot.handleAddWallet. rewrite Ek. simpl.
      destruct (Bot.userWallets b !! user) eqn:E; simpl in *.
      * rewrite E. simpl. rewrite El. reflexivity.
      * discriminate El.
    + split.
      { rewrite Hl. rewrite bool_decide_eq_true_2 by reflexivity. simpl.
        rewrite fmap_app. reflexivity. }
      split.
      { intros u Hu. rewrite Hl. rewrite bool_decide_eq_false_2 by exact Hu.
        reflexivity. }
      assert (He : Bot.engine b'
                   = fst (startMonitoring (Bot.engine b) a user user now env)
                   /\ Bot.replies b'
                      = (Bot.replies b
                           ++ [(user, Bot.AddingWallet);
                               (user, if snd (startMonitoring (Bot.engine b) a user
                                                user now env)
                                      then Bot.WalletSuccessfullyAdded a
                                      else Bot.WalletAddedLimitedMode a)])%list).
      { subst b'. unfold Bot.handleAddWallet. rewrite Ek. simpl.
        assert (Hw : default [] (match Bot.userWallets b !! user with
                                 | Some _ => Bot.userWallets b
                                 | None => <[user:=[]]> (Bot.userWallets b)
                                 end !! user)
                     = default [] (Bot.userWallets b !! user)).
        { destruct (Bot.userWallets b !! user) eqn:E; [rewrite E; reflexivity|].
          rewrite lookup_insert_eq. reflexivity. }
        rewrite Hw, El. simpl. rewrite <- app_assoc. split; reflexivity. }
      destruct He as [He Hr]. split; [exact He|]. rewrite He, Hr.
      unfold startMonitoring, startPeriodicChecks. rewrite Ek. simpl.
      destruct (onAccountChange env); simpl.
      { rewrite !lookup_insert_eq. eauto. }
      destruct (onLogs env); simpl.
      { rewrite !lookup_insert_eq. eauto. }
      destruct (isMonitoring (Bot.engine b)); simpl; rewrite !lookup_insert_eq; eauto.
  - subst b'. unfold Bot.handleAddWallet. rewrite Ek. simpl. auto.
Qed.

Lemma startMonitoring_registers st a uid cb now env :
  keyValid env = true ->
  is_Some (monitoredWallets (fst (startMonitoring st a uid cb now env)) !! a) /\
  threatCallbacks (fst (startMonitoring st a uid cb now env)) !! a = Some cb /\
  (forall x, x <> a ->
     monitoredWallets (fst (startMonitoring st a uid cb now env)) !! x
     = monitoredWallets st !! x /\
     threatCallbacks (fst (startMonitoring st a uid cb now env)) !! x
     = threatCallbacks st !! x).
Proof.
  intros Ek. unfold startMonitoring, startPeriodicChecks. rewrite Ek. simpl.
  destruct (onAccountChange env); simpl.
  { rewrite !lookup_insert_eq. split; [eauto|]. split; [reflexivity|].
    intros x Hx. rewrite !lookup_insert_ne by congruence. auto. }
  destruct (onLogs env); simpl.
  { rewrite !lookup_insert_eq. split; [eauto|]. split; [reflexivity|].
    intros x Hx. rewrite !lookup_insert_ne by congruence. auto. }
  destruct (isMonitoring st); simpl; rewrite !lookup_insert_eq;
    (split; [eauto|]); (split; [reflexivity|]);
    intros x Hx; rewrite !lookup_insert_ne by congruence; auto.
Qed.

Lemma stopMonitoring_ok st a senv :
  removeAccountChangeListener senv = Returned tt ->
  removeOnLogsListener senv = Returned tt ->
  monitoredWallets (stopMonitoring st a senv) = delete a (monitoredWallets st) /\
  (is_Some (monitoredWallets st !! a) ->
   threatCallbacks (stopMonitoring st a senv) = delete a (threatCallbacks st)).
Proof.
  intros H1 H2. unfold stopMonitoring, whenId. rewrite H1, H2.
  destruct (monitoredWallets st !! a) as [i|] eqn:E.
  - destruct (truthyId (subscriptionId i)), (truthyId (logsSubscriptionId i));
      simpl; auto.
  - split; [symmetry; apply delete_id, E | intros [? ?]; discriminate].
Qed.

Lemma handleAddWallet_engine b user a now env :
  keyValid env = true ->
  Bot.listed (default [] (Bot.userWallets b !! user)) a = false ->
  Bot.engine (Bot.handleAddWallet b user a now env)
  = fst (startMonitoring (Bot.engine b) a user user now env).
Proof.
  intros Ek El. unfold Bot.handleAddWallet. rewrite Ek. simpl.
  assert (Hw : default [] (match Bot.userWallets b !! user with
                           | Some _ => Bot.userWallets b
                           | None => <[user:=[]]> (Bot.userWallets b)
                           end !! user)
               = default [] (Bot.userWallets b !! user)).
  { destruct (Bot.userWallets b !! user) eqn:E; [rewrite E; reflexivity|].
    rewrite lookup_insert_eq. reflexivity. }
  rewrite Hw, El. reflexivity.
Qed.

Lemma handleAddWallet_addresses b user a now env u :
  Bot.addresses (Bot.handleAddWallet b user a now env) u
  = if bool_decide (u = user) && keyValid env
       && negb (Bot.listed (default [] (Bot.userWallets b !! user)) a)
    then (Bot.addresses b user ++ [a])%list
    else Bot.addresses b u.
Proof.
  unfold Bot.addresses. rewrite handleAddWallet_lists.
  destruct (_ && _ && _); [rewrite fmap_app|]; reflexivity.
Qed.

(** X22: when two users add the same wallet, the engine keeps one registry
    entry and one callback for it, those of the user who added it last:
    both users list the wallet, every alert for it goes to the later user,
    and when the later user removes the wallet it leaves the engine
    altogether while the first user still lists it. *)
Theorem shared_wallet_belongs_to_last_adder
    (JSON_parse : string -> option AIAnalysis) (b : Bot.BotState)
    (userA userB : Z) (a : string) (nowA nowB now : Z) (envA envB : StartEnv)
    (senv : StopEnv) (t : Threat) (post : Outcome string)
    (Hne : userA <> userB)
    (HkA : keyValid envA = true) (HkB : keyValid envB = true)
    (HlA : Bot.listed (default [] (Bot.userWallets b !! userA)) a = false)
    (HlB : Bot.listed (default [] (Bot.userWallets b !! userB)) a = false)
    (Hs1 : removeAccountChangeListener senv = Returned tt)
    (Hs2 : removeOnLogsListener senv = Returned tt) :
  let b1 := Bot.handleAddWallet b userA a nowA envA in
  let b2 := Bot.handleAddWallet b1 userB a nowB envB in
  let b3 := Bot.handleWalletRemovalNumber b2 userB
              (Z.of_nat (length (Bot.addresses b2 userB))) senv in
  a ∈ Bot.addresses b2 userA /\ a ∈ Bot.addresses b2 userB /\
  threatCallbacks (Bot.engine b2) !! a = Some userB /\
  (exists e,
     outbox (sendThreatAlert JSON_parse (Bot.engine b2) a t now post)
     = (outbox (Bot.engine b2) ++ AlertMessage userB a e
          :: (if 80 <=? riskScore e then [CriticalMessage userB] else []))%list) /\
  a ∈ Bot.addresses b3 userA /\ (a ∉ Bot.addresses b3 userB) /\
  monitoredWallets (Bot.engine b3) !! a = None /\
  threatCallbacks (Bot.engine b3) !! a = None.
Proof.
  intros b1 b2 b3.
  assert (HA1 : Bot.addresses b1 userA = (Bot.addresses b userA ++ [a])%list).
  { subst b1. rewrite handleAddWallet_addresses, HkA, HlA.
    rewrite bool_decide_eq_true_2 by reflexivity. reflexivity. }
  assert (HB1 : Bot.addresses b1 userB = Bot.addresses b userB).
  { subst b1. rewrite handleAddWallet_addresses.
    rewrite bool_decide_eq_false_2 by congruence. reflexivity. }
  assert (HlB1 : Bot.listed (default [] (Bot.userWallets b1 !! userB)) a = false).
  { subst b1. rewrite handleAddWallet_lists.
    rewrite bool_decide_eq_false_2 by congruence. exact HlB. }
  assert (HA2 : Bot.addresses b2 userA = (Bot.addresses b userA ++ [a])%list).
  { subst b2. rewrite handleAddWallet_addresses.
    rewrite bool_decide_eq_false_2 by congruence. exact HA1. }
  assert (HB2 : Bot.addresses b2 userB = (Bot.addresses b userB ++ [a])%list).
  { subst b2. rewrite handleAddWallet_addresses, HkB, HlB1.
    rewrite bool_decide_eq_true_2 by reflexivity. simpl. rewrite HB1. reflexivity. }
  assert (He2 : Bot.engine b2
                = fst (startMonitoring (Bot.engine b1) a userB userB nowB envB)).
  { subst b2. apply handleAddWallet_engine; assumption. }
  destruct (startMonitoring_registers (Bot.engine b1) a userB userB nowB envB HkB)
    as (Hreg & Hcb & _).
  rewrite <- He2 in Hreg, Hcb.
  split; [rewrite HA2; apply elem_of_app; right; apply list_elem_of_singleton; reflexivity|].
  split; [rewrite HB2; apply elem_of_app; right; apply list_elem_of_singleton; reflexivity|].
  split; [exact Hcb|].
  split.
  { unfold sendThreatAlert. rewrite Hcb. unfold handleThreatDetected,
      analyzeTransactionWithAI. cbn [outbox]. eexists. reflexivity. }
  (* the removal by the later user *)
  assert (Hws : exists ws w,
             default [] (Bot.userWallets b2 !! userB) = (ws ++ [w])%list /\
             Bot.address w = a /\ Bot.address <$> ws = Bot.addresses b userB).
  { subst b2. rewrite handleAddWallet_lists, HkB, HlB1.
    rewrite bool_decide_eq_true_2 by reflexivity. simpl.
    eexists. eexists. split; [reflexivity|]. split; [reflexivity|].
    fold (Bot.addresses b1 userB). exact HB1. }
  destruct Hws as (ws & w & Hws & Hw & Hwsa).
  assert (Hlen : length (Bot.addresses b2 userB) = S (length ws)).
  { unfold Bot.addresses. rewrite Hws, length_fmap, length_app. simpl. lia. }
  assert (Hb3 : Bot.engine b3 = stopMonitoring (Bot.engine b2) a senv /\
                Bot.userWallets b3 = <[userB := ws]> (Bot.userWallets b2)).
  { subst b3. unfold Bot.handleWalletRemovalNumber. rewrite Hlen, Hws.
    rewrite length_app. simpl length.
    replace (Z.of_nat (S (length ws)) <? 1) with false by (symmetry; apply Z.ltb_ge; lia).
    replace (Z.of_nat (length ws + 1) <? Z.of_nat (S (length ws))) with false
      by (symmetry; apply Z.ltb_ge; lia).
    simpl orb. cbv iota.
    replace (Z.to_nat (Z.of_nat (S (length ws)) - 1)) with (length ws) by lia.
    rewrite list_lookup_middle by reflexivity. simpl.
    rewrite Hw. split; [reflexivity|]. f_equal.
    rewrite delete_middle. apply app_nil_r. }
  destruct Hb3 as [He3 Hu3].
  destruct (stopMonitoring_ok (Bot.engine b2) a senv Hs1 Hs2) as [Hm Hc].
  split.
  { unfold Bot.addresses. rewrite Hu3, lookup_insert_ne by congruence.
    fold (Bot.addresses b2 userA). rewrite HA2.
    apply elem_of_app. right. apply list_elem_of_singleton. reflexivity. }
  split.
  { unfold Bot.addresses. rewrite Hu3, lookup_insert_eq. simpl. rewrite Hwsa.
    apply listed_false. exact HlB. }
  rewrite He3, Hm, (Hc Hreg), !lookup_delete_eq. auto.
Qed.

Lemma shared_wallet_belongs_to_last_adder_witness :
  let b1 := Bot.handleAddWallet (Bot.initialBot None) 7 wallet1 0 startOk in
  let b2 := Bot.handleAddWallet b1 8 wallet1 1 startOk in
  let b3 := Bot.handleWalletRemovalNumber b2 8
              (Z.of_nat (length (Bot.addresses b2 8))) stopOk in
  wallet1 ∈ Bot.addresses b2 7 /\ wallet1 ∈ Bot.addresses b2 8 /\
  threatCallbacks (Bot.engine b2) !! wallet1 = Some 8 /\
  (exists e,
     outbox (sendThreatAlert parseEmptyObject (Bot.engine b2) wallet1
               (healthThreat 9) 9 Threw)
     = (outbox (Bot.engine b2) ++ AlertMessage 8 wallet1 e
          :: (if 80 <=? riskScore e then [CriticalMessage 8] else []))%list) /\
  wallet1 ∈ Bot.addresses b3 7 /\ (wallet1 ∉ Bot.addresses b3 8) /\
  monitoredWallets (Bot.engine b3) !! wallet1 = None /\
  threatCallbacks (Bot.engine b3) !! wallet1 = None.
Proof.
  apply (shared_wallet_belongs_to_last_adder parseEmptyObject (Bot.initialBot None)
           7 8 wallet1 0 1 9 startOk startOk stopOk (healthThreat 9) Threw);
    first [reflexivity | discriminate].
Defined.

(** X23: [handleWalletRemovalNumber] with a number outside 1..n, n the
    length of the user's list, answers with the invalid-selection message
    and changes nothing else. With a number in range the wallet at that
    place leaves the user's list, no other list changes, the engine is
    asked to stop the wallet, and the user is told the wallet was removed:
    also when an unsubscribe call throws, in which case the engine keeps
    the wallet registered as before. *)
Theorem remove_wallet_outcomes
    (b : Bot.BotState) (user : Z) (number : Z) (senv : StopEnv) :
  let wallets := default [] (Bot.userWallets b !! user) in
  let b' := Bot.handleWalletRemovalNumber b user number senv in
  if (1 <=? number) && (number <=? Z.of_nat (length wallets)) then
    exists wallet,
      wallets !! Z.to_nat (number - 1) = Some wallet /\
      Bot.userWallets b' !! user = Some (delete (Z.to_nat (number - 1)) wallets) /\
      length (Bot.addresses b' user) = pred (length wallets) /\
      (forall u, u <> user -> Bot.userWallets b' !! u = Bot.userWallets b !! u) /\
      Bot.engine b' = stopMonitoring (Bot.engine b) (Bot.address wallet) senv /\
      last (Bot.replies b')
        = Some (user, Bot.WalletRemovedSuccessfully (Bot.address wallet)) /\
      (forall info,
         monitoredWallets (Bot.engine b) !! Bot.address wallet = Some info ->
         truthyId (subscriptionId info) = true ->
         removeAccountChangeListener senv = Threw ->
         Bot.engine b' = Bot.engine b)
  else
    Bot.engine b' = Bot.engine b /\ Bot.userWallets b' = Bot.userWallets b /\
    last (Bot.replies b') = Some (user, Bot.InvalidSelection (length wallets)).
Proof.
  intros wallets b'. subst b'. unfold Bot.handleWalletRemovalNumber. fold wallets.
  destruct (Z.leb_spec 1 number) as [H1|H1];
    destruct (Z.leb_spec number (Z.of_nat (length wallets))) as [H2|H2]; simpl.
  - replace (number <? 1) with false by (symmetry; apply Z.ltb_ge; lia).
    replace (Z.of_nat (length wallets) <? number) with false
      by (symmetry; apply Z.ltb_ge; lia).
    simpl.
    destruct (lookup_lt_is_Some_2 wallets (Z.to_nat (number - 1))) as [wallet Hw];
      [lia|].
    rewrite Hw. exists wallet. simpl.
    split; [reflexivity|]. split; [apply lookup_insert_eq|]. split.
    { unfold Bot.addresses. simpl. rewrite lookup_insert_eq. simpl.
      rewrite length_fmap, length_delete by eauto. lia. }
    split; [intros u Hu; apply lookup_insert_ne; congruence|].
    split; [reflexivity|]. split; [apply last_snoc|].
    intros info Hi Ht Hthrow. unfold stopMonitoring, whenId.
    rewrite Hi, Ht, Hthrow. reflexivity.
  - replace (Z.of_nat (length wallets) <? number) with true
      by (symmetry; apply Z.ltb_lt; lia).
    rewrite orb_true_r. simpl. split; [reflexivity|]. split; [reflexivity|].
    apply last_snoc.
  - replace (number <? 1) with true by (symmetry; apply Z.ltb_lt; lia).
    simpl. split; [reflexivity|]. split; [reflexivity|]. apply last_snoc.
  - replace (number <? 1) with true by (symmetry; apply Z.ltb_lt; lia).
    simpl. split; [reflexivity|]. split; [reflexivity|]. apply last_snoc.
Qed.

(** ** The monitoring controls *)

Lemma isMonitored_delete st st' a x :
  monitoredWallets st' = delete a (monitoredWallets st) -> x <> a ->
  Bot.isMonitored st' x = Bot.isMonitored st x.
Proof.
  intros H Hne. unfold Bot.isMonitored. rewrite H, lookup_delete_ne by congruence.
  reflexivity.
Qed.

Lemma stopLoop_fold senv ws :
  (forall a, removeAccountChangeListener (senv a) = Returned tt /\
             removeOnLogsListener (senv a) = Returned tt) ->
  NoDup (Bot.address <$> ws) ->
  forall eng k,
    monitoredWallets (fst (foldl (Bot.stopLoop senv) (eng, k) ws))
    = foldl (fun m w => delete (Bot.address w) m) (monitoredWallets eng) ws /\
    snd (foldl (Bot.stopLoop senv) (eng, k) ws)
    = (k + length (List.filter (fun w => Bot.isMonitored eng (Bot.address w)) ws))%nat.
Proof.
  intros Hok. induction ws as [|w ws IH]; intros Hd eng k; simpl; [split; [reflexivity|lia]|].
  rewrite fmap_cons in Hd. apply NoDup_cons in Hd as [Hw Hd].
  destruct (Hok (Bot.address w)) as [H1 H2].
  destruct (stopMonitoring_ok eng (Bot.address w) (senv (Bot.address w)) H1 H2)
    as [Hm _].
  assert (Hext : forall eng', monitoredWallets eng' = delete (Bot.address w) (monitoredWallets eng) ->
            List.filter (fun x => Bot.isMonitored eng' (Bot.address x)) ws
            = List.filter (fun x => Bot.isMonitored eng (Bot.address x)) ws).
  { intros eng' He. apply filter_ext_in. intros x Hx.
    apply (isMonitored_delete eng eng' (Bot.address w)); [exact He|].
    intros Heq. apply Hw. rewrite <- Heq.
    apply list_elem_of_fmap. exists x. split; [reflexivity | apply list_elem_of_In, Hx]. }
  unfold Bot.stopLoop at 2 4. simpl fst. simpl snd.
  destruct (Bot.isMonitored eng (Bot.address w)) eqn:Em.
  - destruct (IH Hd (stopMonitoring eng (Bot.address w) (senv (Bot.address w))) (S k))
      as [IH1 IH2].
    rewrite IH1, IH2, Hm, (Hext _ Hm). simpl. split; [reflexivity | lia].
  - destruct (IH Hd eng k) as [IH1 IH2]. rewrite IH1, IH2.
    unfold Bot.isMonitored in Em. apply bool_decide_eq_false in Em.
    rewrite (delete_id (monitoredWallets eng) (Bot.address w)); [split; [reflexivity|lia]|].
    destruct (monitoredWallets eng !! Bot.address w) eqn:E; [|reflexivity].
    exfalso. apply Em. eauto.
Qed.

Lemma lookup_foldl_delete (ws : list Bot.UserWallet) :
  forall (m : gmap string WalletInfo) a,
    foldl (fun m w => delete (Bot.address w) m) m ws !! a
    = if bool_decide (a ∈ Bot.address <$> ws) then None else m !! a.
Proof.
  induction ws as [|w ws IH]; intros m a; simpl; [reflexivity|].
  rewrite IH. case_bool_decide as H1; case_bool_decide as H2; try reflexivity.
  - exfalso. apply H2. apply elem_of_cons. auto.
  - apply elem_of_cons in H2 as [Heq|H2]; [subst a; apply lookup_delete_eq | contradiction].
  - apply lookup_delete_ne. intros Heq. apply H2, elem_of_cons. auto.
Qed.

Lemma filter_by_address (P : string -> bool) (ws : list Bot.UserWallet) :
  length (List.filter (fun w => P (Bot.address w)) ws)
  = length (List.filter P (Bot.address <$> ws)).
Proof.
  induction ws as [|w ws IH]; simpl; [reflexivity|].
  destruct (P (Bot.address w)); simpl; rewrite IH; reflexivity.
Qed.

(** X24: the 'stop' action of the monitoring controls, when every
    unsubscribe call succeeds, takes every wallet of the user's list out of
    the registry and leaves every other registry entry and every wallet
    list as they were; the number it reports is the number of the user's
    wallets that were registered. *)
Theorem stop_control_stops_listed_wallets
    (b : Bot.BotState) (user now : Z) (env : string -> StartEnv)
    (senv : string -> StopEnv)
    (Hok : forall a, removeAccountChangeListener (senv a) = Returned tt /\
                     removeOnLogsListener (senv a) = Returned tt)
    (Hd : NoDup (Bot.addresses b user)) :
  let b' := Bot.handleMonitorControl b user Bot.ActionStop now env senv in
  (forall a, monitoredWallets (Bot.engine b') !! a
             = if bool_decide (a ∈ Bot.addresses b user) then None
               else monitoredWallets (Bot.engine b) !! a) /\
  Bot.userWallets b' = Bot.userWallets b /\
  Bot.replies b'
  = (Bot.replies b
       ++ [(user, Bot.MonitoringStopped
                    (length (List.filter (Bot.isMonitored (Bot.engine b))
                               (Bot.addresses b user))))])%list.
Proof.
  intros b'. subst b'. unfold Bot.handleMonitorControl. cbn [Bot.engine Bot.reply
    Bot.userWallets Bot.replies].
  destruct (stopLoop_fold senv (default [] (Bot.userWallets b !! user)) Hok Hd
              (Bot.engine b) 0%nat) as [H1 H2].
  split; [|split; [reflexivity|]].
  - intros a. rewrite H1. apply lookup_foldl_delete.
  - rewrite H2. simpl. unfold Bot.addresses. rewrite filter_by_address. reflexivity.
Qed.

Lemma stop_control_stops_listed_wallets_witness :
  let b' := Bot.handleMonitorControl botWithTwo 7 Bot.ActionStop 9
              (fun _ => startOk) (fun _ => stopOk) in
  (forall a, monitoredWallets (Bot.engine b') !! a
             = if bool_decide (a ∈ Bot.addresses botWithTwo 7) then None
               else monitoredWallets (Bot.engine botWithTwo) !! a) /\
  Bot.userWallets b' = Bot.userWallets botWithTwo /\
  Bot.replies b'
  = (Bot.replies botWithTwo
       ++ [(7, Bot.MonitoringStopped
                 (length (List.filter (Bot.isMonitored (Bot.engine botWithTwo))
                            (Bot.addresses botWithTwo 7))))])%list.
Proof.
  apply (stop_control_stops_listed_wallets botWithTwo 7 9
           (fun _ => startOk) (fun _ => stopOk)).
  - intros a. split; reflexivity.
  - vm_compute. repeat constructor; intros H; inversion H; subst;
      try match goal with Hx : _ ∈ [] |- _ => inversion Hx end;
      try match goal with Hx : _ ∈ [_] |- _ => inversion Hx; subst end;
      try match goal with Hx : _ ∈ [] |- _ => inversion Hx end.
Defined.

Lemma startLoop_fold user now env ws :
  (forall a, keyValid (env a) = true) ->
  forall eng k a,
    let r := foldl (Bot.startLoop user now env) (eng, k) ws in
    match monitoredWallets eng !! a with
    | Some info =>
        monitoredWallets (fst r) !! a = Some info /\
        threatCallbacks (fst r) !! a = threatCallbacks eng !! a
    | None =>
        if bool_decide (a ∈ Bot.address <$> ws)
        then is_Some (monitoredWallets (fst r) !! a) /\
             threatCallbacks (fst r) !! a = Some user
        else monitoredWallets (fst r) !! a = None /\
             threatCallbacks (fst r) !! a = threatCallbacks eng !! a
    end.
Proof.
  intros Hk. induction ws as [|w ws IH]; intros eng k a.
  - simpl. destruct (monitoredWallets eng !! a); auto.
  - cbn [foldl]. cbn zeta.
    assert (Hb : a <> Bot.address w ->
                 bool_decide (a ∈ Bot.address <$> w :: ws)
                 = bool_decide (a ∈ Bot.address <$> ws)).
    { intros Hne. apply bool_decide_ext. rewrite fmap_cons, elem_of_cons. tauto. }
    destruct (Bot.isMonitored eng (Bot.address w)) eqn:Em.
    + assert (Hs : Bot.startLoop user now env (eng, k) w = (eng, k)).
      { unfold Bot.startLoop. cbn [fst snd]. rewrite Em. reflexivity. }
      rewrite Hs. specialize (IH eng k a). cbn zeta in IH.
      destruct (monitoredWallets eng !! a) eqn:Ea; [exact IH|].
      rewrite Hb; [exact IH|].
      intros ->. unfold Bot.isMonitored in Em. apply bool_decide_eq_true in Em.
      rewrite Ea in Em. destruct Em. discriminate.
    + destruct (startMonitoring_registers eng (Bot.address w) user user now
                  (env (Bot.address w)) (Hk _)) as (Hreg & Hcb & Hoth).
      assert (Hs : exists k',
                 Bot.startLoop user now env (eng, k) w
                 = (fst (startMonitoring eng (Bot.address w) user user now
                           (env (Bot.address w))), k')).
      { unfold Bot.startLoop. cbn [fst snd]. rewrite Em. eexists. reflexivity. }
      destruct Hs as [k' Hs]. rewrite Hs.
      set (eng' := fst (startMonitoring eng (Bot.address w) user user now
                          (env (Bot.address w)))) in *.
      specialize (IH eng' k' a). cbn zeta in IH.
      destruct (decide (a = Bot.address w)) as [Heq|Hne].
      * subst a. unfold Bot.isMonitored in Em. apply bool_decide_eq_false in Em.
        destruct (monitoredWallets eng !! Bot.address w) eqn:Ea;
          [exfalso; apply Em; eauto|].
        rewrite bool_decide_eq_true_2 by (rewrite fmap_cons; apply elem_of_cons; auto).
        destruct Hreg as [i Hi]. rewrite Hi in IH. destruct IH as [IH1 IH2].
        rewrite IH1, IH2. split; [eauto | exact Hcb].
      * destruct (Hoth a Hne) as [Hm Hc]. rewrite Hm, Hc in IH.
        rewrite (Hb Hne). exact IH.
Qed.

(** X25: the 'start' action of the monitoring controls, for addresses the
    key check accepts, leaves every wallet of the user's list registered.
    A wallet that was not registered gets the user as the one to alert; a
    wallet that was registered already is not started again and keeps its
    entry and its callback, whoever they belong to; wallets outside the
    list are not touched. *)
Theorem start_control_registers_listed_wallets
    (b : Bot.BotState) (user now : Z) (env : string -> StartEnv)
    (senv : string -> StopEnv) (a : string)
    (Hk : forall x, keyValid (env x) = true) :
  let b' := Bot.handleMonitorControl b user Bot.ActionStart now env senv in
  Bot.userWallets b' = Bot.userWallets b /\
  match monitoredWallets (Bot.engine b) !! a with
  | Some info =>
      monitoredWallets (Bot.engine b') !! a = Some info /\
      threatCallbacks (Bot.engine b') !! a = threatCallbacks (Bot.engine b) !! a
  | None =>
      if bool_decide (a ∈ Bot.addresses b user)
      then is_Some (monitoredWallets (Bot.engine b') !! a) /\
           threatCallbacks (Bot.engine b') !! a = Some user
      else monitoredWallets (Bot.engine b') !! a = None /\
           threatCallbacks (Bot.engine b') !! a = threatCallbacks (Bot.engine b) !! a
  end.
Proof.
  intros b'. subst b'. unfold Bot.handleMonitorControl.
  cbn [Bot.engine Bot.reply Bot.userWallets]. split; [reflexivity|].
  apply (startLoop_fold user now env (default [] (Bot.userWallets b !! user)) Hk
           (Bot.engine b) 0%nat a).
Qed.

Lemma start_control_registers_listed_wallets_witness :
  let stoppedBot := Bot.handleMonitorControl botWithTwo 7 Bot.ActionStop 9
                      (fun _ => startOk) (fun _ => stopOk) in
  let b' := Bot.handleMonitorControl stoppedBot 7 Bot.ActionStart 10
              (fun _ => startOk) (fun _ => stopOk) in
  Bot.userWallets b' = Bot.userWallets stoppedBot /\
  match monitoredWallets (Bot.engine stoppedBot) !! wallet2 with
  | Some info =>
      monitoredWallets (Bot.engine b') !! wallet2 = Some info /\
      threatCallbacks (Bot.engine b') !! wallet2
      = threatCallbacks (Bot.engine stoppedBot) !! wallet2
  | None =>
      if bool_decide (wallet2 ∈ Bot.addresses stoppedBot 7)
      then is_Some (monitoredWallets (Bot.engine b') !! wallet2) /\
           threatCallbacks (Bot.engine b') !! wallet2 = Some 7
      else monitoredWallets (Bot.engine b') !! wallet2 = None /\
           threatCallbacks (Bot.engine b') !! wallet2
           = threatCallbacks (Bot.engine stoppedBot) !! wallet2
  end.
Proof.
  apply (start_control_registers_listed_wallets
           (Bot.handleMonitorControl botWithTwo 7 Bot.ActionStop 9
              (fun _ => startOk) (fun _ => stopOk))
           7 10 (fun _ => startOk) (fun _ => stopOk) wallet2).
  intros x. reflexivity.
Defined.

(** ** The stored alerts *)

Lemma alertIdOf_inj w now now' : alertIdOf w now = alertIdOf w now' -> now = now'.
Proof.
  unfold alertIdOf. intros H.
  apply (inj (String.app w)) in H. apply (inj (String.app "-")) in H.
  apply (inj pretty) in H. exact H.
Qed.

(** X26: the threat handler stores the alert it delivers under the wallet
    address joined to the instant of the call, with the user and the
    wallet. Two threats of one wallet handled at the same instant are both
    delivered but stored as one alert, the later over the earlier; handled
    at different instants both are stored. A stored alert of the wallet
    whose threat is less than a day old is counted by [getRecentAlerts]. *)
Theorem alerts_are_stored_by_wallet_and_instant
    (JSON_parse : string -> option AIAnalysis) (st : State) (w : string)
    (t t' : Threat) (uid uid' now now' asked : Z) (post post' : Outcome string) :
  let st1 := handleThreatDetected JSON_parse st w t uid now post in
  let st2 := handleThreatDetected JSON_parse st1 w t' uid' now' post' in
  (exists e,
     threatAlerts st1 !! alertIdOf w now
     = Some {| saThreat := e; saUserId := uid; saWalletAddress := w;
               alertId := alertIdOf w now |} /\
     AlertMessage uid w e ∈ outbox st1 /\ timestamp e = timestamp t) /\
  (length (outbox st) + 2 <= length (outbox st2))%nat /\
  (if now =? now'
   then size (threatAlerts st2) = size (threatAlerts st1) /\
        (saUserId <$> threatAlerts st2 !! alertIdOf w now) = Some uid'
   else (saUserId <$> threatAlerts st2 !! alertIdOf w now) = Some uid /\
        (saUserId <$> threatAlerts st2 !! alertIdOf w now') = Some uid') /\
  (asked - timestamp t < 24 * 60 * 60 * 1000 ->
   (1 <= recentAlerts st1 w asked)%nat /\
   getRecentAlerts st1 w asked = "🔴 " +:+ pretty (recentAlerts st1 w asked)).
Proof.
  intros st1 st2.
  assert (H1 : exists e,
             threatAlerts st1 !! alertIdOf w now
             = Some {| saThreat := e; saUserId := uid; saWalletAddress := w;
                       alertId := alertIdOf w now |} /\
             AlertMessage uid w e ∈ outbox st1 /\ timestamp e = timestamp t).
  { subst st1. unfold handleThreatDetected, analyzeTransactionWithAI.
    cbn [threatAlerts outbox]. eexists. split; [apply lookup_insert_eq|].
    split; [|reflexivity].
    apply elem_of_app. right. apply elem_of_cons. left. reflexivity. }
  split; [exact H1|]. split; [|split].
  - subst st2 st1. unfold handleThreatDetected, analyzeTransactionWithAI.
    cbn [outbox]. rewrite !length_app. simpl. lia.
  - destruct (Z.eqb_spec now now') as [<-|Hne].
    + subst st2. unfold handleThreatDetected at 1 2, analyzeTransactionWithAI.
      cbn [threatAlerts]. fold (alertIdOf w now).
      destruct H1 as (e & He & _).
      split; [|rewrite lookup_insert_eq; reflexivity].
      rewrite map_size_insert, He. reflexivity.
    + subst st2 st1. unfold handleThreatDetected, analyzeTransactionWithAI.
      cbn [threatAlerts]. fold (alertIdOf w now) (alertIdOf w now').
      rewrite lookup_insert_ne
        by (intros Heq; apply Hne; symmetry; exact (alertIdOf_inj _ _ _ Heq)).
      rewrite !lookup_insert_eq. split; reflexivity.
  - intros Hday. destruct H1 as (e & He & _ & Hts).
    assert (Hn : (1 <= recentAlerts st1 w asked)%nat).
    { unfold recentAlerts.
      set (a := {| saThreat := e; saUserId := uid; saWalletAddress := w;
                   alertId := alertIdOf w now |}) in *.
      assert (Hin : In a (snd <$> map_to_list (threatAlerts st1))).
      { apply list_elem_of_In, list_elem_of_fmap. exists (alertIdOf w now, a).
        split; [reflexivity|]. apply elem_of_map_to_list, He. }
      match goal with
      | |- (1 <= length (List.filter ?f ?l))%nat =>
          assert (Hf : In a (List.filter f l))
      end.
      { apply filter_In. split; [exact Hin|]. subst a. simpl.
        rewrite String.eqb_refl, Hts. simpl. apply Z.ltb_lt. exact Hday. }
      match goal with
      | |- (1 <= length ?l)%nat => destruct l; [destruct Hf | simpl; lia]
      end. }
    split; [exact Hn|]. unfold getRecentAlerts.
    destruct (0 <? recentAlerts st1 w asked)%nat eqn:E; [reflexivity|].
    apply Nat.ltb_ge in E. lia.
Qed.
